(** * Keyword-analysis pipeline (app.py, column_mapper.py): a shallow embedding

    The development follows the stages of the program:
    column-name resolution ([suggest_column_mapping_with_rules],
    [create_column_mapping_ui]), metric derivation, cost-priority selection,
    batch classification with its fallback chain
    ([categorize_keywords_with_llm], [cluster_keywords_with_llm]), the join of
    categories onto rows and the category roll-ups.

    Conventions.
    - A Python [str] is a list of Unicode code points ([ustr]); literals are
      written as UTF-8 text and decoded by [u].
    - A pandas/NumPy float is an extended rational ([float]): a finite
      rational, the two infinities, or NaN.  Signed zeros, overflow, the
      wrap-around of int64 columns and the rounding of binary64 are outside
      this model; [high_cost_df_with] takes the sort and the arithmetic
      as parameters for the property of the selection that depends on them.
    - Calls to the language model are calls to an oracle that is a parameter
      of every definition that talks to it. *)

From Stdlib Require Import ZArith QArith List Sorted Lia Bool.
From Stdlib Require Import Ascii String.
From Stdlib Require Qcanon DecimalPos.
From stdpp Require Import base list gmap.

Local Open Scope Z_scope.

(* ===================================================================== *)
(** ** Python strings *)
(* ===================================================================== *)

Module PyStr.

(** A [str] value: its code points, in order. *)
Definition ustr : Type := list N.

(** UTF-8 decoding of a byte sequence (well-formed input is all the
    development feeds it: the literals of this file). *)
Fixpoint utf8_decode (bs : list N) : ustr :=
  match bs with
  | [] => []
  | b0 :: rest =>
    if (b0 <? 128)%N then b0 :: utf8_decode rest
    else if (b0 <? 224)%N then
      match rest with
      | b1 :: rest' =>
        (N.lor (N.shiftl (N.land b0 31) 6) (N.land b1 63)) :: utf8_decode rest'
      | [] => [b0]
      end
    else if (b0 <? 240)%N then
      match rest with
      | b1 :: b2 :: rest' =>
        (N.lor (N.shiftl (N.land b0 15) 12)
               (N.lor (N.shiftl (N.land b1 63) 6) (N.land b2 63)))
          :: utf8_decode rest'
      | _ => [b0]
      end
    else
      match rest with
      | b1 :: b2 :: b3 :: rest' =>
        (N.lor (N.shiftl (N.land b0 7) 18)
               (N.lor (N.shiftl (N.land b1 63) 12)
                      (N.lor (N.shiftl (N.land b2 63) 6) (N.land b3 63))))
          :: utf8_decode rest'
      | _ => [b0]
      end
  end.

(** The code points of a literal. *)
Definition u (s : string) : ustr :=
  utf8_decode (List.map N_of_ascii (list_ascii_of_string s)).

(** [a == b] on strings. *)
Definition ustr_eqb (a b : ustr) : bool := bool_decide (a = b).

(** [s.startswith(p)]. *)
Fixpoint starts_with (p s : ustr) : bool :=
  match p, s with
  | [], _ => true
  | _ :: _, [] => false
  | x :: p', y :: s' => (x =? y)%N && starts_with p' s'
  end.

(** [p in s]: [p] occurs in [s] as a contiguous block. *)
Fixpoint contains (p s : ustr) : bool :=
  starts_with p s ||
  match s with
  | [] => false
  | _ :: s' => contains p s'
  end.

(** The white space of [str.strip()] and [str.isspace()]. *)
Definition is_space (c : N) : bool :=
  ((9 <=? c) && (c <=? 13) || (28 <=? c) && (c <=? 32)
   || (c =? 133) || (c =? 160) || (c =? 5760)
   || (8192 <=? c) && (c <=? 8202) || (c =? 8232) || (c =? 8233)
   || (c =? 8239) || (c =? 8287) || (c =? 12288))%N.

Fixpoint lstrip (s : ustr) : ustr :=
  match s with
  | c :: s' => if is_space c then lstrip s' else s
  | [] => []
  end.

(** [s.strip()]. *)
Definition strip (s : ustr) : ustr := rev (lstrip (rev (lstrip s))).

(** [s.replace(c, '')] for a one-character [c]. *)
Definition remove_char (c : N) (s : ustr) : ustr :=
  List.filter (fun x => negb (x =? c)%N) s.

(** [sep.join(parts)]. *)
Fixpoint str_join (sep : ustr) (parts : list ustr) : ustr :=
  match parts with
  | [] => []
  | [p] => p
  | p :: ps => p ++ sep ++ str_join sep ps
  end.

(** Lower-casing of one ASCII letter; every other code point is kept. *)
Definition lower_cp (c : N) : N :=
  if ((65 <=? c) && (c <=? 90))%N then (c + 32)%N else c.

(** Code points on which [str.lower()] is known letter by letter: ASCII, and
    the caseless blocks from hiragana to the CJK ideographs, which hold every
    non-ASCII character of the alias tables. *)
Definition plain_cp (c : N) : bool :=
  ((c <? 128) || (12352 <=? c) && (c <=? 40959))%N.

(** Decimal digits of [str(n)] for an integer. *)
Fixpoint uint_digits (d : Decimal.uint) : ustr :=
  match d with
  | Decimal.Nil => []
  | Decimal.D0 d' => 48%N :: uint_digits d'
  | Decimal.D1 d' => 49%N :: uint_digits d'
  | Decimal.D2 d' => 50%N :: uint_digits d'
  | Decimal.D3 d' => 51%N :: uint_digits d'
  | Decimal.D4 d' => 52%N :: uint_digits d'
  | Decimal.D5 d' => 53%N :: uint_digits d'
  | Decimal.D6 d' => 54%N :: uint_digits d'
  | Decimal.D7 d' => 55%N :: uint_digits d'
  | Decimal.D8 d' => 56%N :: uint_digits d'
  | Decimal.D9 d' => 57%N :: uint_digits d'
  end.

Definition str_of_Z (z : Z) : ustr :=
  match z with
  | Z0 => [48%N]
  | Zpos p => uint_digits (Pos.to_uint p)
  | Zneg p => 45%N :: uint_digits (Pos.to_uint p)
  end.

End PyStr.
Export PyStr.

(* ===================================================================== *)
(** ** Python values that occur as keywords *)
(* ===================================================================== *)

(** A cell of the [Keyword] column: [None], a string or an integer (a
    spreadsheet cell read as a number).  A float cell is not among them: the
    NaN that pandas puts for a blank cell passes the validity test below as
    the text "nan", and what the dictionaries of the join do with such a key
    depends on the identity of the float object; it is left outside the
    model. *)
Inductive pyval : Type :=
  | PNone
  | PStr (s : ustr)
  | PInt (z : Z).

#[global] Instance pyval_eq_dec : EqDecision pyval.
Proof. solve_decision. Defined.

#[global] Instance pyval_countable : Countable pyval.
Proof.
  refine (inj_countable'
    (fun v => match v with
              | PNone => inl ()
              | PStr s => inr (inl s)
              | PInt z => inr (inr z)
              end)
    (fun x => match x with
              | inl _ => PNone
              | inr (inl s) => PStr s
              | inr (inr z) => PInt z
              end) _).
  by intros [].
Defined.

(** [str(kw)]. *)
Definition py_str (v : pyval) : ustr :=
  match v with
  | PNone => u "None"
  | PStr s => s
  | PInt z => str_of_Z z
  end.

(** The test [kw is not None and str(kw).strip() != ''] that guards every
    loop over keywords. *)
Definition valid_keyword (kw : pyval) : bool :=
  match kw with
  | PNone => false
  | _ => negb (ustr_eqb (strip (py_str kw)) [])
  end.

(* ===================================================================== *)
(** ** Floating-point values of pandas columns *)
(* ===================================================================== *)

Module PyFloat.

(** A float64 cell: a finite value, an infinity, or NaN (pandas' marker of a
    missing or undefined value). *)
Inductive float : Type :=
  | Fin (q : Q)
  | PInf
  | NInf
  | NaN.

Definition is_nan (f : float) : bool :=
  match f with NaN => true | _ => false end.

Definition is_inf (f : float) : bool :=
  match f with PInf | NInf => true | _ => false end.

Definition is_fin (f : float) : bool :=
  match f with Fin _ => true | _ => false end.

(** [a + b]. *)
Definition fadd (a b : float) : float :=
  match a, b with
  | NaN, _ | _, NaN => NaN
  | PInf, NInf | NInf, PInf => NaN
  | PInf, _ | _, PInf => PInf
  | NInf, _ | _, NInf => NInf
  | Fin x, Fin y => Fin (Qred (x + y))
  end.

(** The sign of a finite value, read off its numerator. *)
Definition Qsign (x : Q) : comparison := (Qnum x ?= 0)%Z.

(** [a * b]. *)
Definition fmul (a b : float) : float :=
  match a, b with
  | NaN, _ | _, NaN => NaN
  | Fin x, Fin y => Fin (Qred (x * y))
  | Fin x, PInf | PInf, Fin x =>
    match Qsign x with Eq => NaN | Gt => PInf | Lt => NInf end
  | Fin x, NInf | NInf, Fin x =>
    match Qsign x with Eq => NaN | Gt => NInf | Lt => PInf end
  | PInf, PInf | NInf, NInf => PInf
  | PInf, NInf | NInf, PInf => NInf
  end.

(** [a / b] as NumPy divides: no exception; a zero divisor gives an
    infinity, or NaN for 0/0. *)
Definition fdiv (a b : float) : float :=
  match a, b with
  | NaN, _ | _, NaN => NaN
  | Fin x, Fin y =>
    match Qsign y with
    | Eq => match Qsign x with Eq => NaN | Gt => PInf | Lt => NInf end
    | _ => Fin (Qred (x / y))
    end
  | Fin _, PInf | Fin _, NInf => Fin 0
  | PInf, Fin y => match Qsign y with Lt => NInf | _ => PInf end
  | NInf, Fin y => match Qsign y with Lt => PInf | _ => NInf end
  | _, _ => NaN
  end.

(** [a <= b]: false as soon as one side is NaN. *)
Definition fle (a b : float) : bool :=
  match a, b with
  | NaN, _ | _, NaN => false
  | NInf, _ | _, PInf => true
  | PInf, _ | _, NInf => false
  | Fin x, Fin y => Qle_bool x y
  end.

(** [a > b]. *)
Definition fgt (a b : float) : bool :=
  match a, b with
  | NaN, _ | _, NaN => false
  | _, _ => negb (fle a b)
  end.

(** Rounding of a rational to the nearest integer, halves to the even
    neighbour (NumPy's [rint]). *)
Definition round_half_even (q : Q) : Z :=
  let n := Qnum q in
  let d := Zpos (Qden q) in
  let fl := (n / d)%Z in
  match (2 * (n mod d) ?= d)%Z with
  | Lt => fl
  | Gt => (fl + 1)%Z
  | Eq => if Z.even fl then fl else (fl + 1)%Z
  end.

(** [Series.round(decimals)]: scale, round to an integer, scale back; NaN
    and the infinities are kept.  The value rounded here is the exact
    quotient; the program rounds its binary64 approximation, which can fall
    on the other side of a tie. *)
Definition fround (decimals : nat) (f : float) : float :=
  match f with
  | Fin q =>
    let s := inject_Z (10 ^ Z.of_nat decimals) in
    Fin (Qred (inject_Z (round_half_even (q * s)) / s))
  | _ => f
  end.

(** One cell of [DataFrame.replace([inf, -inf], nan)]. *)
Definition replace_inf (f : float) : float :=
  match f with PInf | NInf => NaN | _ => f end.

(** [Series.sum()] (NaN skipped, 0 for an empty or all-NaN series). *)
Definition nansum (l : list float) : float :=
  fold_left (fun acc x => if is_nan x then acc else fadd acc x) l (Fin 0).

(** A finite value that is zero. *)
Definition is_zero (f : float) : bool :=
  match f with
  | Fin q => match Qsign q with Eq => true | _ => false end
  | _ => false
  end.

(** A finite value that is strictly positive. *)
Definition is_pos (f : float) : bool :=
  match f with
  | Fin q => match Qsign q with Gt => true | _ => false end
  | _ => false
  end.

(** A finite value that is zero or positive. *)
Definition is_nonneg (f : float) : bool :=
  match f with
  | Fin q => match Qsign q with Lt => false | _ => true end
  | _ => false
  end.

End PyFloat.
Export PyFloat.

(* ===================================================================== *)
(** ** Metric derivation (app.py, the upload tab) *)
(* ===================================================================== *)

(** A column of the mapped frame as the coercion loop sees it: a column of
    dtype [object], each cell given by its [str()] image (all that
    [astype(str)] keeps of it), or a numeric column. *)
Inductive column : Type :=
  | ObjCol (cells : list ustr)
  | NumCol (cells : list float).

(** [mapped_df] restricted to the columns the pipeline reads. *)
Record mapped_frame : Type := {
  mKeyword : list pyval;
  mMatchType : list ustr;
  mImpressions : column;
  mClicks : column;
  mCost : column;
  mConversions : column
}.

(** A row once the four numeric columns are floats. *)
Record coerced_row : Type := {
  cKeyword : pyval;
  cMatchType : ustr;
  cImpressions : float;
  cClicks : float;
  cCost : float;
  cConversions : float
}.

(** A row of [st.session_state.data]: the KeywordRecord. *)
Record krow : Type := {
  Keyword : pyval;
  MatchType : ustr;
  Impressions : float;
  Clicks : float;
  Cost : float;
  Conversions : float;
  CTR : float;
  CVR : float;
  CPC : float;
  CPA : float;
  CPM : float
}.

(** [.str.replace(',', '').str.replace('¥', '')]. *)
Definition clean_numeric_text (s : ustr) : ustr :=
  remove_char 165 (remove_char 44 s).

(** [pd.to_numeric(..., errors='coerce')] is pandas' own parser and stays a
    parameter below.  The concrete examples need its values at four texts
    only, the cleaned cells of [example_frame]: "1000", "0" and "2" are read
    as these numbers and "n/a" is not a number.  No other text is parsed in
    any example; NaN stands in for them here and says nothing about
    pandas. *)
Definition example_to_numeric (s : ustr) : float :=
  if ustr_eqb s (u "1000") then Fin 1000
  else if ustr_eqb s (u "0") then Fin 0
  else if ustr_eqb s (u "2") then Fin 2
  else NaN.

Section Derivation.

(** [pd.to_numeric(text, errors='coerce')] on one cell: a float, NaN when
    the text is not a number.  The parser is pandas' own. *)
Variable to_numeric : ustr -> float.

(** The coercion loop over [numeric_columns]: only columns of dtype
    [object] are converted. *)
Definition coerce_column (c : column) : list float :=
  match c with
  | ObjCol cells => List.map (fun s => to_numeric (clean_numeric_text s)) cells
  | NumCol cells => cells
  end.

(** The rows of a frame whose columns are lists of equal length. *)
Fixpoint zip_rows (kw : list pyval) (mt : list ustr)
    (imp clk cost conv : list float) : list coerced_row :=
  match kw, mt, imp, clk, cost, conv with
  | k :: kw', m :: mt', i :: imp', c :: clk', co :: cost', cv :: conv' =>
    {| cKeyword := k; cMatchType := m; cImpressions := i; cClicks := c;
       cCost := co; cConversions := cv |}
      :: zip_rows kw' mt' imp' clk' cost' conv'
  | _, _, _, _, _, _ => []
  end.

Definition coerce_frame (df : mapped_frame) : list coerced_row :=
  zip_rows (mKeyword df) (mMatchType df)
           (coerce_column (mImpressions df)) (coerce_column (mClicks df))
           (coerce_column (mCost df)) (coerce_column (mConversions df)).

(** The five derived columns, then [replace([inf, -inf], nan)] over the
    whole frame. *)
Definition derive_row (r : coerced_row) : krow :=
  let imp := cImpressions r in
  let clk := cClicks r in
  let cost := cCost r in
  let conv := cConversions r in
  {| Keyword := cKeyword r;
     MatchType := cMatchType r;
     Impressions := replace_inf imp;
     Clicks := replace_inf clk;
     Cost := replace_inf cost;
     Conversions := replace_inf conv;
     CTR := replace_inf (fround 2 (fmul (fdiv clk imp) (Fin 100)));
     CVR := replace_inf (fround 2 (fmul (fdiv conv clk) (Fin 100)));
     CPC := replace_inf (fround 0 (fdiv cost clk));
     CPA := replace_inf (fround 0 (fdiv cost conv));
     CPM := replace_inf (fround 0 (fmul (fdiv cost imp) (Fin 1000))) |}.

(** [st.session_state.data] for an uploaded, mapped frame. *)
Definition derive_metrics (df : mapped_frame) : list krow :=
  List.map derive_row (coerce_frame df).

End Derivation.

(* ===================================================================== *)
(** ** Cost-priority selection (app.py, the categorize tab) *)
(* ===================================================================== *)

(** [x] may stand before [y] in [sort_values('Cost', ascending=False)]:
    larger cost first, NaN last. *)
Definition cost_before (x y : krow) : bool :=
  match Cost x, Cost y with
  | NaN, NaN => true
  | NaN, _ => false
  | _, NaN => true
  | a, b => fle b a
  end.

Fixpoint insert_by_cost (x : krow) (l : list krow) : list krow :=
  match l with
  | [] => [x]
  | y :: l' => if cost_before x y then x :: l else y :: insert_by_cost x l'
  end.

(** [df.sort_values('Cost', ascending=False)].  Rows of equal cost keep
    their order here; pandas' default sort does not promise an order among
    them, and no statement below depends on it. *)
Definition sort_values_cost_desc (df : list krow) : list krow :=
  fold_right insert_by_cost [] df.

(** [Series.cumsum()]: a NaN cell stays NaN and does not enter the sum. *)
Fixpoint cumsum_from (acc : float) (l : list float) : list float :=
  match l with
  | [] => []
  | x :: l' =>
    if is_nan x then NaN :: cumsum_from acc l'
    else let acc' := fadd acc x in acc' :: cumsum_from acc' l'
  end.

Definition cumsum (l : list float) : list float := cumsum_from (Fin 0) l.

(** [sorted_df['cumulative_cost_percent']]. *)
Definition cumulative_cost_percent (sorted_df : list krow) : list float :=
  let total_cost := nansum (List.map Cost sorted_df) in
  List.map (fun c => fmul (fdiv c total_cost) (Fin 100))
           (cumsum (List.map Cost sorted_df)).

(** [high_cost_df]: the sorted rows whose cumulative percent is at most the
    threshold.  Total, running sums and percentages are exact here; see
    [high_cost_df_with] for the selection over any other arithmetic. *)
Definition high_cost_df (df : list krow) (cost_threshold : Q) : list krow :=
  let sorted_df := sort_values_cost_desc df in
  List.map fst
    (List.filter (fun rp => fle (snd rp) (Fin cost_threshold))
                 (combine sorted_df (cumulative_cost_percent sorted_df))).

(** The same selection with the sort and the arithmetic of the machine as
    parameters: [sort_values] for [df.sort_values('Cost', ascending=False)]
    (whatever order it gives to equal costs), [series_sum] for
    [sorted_df['Cost'].sum()], [series_cumsum] for [sorted_df['Cost'].cumsum()]
    and [percent total c] for [c / total_cost * 100], each as binary64 or
    int64 computes it.  The cells themselves and the comparison with the
    threshold are exact in either arithmetic. *)
Section SelectionArithmetic.

Variable sort_values : list krow -> list krow.
Variable series_sum : list float -> float.
Variable series_cumsum : list float -> list float.
Variable percent : float -> float -> float.

Definition high_cost_df_with (df : list krow) (cost_threshold : Q)
    : list krow :=
  let sorted_df := sort_values df in
  let total_cost := series_sum (List.map Cost sorted_df) in
  List.map fst
    (List.filter
       (fun rp => fle (snd rp) (Fin cost_threshold))
       (combine sorted_df
                (List.map (percent total_cost)
                          (series_cumsum (List.map Cost sorted_df))))).

End SelectionArithmetic.

(** [Series.unique()]: first occurrences, in order. *)
Fixpoint unique (seen : list pyval) (l : list pyval) : list pyval :=
  match l with
  | [] => []
  | x :: l' =>
    if bool_decide (x ∈ seen) then unique seen l'
    else x :: unique (x :: seen) l'
  end.

(** [unique_keywords] of the selected rows. *)
Definition unique_keywords (selected : list krow) : list pyval :=
  List.filter valid_keyword (unique [] (List.map Keyword selected)).

(* ===================================================================== *)
(** ** Batches *)
(* ===================================================================== *)

(** [range(start, stop, step)]; [None] is the [ValueError] of a zero
    step. *)
Definition py_range (start stop step : Z) : option (list Z) :=
  if step =? 0 then None
  else if 0 <? step then
    Some (List.map (fun k => start + Z.of_nat k * step)
                   (seq 0 (Z.to_nat ((stop - start + step - 1) / step))))
  else
    Some (List.map (fun k => start + Z.of_nat k * step)
                   (seq 0 (Z.to_nat ((start - stop - step - 1) / (- step))))).

(** An index of a slice brought into [0, len]. *)
Definition slice_index (len i : Z) : Z :=
  if i <? 0 then Z.max (i + len) 0 else Z.min i len.

(** [l[i:j]]. *)
Definition py_slice {A} (l : list A) (i j : Z) : list A :=
  let len := Z.of_nat (length l) in
  let lo := slice_index len i in
  let hi := slice_index len j in
  firstn (Z.to_nat (hi - lo)) (skipn (Z.to_nat lo) l).

(** [batch_size = min(max_keywords_per_batch, 100)]. *)
Definition batch_size (max_keywords_per_batch : Z) : Z :=
  Z.min max_keywords_per_batch 100.

(** [batches]: the slices [unique_keywords[i:i+batch_size]]. *)
Definition batches (unique_keywords : list pyval)
    (max_keywords_per_batch : Z) : option (list (list pyval)) :=
  let bs := batch_size max_keywords_per_batch in
  match py_range 0 (Z.of_nat (length unique_keywords)) bs with
  | None => None
  | Some starts =>
    Some (List.map (fun i => py_slice unique_keywords i (i + bs)) starts)
  end.

(* ===================================================================== *)
(** ** The classification oracle and the two calls to it *)
(* ===================================================================== *)

(** One element of a classification result: the dict with keys [keyword],
    [axis_category] and [combination_category]. *)
Record assignment : Type := {
  a_keyword : pyval;
  a_axis : ustr;
  a_comb : ustr
}.

(** What a request sends to the model: the keywords written into the
    prompt, the service description, and for the clustering prompt the
    number of clusters asked for; [TestReq] is the fixed one-word request of
    the connection test the handler makes once it has found a credential. *)
Inductive request : Type :=
  | ClassifyReq (kws : list ustr) (service_description : ustr)
  | ClusterReq (kws : list ustr) (service_description : ustr)
               (cluster_count : Z)
  | TestReq.

(** What comes back, as the code tells the cases apart: an exception inside
    the [try] (network, authentication, a parsed value that is not a list of
    keyword dicts), a [JSONDecodeError] with its message and the response
    text, or the parsed list.  For the connection test only the first case
    matters: its answer is not parsed. *)
Inductive reply : Type :=
  | ApiError (e : ustr)
  | BadJson (e content : ustr)
  | Parsed (items : list assignment).

(** A component of a returned tuple. *)
Inductive retval : Type :=
  | RNone
  | RStr (s : ustr)
  | RList (l : list assignment).

(** Python truth of a returned component. *)
Definition truthy (r : retval) : bool :=
  match r with
  | RNone => false
  | RStr s => negb (ustr_eqb s [])
  | RList l => match l with [] => false | _ => true end
  end.

(** Exceptions of the handler. *)
Inductive exn : Type :=
  | UnpackError (expected got : nat)  (* ValueError: too many / not enough
                                         values to unpack *)
  | RangeStepZero                     (* ValueError: range() arg 3 must not
                                         be zero *)
  | TypeError.

Inductive res (A : Type) : Type :=
  | Ok (a : A)
  | Raise (e : exn).
Arguments Ok {A} a.
Arguments Raise {A} e.

Definition res_bind {A B} (m : res A) (k : A -> res B) : res B :=
  match m with
  | Ok a => k a
  | Raise e => Raise e
  end.

(** [x, y = t]: unpacking a tuple into exactly two names. *)
Definition unpack2 (t : list retval) : res (retval * retval) :=
  match t with
  | [x; y] => Ok (x, y)
  | _ => Raise (UnpackError 2 (length t))
  end.

(** The loop that fills [valid_keywords] and [keyword_map]. *)
Definition valid_keywords_of (keywords : list pyval) : list ustr :=
  List.map py_str (List.filter valid_keyword keywords).

Definition keyword_map_of (keywords : list pyval) : gmap ustr pyval :=
  fold_left (fun m kw =>
               if valid_keyword kw then <[py_str kw := kw]> m else m)
            keywords ∅.

(** The loop that puts the original keyword value back into an item. *)
Definition restore_keyword (keyword_map : gmap ustr pyval)
    (item : assignment) : assignment :=
  match a_keyword item with
  | PStr s =>
    match keyword_map !! s with
    | Some kw => {| a_keyword := kw; a_axis := a_axis item;
                    a_comb := a_comb item |}
    | None => item
    end
  | _ => item
  end.

Definition msg_no_api_key_categorize : ustr :=
  u "OpenAI API Keyが設定されていません。".
Definition msg_no_api_key_cluster : ustr :=
  u "APIキーが設定されていません。".
Definition msg_no_valid_keywords : ustr :=
  u "有効なキーワードがありません。".

Definition json_error_message (e content : ustr) : ustr :=
  u "JSONパースエラー: " ++ e ++ [10; 10]%N ++ u "レスポンス: " ++ content.

Section Oracle.

Variable oracle : request -> reply.

(** [categorize_keywords_with_llm(keywords, service_description, api_key,
    batch_size=100)]: the returned tuple. *)
Definition categorize_keywords_with_llm (keywords : list pyval)
    (service_description api_key : ustr) (batch_size : nat) : list retval :=
  if ustr_eqb api_key [] then [RNone; RStr msg_no_api_key_categorize]
  else
    let valid_keywords := valid_keywords_of keywords in
    let keyword_map := keyword_map_of keywords in
    match valid_keywords with
    | [] => [RList []; RStr msg_no_valid_keywords]
    | _ =>
      match oracle (ClassifyReq (firstn batch_size valid_keywords)
                                service_description) with
      | Parsed result =>
        [RList (List.map (restore_keyword keyword_map) result); RNone]
      | BadJson e content => [RNone; RStr (json_error_message e content)]
      | ApiError e => [RNone; RStr (u "API呼び出しエラー: " ++ e)]
      end
    end.

(** [cluster_keywords_with_llm(keywords, service_description, api_key,
    suggested_clusters=5)]: the returned tuple. *)
Definition cluster_keywords_with_llm (keywords : list pyval)
    (service_description api_key : ustr) (suggested_clusters : Z)
    : list retval :=
  if ustr_eqb api_key [] then [RNone; RNone; RStr msg_no_api_key_cluster]
  else
    let valid_keywords := valid_keywords_of keywords in
    let keyword_map := keyword_map_of keywords in
    match valid_keywords with
    | [] => [RList []; RStr msg_no_valid_keywords]
    | _ =>
      let cluster_count :=
        Z.min suggested_clusters
              (Z.max 2 (Z.of_nat (length valid_keywords) / 5)) in
      match oracle (ClusterReq valid_keywords service_description
                               cluster_count) with
      | Parsed result =>
        [RList (List.map (restore_keyword keyword_map) result); RNone]
      | BadJson e content => [RNone; RStr (json_error_message e content)]
      | ApiError e => [RNone; RStr (u "LLMクラスタリングエラー: " ++ e)]
      end
    end.

(** The sentinel bucket of the last fallback. *)
Definition sentinel (kw : pyval) : assignment :=
  {| a_keyword := kw; a_axis := u "未分類グループ"; a_comb := u "自動分類" |}.

(** An entry of [errors]: the batch number with the error of the first call
    and, when the second call failed too, its error. *)
Inductive diagnostic : Type :=
  | BothFailed (batch_no : nat) (error backup_error : retval)
  | Recovered (batch_no : nat) (error : retval).

(** [all_categorized.extend(x)]. *)
Definition extend (all_categorized : list assignment) (x : retval)
    : res (list assignment) :=
  match x with
  | RList l => Ok (all_categorized ++ l)
  | _ => Raise TypeError
  end.

(** The call site of the clustering fallback:
    [backup_result, backup_error = cluster_keywords_with_llm(batch, ...)]. *)
Definition fallback_call (batch : list pyval)
    (service_description api_key : ustr) : res (retval * retval) :=
  unpack2 (cluster_keywords_with_llm batch service_description api_key 5).

(** The body of the batch loop for batch number [i] (counted from 0). *)
Definition process_batch (service_description api_key : ustr) (i : nat)
    (batch : list pyval) (st : list assignment * list diagnostic)
    : res (list assignment * list diagnostic) :=
  let '(all_categorized, errors) := st in
  res_bind (unpack2 (categorize_keywords_with_llm
                       batch service_description api_key 100))
  (fun '(result, error) =>
     if truthy error then
       res_bind (fallback_call batch service_description api_key)
       (fun '(backup_result, backup_error) =>
          if truthy backup_error then
            let temp_categorized :=
              List.map sentinel (List.filter valid_keyword batch) in
            Ok (all_categorized ++ temp_categorized,
                errors ++ [BothFailed (S i) error backup_error])
          else
            res_bind (extend all_categorized backup_result)
            (fun all' => Ok (all', errors ++ [Recovered (S i) error])))
     else
       res_bind (extend all_categorized result)
       (fun all' => Ok (all', errors))).

(** The batch loop. *)
Fixpoint process_batches (service_description api_key : ustr) (i : nat)
    (bs : list (list pyval)) (st : list assignment * list diagnostic)
    : res (list assignment * list diagnostic) :=
  match bs with
  | [] => Ok st
  | batch :: bs' =>
    res_bind (process_batch service_description api_key i batch st)
             (process_batches service_description api_key (S i) bs')
  end.

End Oracle.

(* ===================================================================== *)
(** ** The join of categories onto rows *)
(* ===================================================================== *)

(** [category_map]: the dict comprehension over the rows of
    [categories_df]; a later row replaces an earlier one with the same
    keyword. *)
Definition category_map (all_categorized : list assignment)
    : gmap pyval (ustr * ustr) :=
  fold_left (fun m row => <[a_keyword row := (a_axis row, a_comb row)]> m)
            all_categorized ∅.

(** [apply_categories(keyword)]. *)
Definition apply_categories (category_map : gmap pyval (ustr * ustr))
    (keyword : pyval) : ustr * ustr :=
  match category_map !! keyword with
  | Some c => c
  | None => (u "未分類", u "未分類")
  end.

(** A row of [categorized_data]. *)
Record crow : Type := {
  base : krow;
  AxisCategory : ustr;
  CombinationCategory : ustr
}.

Definition categorize_rows (df : list krow)
    (all_categorized : list assignment) : list crow :=
  let cm := category_map all_categorized in
  List.map (fun row =>
              let c := apply_categories cm (Keyword row) in
              {| base := row; AxisCategory := fst c;
                 CombinationCategory := snd c |})
           df.

(** What pressing the categorize button leads to. *)
Inductive categorize_outcome : Type :=
  | NoApiKey
  | ConnectionFailed (e : ustr)
  | NoValidKeywords
  | Crashed (e : exn)
  | Categorized (categorized_data : list crow)
                (categories_master : list assignment)
                (errors : list diagnostic).

(** The handler of the categorize button: the credential check, the
    connection test ([st.error] and [st.stop()] when it raises), selection,
    batches, the batch loop and the join. *)
Definition categorize_button (oracle : request -> reply)
    (api_key service_description : ustr) (df : list krow)
    (cost_threshold : Q) (max_keywords_per_batch : Z) : categorize_outcome :=
  if ustr_eqb api_key [] then NoApiKey
  else
    match oracle TestReq with
    | ApiError e => ConnectionFailed e
    | _ =>
      let kws := unique_keywords (high_cost_df df cost_threshold) in
      match kws with
      | [] => NoValidKeywords
      | _ =>
        match batches kws max_keywords_per_batch with
        | None => Crashed RangeStepZero
        | Some bs =>
          match process_batches oracle service_description api_key 0 bs
                                ([], []) with
          | Raise e => Crashed e
          | Ok (all_categorized, errors) =>
            Categorized (categorize_rows df all_categorized)
                        all_categorized errors
          end
        end
      end
    end.

(* ===================================================================== *)
(** ** Category roll-ups (app.py, the analysis tab) *)
(* ===================================================================== *)

(** A table of statistics after [reset_index()]: the key columns, then the
    numeric columns, each with its label, in column order. *)
Record stats_frame : Type := {
  key_cols : list (ustr * list ustr);
  num_cols : list (ustr * list float)
}.

(** [df.columns]. *)
Definition columns (T : stats_frame) : list ustr :=
  List.map fst (key_cols T) ++ List.map fst (num_cols T).

(** [df[name]] for a numeric column; [None] is the [KeyError]. *)
Definition get_col (name : ustr) (T : stats_frame) : option (list float) :=
  snd <$> List.find (fun c => ustr_eqb (fst c) name) (num_cols T).

Fixpoint replace_col (name : ustr) (vals : list float)
    (cols : list (ustr * list float)) : list (ustr * list float) :=
  match cols with
  | [] => [(name, vals)]
  | c :: cols' =>
    if ustr_eqb (fst c) name then (name, vals) :: cols'
    else c :: replace_col name vals cols'
  end.

(** [df[name] = vals]: a new column goes last, an existing one is
    overwritten in place. *)
Definition set_col (name : ustr) (vals : list float) (T : stats_frame)
    : stats_frame :=
  {| key_cols := key_cols T; num_cols := replace_col name vals (num_cols T) |}.

(** [df.rename(columns={old: new})]. *)
Definition rename_col (old new : ustr) (T : stats_frame) : stats_frame :=
  let rn := fun {A} (c : ustr * A) =>
              if ustr_eqb (fst c) old then (new, snd c) else c in
  {| key_cols := List.map rn (key_cols T);
     num_cols := List.map rn (num_cols T) |}.

(** Element-wise operations on aligned series. *)
Definition sdiv (a b : list float) : list float := zip_with fdiv a b.
Definition smul (a : list float) (c : float) : list float :=
  List.map (fun x => fmul x c) a.
Definition sround (decimals : nat) (a : list float) : list float :=
  List.map (fround decimals) a.

(** Order of group keys: strings by code point, tuples lexicographically. *)
Fixpoint lex_compare {A} (cmp : A -> A -> comparison) (a b : list A)
    : comparison :=
  match a, b with
  | [], [] => Eq
  | [], _ :: _ => Lt
  | _ :: _, [] => Gt
  | x :: a', y :: b' =>
    match cmp x y with
    | Eq => lex_compare cmp a' b'
    | c => c
    end
  end.

Definition ustr_compare : ustr -> ustr -> comparison := lex_compare N.compare.
Definition key_compare : list ustr -> list ustr -> comparison :=
  lex_compare ustr_compare.

Fixpoint insert_key (k : list ustr) (l : list (list ustr))
    : list (list ustr) :=
  match l with
  | [] => [k]
  | k' :: l' =>
    match key_compare k k' with
    | Lt => k :: l
    | Eq => l
    | Gt => k' :: insert_key k l'
    end
  end.

(** The group keys of [groupby(by)]: the distinct key tuples, sorted.
    Every key cell is a string here; a row with a missing key cell, which
    pandas leaves out of every group ([dropna=True]), is outside the
    model. *)
Definition group_keys (by_ : list (crow -> ustr)) (df : list crow)
    : list (list ustr) :=
  fold_right insert_key [] (List.map (fun r => List.map (fun k => k r) by_) df).

(** The rows of one group. *)
Definition group_rows (by_ : list (crow -> ustr)) (df : list crow)
    (g : list ustr) : list crow :=
  List.filter (fun r => bool_decide (List.map (fun k => k r) by_ = g)) df.

(** ['count']: the cells that are not null. *)
Definition count_keyword (rows : list crow) : float :=
  Fin (inject_Z (Z.of_nat
    (length (List.filter (fun r => negb (bool_decide (Keyword (base r) = PNone)))
                         rows)))).

(** [groupby(by).agg({'Keyword': 'count', 'Impressions': 'sum', 'Clicks':
    'sum', 'Cost': 'sum', 'Conversions': 'sum'}).reset_index()]. *)
Definition groupby_agg (by_ : list (ustr * (crow -> ustr))) (df : list crow)
    : stats_frame :=
  let fs := List.map snd by_ in
  let gs := group_keys fs df in
  let per := fun (f : list crow -> float) =>
               List.map (fun g => f (group_rows fs df g)) gs in
  let total := fun (field : krow -> float) (rows : list crow) =>
                 nansum (List.map (fun r => field (base r)) rows) in
  {| key_cols :=
       imap (fun n kc => (fst kc, List.map (fun g => nth n g []) gs)) by_;
     num_cols :=
       [ (u "Keyword", per count_keyword);
         (u "Impressions", per (total Impressions));
         (u "Clicks", per (total Clicks));
         (u "Cost", per (total Cost));
         (u "Conversions", per (total Conversions)) ] |}.

(** The block that follows every aggregation: four ratio columns computed
    from the columns of the aggregated table, then the count column is
    relabelled. *)
Definition add_ratios (T : stats_frame) : option stats_frame :=
  clicks ← get_col (u "Clicks") T;
  impressions ← get_col (u "Impressions") T;
  let T := set_col (u "CTR")
             (sround 2 (smul (sdiv clicks impressions) (Fin 100))) T in
  conversions ← get_col (u "Conversions") T;
  clicks ← get_col (u "Clicks") T;
  let T := set_col (u "CVR")
             (sround 2 (smul (sdiv conversions clicks) (Fin 100))) T in
  cost ← get_col (u "Cost") T;
  clicks ← get_col (u "Clicks") T;
  let T := set_col (u "CPC") (sround 0 (sdiv cost clicks)) T in
  cost ← get_col (u "Cost") T;
  conversions ← get_col (u "Conversions") T;
  let T := set_col (u "CPA") (sround 0 (sdiv cost conversions)) T in
  Some (rename_col (u "Keyword") (u "キーワード数") T).

Definition rollup (by_ : list (ustr * (crow -> ustr))) (df : list crow)
    : option stats_frame :=
  add_ratios (groupby_agg by_ df).

Definition by_axis : list (ustr * (crow -> ustr)) :=
  [(u "AxisCategory", AxisCategory)].
Definition by_combination : list (ustr * (crow -> ustr)) :=
  [(u "CombinationCategory", CombinationCategory)].
Definition by_cross : list (ustr * (crow -> ustr)) :=
  [(u "AxisCategory", AxisCategory);
   (u "CombinationCategory", CombinationCategory)].
Definition by_match_type : list (ustr * (crow -> ustr)) :=
  [(u "MatchType", fun r => MatchType (base r))].
Definition by_axis_match_type : list (ustr * (crow -> ustr)) :=
  [(u "AxisCategory", AxisCategory);
   (u "MatchType", fun r => MatchType (base r))].

(** The five tables of [st.session_state.category_stats]. *)
Definition axis_stats := rollup by_axis.
Definition combination_stats := rollup by_combination.
Definition cross_stats := rollup by_cross.
Definition match_type_stats := rollup by_match_type.
Definition axis_match_type_stats := rollup by_axis_match_type.

(** The groupings, by the name of the table each produces. *)
Definition all_rollups : list (list (ustr * (crow -> ustr))) :=
  [by_axis; by_combination; by_cross; by_match_type; by_axis_match_type].

(* ===================================================================== *)
(** ** Field resolution by rules *)
(* ===================================================================== *)

(** [difflib.SequenceMatcher(None, a, b)] without junk (no [isjunk], and
    the automatic junk heuristic needs a second sequence of 200 elements or
    more, which no entry of the tables is). *)
Module SequenceMatcher.

(** One row of [j2len]: for each [j], the length of the longest common
    block that ends with [x] in [a] and [b[j]] in [b]; [shifted] is the
    previous row moved one place to the right. *)
Fixpoint next_row (x : N) (b : ustr) (shifted : list nat) : list nat :=
  match b, shifted with
  | bj :: b', p :: shifted' =>
    (if (bj =? x)%N then S p else O) :: next_row x b' shifted'
  | _, _ => []
  end.

(** The update of [besti, bestj, bestsize] over one row, [j] rising. *)
Fixpoint scan_row (i j : nat) (row : list nat) (best : nat * nat * nat)
    : nat * nat * nat :=
  match row with
  | [] => best
  | k :: row' =>
    let best' :=
      if (snd best <? k)%nat then ((S i - k)%nat, (S j - k)%nat, k)
      else best in
    scan_row i (S j) row' best'
  end.

Fixpoint flm_loop (a b : ustr) (i : nat) (prev : list nat)
    (best : nat * nat * nat) : nat * nat * nat :=
  match a with
  | [] => best
  | x :: a' =>
    let row := next_row x b (O :: prev) in
    flm_loop a' b (S i) row (scan_row i 0 row best)
  end.

(** [find_longest_match] over the whole of [a] and [b]: [(i, j, k)] with
    [a[i:i+k] == b[j:j+k]], [k] largest, then [i] least, then [j] least. *)
Definition find_longest_match (a b : ustr) : nat * nat * nat :=
  flm_loop a b 0 (repeat O (length b)) (O, O, O).

(** The number of matched elements over [get_matching_blocks()]: the
    longest block, then the same to its left and to its right. *)
Fixpoint matches (fuel : nat) (a b : ustr) : nat :=
  match fuel with
  | O => O
  | S fuel' =>
    let '(i, j, k) := find_longest_match a b in
    match k with
    | O => O
    | S _ =>
      (k + matches fuel' (firstn i a) (firstn j b)
         + matches fuel' (skipn (i + k) a) (skipn (j + k) b))%nat
    end
  end.

(** [ratio()]: [2.0 * matches / (len(a) + len(b))], and 1.0 for two empty
    sequences. *)
Definition ratio (a b : ustr) : Q :=
  let total := (length a + length b)%nat in
  match total with
  | O => 1%Q
  | S _ =>
    (inject_Z (2 * Z.of_nat (matches (length a) a b))
     / inject_Z (Z.of_nat total))%Q
  end.

End SequenceMatcher.

(** [STANDARD_FIELDS] of app.py. *)
Definition STANDARD_FIELDS : list (ustr * list ustr) :=
  [ (u "Keyword",
     [u "キーワード"; u "keywords"; u "search term"; u "検索語句"; u "query";
      u "kw"; u "キーワードテキスト"]);
    (u "MatchType",
     [u "マッチタイプ"; u "match type"; u "match"; u "matching"; u "タイプ";
      u "一致タイプ"; u "一致キーワード"; u "マッチングタイプ"]);
    (u "Impressions",
     [u "imp"; u "imps"; u "impression"; u "インプレッション"; u "表示回数";
      u "表示数"; u "露出数"; u "インプレッション数"]);
    (u "Clicks",
     [u "click"; u "クリック"; u "クリック数"; u "クリック回数";
      u "click count"; u "clicks"]);
    (u "Cost",
     [u "コスト"; u "cost"; u "費用"; u "金額"; u "spend"; u "支出";
      u "消化金額"; u "消化額"]);
    (u "Conversions",
     [u "conversion"; u "conv"; u "コンバージョン"; u "成約"; u "cv"; u "CVs";
      u "獲得数"; u "コンバージョン数"; u "コンバ数"; u "GACV"]);
    (u "CampaignName",
     [u "キャンペーン名"; u "campaign"; u "キャンペーン"; u "campaign name";
      u "キャンペーンネーム"; u "cp"; u "campname"]);
    (u "AdGroupName",
     [u "広告グループ名"; u "adgroup"; u "ad group"; u "広告グループ";
      u "group name"; u "グループ名"; u "adgroupname"; u "ag"]) ].

(** [REQUIRED_FIELDS] (the same list in both files). *)
Definition REQUIRED_FIELDS : list ustr :=
  [u "Keyword"; u "MatchType"; u "Impressions"; u "Clicks"; u "Cost";
   u "Conversions"].

Definition unknown : ustr := u "unknown".

Section Resolver.

(** [str.lower()]. *)
Variable lower : ustr -> ustr.

(** The table the function iterates over ([STANDARD_FIELDS.items()]). *)
Variable table : list (ustr * list ustr).

(** The first loop over the table: for each field in turn, equality with
    the field name, then the aliases as substrings; the first field that
    matches ends the loop. *)
Fixpoint rule_match (col_lower : ustr) (fields : list (ustr * list ustr))
    : option ustr :=
  match fields with
  | [] => None
  | (std_field, alternatives) :: rest =>
    if ustr_eqb col_lower (lower std_field) then Some std_field
    else if existsb (fun alt => contains (lower alt) col_lower) alternatives
    then Some std_field
    else rule_match col_lower rest
  end.

(** [score > best_score].  The scores are quotients [2 * m / t] of small
    integers and the threshold is the literal 0.7: two such values that
    differ as rationals differ by far more than the spacing of binary64, and
    7/10 itself rounds to the float the literal denotes, so the comparison
    of the floats is the comparison of the rationals. *)
Definition score_gt (score best_score : Q) : bool :=
  negb (Qle_bool score best_score).

(** One comparison of the second loop. *)
Definition fuzzy_update (col_lower std_field candidate : ustr)
    (st : option ustr * Q) : option ustr * Q :=
  let score := SequenceMatcher.ratio col_lower (lower candidate) in
  if score_gt score (snd st) then (Some std_field, score) else st.

(** The second loop: the running best over every field name and alias,
    starting from the threshold. *)
Definition fuzzy_match (col_lower : ustr) : option ustr * Q :=
  fold_left
    (fun st '(std_field, alternatives) =>
       fold_left (fun st alt => fuzzy_update col_lower std_field alt st)
                 alternatives
                 (fuzzy_update col_lower std_field std_field st))
    table (None, 7 # 10).

(** The value stored in [mapping[col]]. *)
Definition suggest_one (col : ustr) : ustr :=
  let col_lower := lower col in
  match rule_match col_lower table with
  | Some std_field => std_field
  | None =>
    match fst (fuzzy_match col_lower) with
    | Some best_match =>
      if ustr_eqb best_match [] then unknown else best_match
    | None => unknown
    end
  end.

(** [suggest_column_mapping_with_rules(df_columns)]. *)
Definition suggest_column_mapping_with_rules (df_columns : list ustr)
    : gmap ustr ustr :=
  fold_left (fun mapping col => <[col := suggest_one col]> mapping)
            df_columns ∅.

(** *** The resolver as the specification words it

    Exact match on a field name over all fields, then substring match on
    the aliases over all fields, then the best fuzzy candidate if it is
    above the threshold, else Unknown. *)

Definition spec_exact (col_lower : ustr) : option ustr :=
  fst <$> List.find (fun f => ustr_eqb col_lower (lower (fst f))) table.

Definition spec_alias (col_lower : ustr) : option ustr :=
  fst <$> List.find
            (fun f => existsb (fun alt => contains (lower alt) col_lower)
                              (snd f))
            table.

(** Every field name and alias with its score, in enumeration order. *)
Definition spec_candidates (col_lower : ustr) : list (ustr * Q) :=
  flat_map
    (fun f =>
       List.map (fun c => (fst f, SequenceMatcher.ratio col_lower (lower c)))
                (fst f :: snd f))
    table.

(** The best-scoring candidate, the first one among equals. *)
Fixpoint spec_best (cands : list (ustr * Q)) : option (ustr * Q) :=
  match cands with
  | [] => None
  | c :: rest =>
    match spec_best rest with
    | Some b => if Qle_bool (snd b) (snd c) then Some c else Some b
    | None => Some c
    end
  end.

Definition spec_resolve (col : ustr) : ustr :=
  let col_lower := lower col in
  match spec_exact col_lower with
  | Some f => f
  | None =>
    match spec_alias col_lower with
    | Some f => f
    | None =>
      match spec_best (spec_candidates col_lower) with
      | Some (f, score) => if score_gt score (7 # 10) then f else unknown
      | None => unknown
      end
    end
  end.

End Resolver.

(** [str.lower()] on strings of ASCII and caseless characters. *)
Definition ascii_lower (s : ustr) : ustr := List.map lower_cp s.

(** [STANDARD_FIELDS] of column_mapper.py. *)
Module ColumnMapper.

Definition STANDARD_FIELDS : list (ustr * list ustr) :=
  [ (u "Keyword",
     [u "キーワード"; u "keywords"; u "search term"; u "検索語句"; u "query"]);
    (u "MatchType",
     [u "マッチタイプ"; u "match type"; u "match"; u "matching"; u "タイプ";
      u "一致タイプ"]);
    (u "Impressions",
     [u "imp"; u "imps"; u "impression"; u "インプレッション"; u "表示回数";
      u "表示数"; u "露出数"]);
    (u "Clicks",
     [u "click"; u "クリック"; u "クリック数"; u "クリック回数";
      u "click count"]);
    (u "Cost", [u "コスト"; u "cost"; u "費用"; u "金額"; u "spend"; u "支出"]);
    (u "Conversions",
     [u "conversion"; u "conv"; u "コンバージョン"; u "成約"; u "cv"; u "CVs";
      u "GACV"]);
    (u "CampaignName",
     [u "キャンペーン名"; u "campaign"; u "キャンペーン"; u "campaign name";
      u "キャンペーンネーム"]);
    (u "AdGroupName",
     [u "広告グループ名"; u "adgroup"; u "ad group"; u "広告グループ";
      u "group name"; u "グループ名"]) ].

End ColumnMapper.

(* ===================================================================== *)
(** ** Applying the confirmed column mapping
       ([create_column_mapping_ui], the block under the apply button) *)
(* ===================================================================== *)

(** A Python dict with string keys, in insertion order. *)
Definition dict (V : Type) : Type := list (ustr * V).

Fixpoint dict_set {V} (k : ustr) (v : V) (d : dict V) : dict V :=
  match d with
  | [] => [(k, v)]
  | (k', v') :: d' =>
    if ustr_eqb k' k then (k, v) :: d' else (k', v') :: dict_set k v d'
  end.

Definition dict_get {V} (k : ustr) (d : dict V) : option V :=
  snd <$> List.find (fun kv => ustr_eqb (fst kv) k) d.

(** [k in d]. *)
Definition dict_mem {V} (k : ustr) (d : dict V) : bool :=
  existsb (fun kv => ustr_eqb (fst kv) k) d.

(** An uploaded frame: its columns, each with its label. *)
Definition data_frame : Type := list (ustr * column).

(** [df.rename(columns=m)]. *)
Definition rename_columns (m : dict ustr) (df : data_frame) : data_frame :=
  List.map (fun c => (default (fst c) (dict_get (fst c) m), snd c)) df.

(** What the page shows. *)
Inductive ui_message : Type :=
  | StError (text : ustr)
  | StSuccess (text : ustr).

Definition placeholder_required : ustr := u "--選択してください--".
Definition placeholder_recommended : ustr := u "--なし--".
Definition msg_required_missing : ustr :=
  u "以下の必須フィールドが選択されていません: ".
Definition msg_mapping_done : ustr :=
  u "列名のマッピングが完了しました！".

Section MappingUI.

(** The table of the file the function lives in. *)
Variable table : list (ustr * list ustr).

(** The option each select box returns: the operator's choice. *)
Variable choose_required : ustr -> ustr.
Variable choose_recommended : ustr -> ustr.

Definition mapping_inputs_required : dict ustr :=
  fold_left (fun d field => dict_set field (choose_required field) d)
            REQUIRED_FIELDS [].

Definition recommended_fields : list ustr :=
  List.filter (fun f => negb (bool_decide (f ∈ REQUIRED_FIELDS)))
              (List.map fst table).

Definition mapping_inputs_recommended : dict ustr :=
  fold_left (fun d field => dict_set field (choose_recommended field) d)
            recommended_fields [].

(** [selected_mapping]: the two loops that skip the placeholders. *)
Definition selected_mapping : dict ustr :=
  let after_required :=
    fold_left (fun d '(field, selected) =>
                 if negb (ustr_eqb selected placeholder_required)
                 then dict_set field selected d else d)
              mapping_inputs_required [] in
  fold_left (fun d '(field, selected) =>
               if negb (ustr_eqb selected placeholder_recommended)
               then dict_set field selected d else d)
            mapping_inputs_recommended after_required.

(** [missing]: the required fields that are not keys of
    [selected_mapping]. *)
Definition missing : list ustr :=
  List.filter (fun field => negb (dict_mem field selected_mapping))
              REQUIRED_FIELDS.

(** [{selected_mapping[k]: k for k in selected_mapping}]. *)
Definition inverse_mapping : dict ustr :=
  fold_left (fun d '(k, v) => dict_set v k d) selected_mapping [].

(** The block under [if apply_mapping:] in app.py, and the final
    [return None, None]: what is shown, and the returned pair ([None] for
    [(None, None)]). *)
Definition apply_column_mapping (df : data_frame) (apply_mapping : bool)
    : list ui_message * option (data_frame * dict ustr) :=
  if apply_mapping then
    match missing with
    | _ :: _ =>
      ([StError (msg_required_missing ++ str_join (u ", ") missing)], None)
    | [] =>
      ([StSuccess msg_mapping_done],
       Some (rename_columns inverse_mapping df, selected_mapping))
    end
  else ([], None).

(** [mapped_df[required_cols]] of column_mapper.py: the columns with the
    listed labels, in that order; [None] is the [KeyError] of an absent
    label. *)
Fixpoint select_columns (labels : list ustr) (df : data_frame)
    : option data_frame :=
  match labels with
  | [] => Some []
  | l :: labels' =>
    match List.filter (fun c => ustr_eqb (fst c) l) df with
    | [] => None
    | cs => (fun rest => cs ++ rest) <$> select_columns labels' df
    end
  end.

(** The same block in column_mapper.py: shown messages, and the returned
    frame; the outer [None] is an exception, the inner one the value
    [None]. *)
Definition apply_column_mapping_cm (df : data_frame) (apply_mapping : bool)
    : list ui_message * option (option data_frame) :=
  if apply_mapping then
    match missing with
    | _ :: _ =>
      ([StError (msg_required_missing ++ str_join (u ", ") missing)], Some None)
    | [] =>
      match select_columns (List.map fst selected_mapping)
                           (rename_columns inverse_mapping df) with
      | Some mapped_df => ([StSuccess msg_mapping_done], Some (Some mapped_df))
      | None => ([], None)
      end
    end
  else ([], Some None).

End MappingUI.

(* ===================================================================== *)
(** ** Vocabulary of the statements, and the running examples *)
(* ===================================================================== *)

(** The labels every roll-up carries after its key columns. *)
Definition ratio_columns : list ustr :=
  [u "キーワード数"; u "Impressions"; u "Clicks"; u "Cost"; u "Conversions";
   u "CTR"; u "CVR"; u "CPC"; u "CPA"].

(** The sum of one base field over the rows of a group. *)
Definition group_total (by_ : list (ustr * (crow -> ustr))) (df : list crow)
    (field : krow -> float) (g : list ustr) : float :=
  nansum (List.map (fun r => field (base r))
                   (group_rows (List.map snd by_) df g)).

(** The pair a row gets when its keyword has no assignment. *)
Definition default_categories : ustr * ustr := (u "未分類", u "未分類").

(** The assignment that was appended last for a keyword. *)
Definition last_assignment (all_categorized : list assignment) (kw : pyval)
    : option assignment :=
  List.find (fun a => bool_decide (a_keyword a = kw)) (rev all_categorized).

(** The oracle did not deliver a parsed list. *)
Definition fails (r : reply) : bool :=
  match r with
  | Parsed _ => false
  | _ => true
  end.

(** The two requests the calls of a batch send. *)
Definition classify_request (service_description : ustr)
    (batch : list pyval) : request :=
  ClassifyReq (firstn 100 (valid_keywords_of batch)) service_description.

Definition cluster_request (service_description : ustr)
    (batch : list pyval) : request :=
  ClusterReq (valid_keywords_of batch) service_description
             (Z.min 5 (Z.max 2 (Z.of_nat (length (valid_keywords_of batch))
                                / 5))).

(** The select box of a required field was left on its placeholder. *)
Definition unselected (choose_required : ustr -> ustr) (field : ustr) : bool :=
  ustr_eqb (choose_required field) placeholder_required.

(** One comparison of the fuzzy loop, on a scored candidate. *)
Definition fuzzy_step (st : option ustr * Q) (c : ustr * Q)
    : option ustr * Q :=
  if score_gt (snd c) (snd st) then (Some (fst c), snd c) else st.

(** Every field name and alias of a table. *)
Definition table_strings (fields : list (ustr * list ustr)) : list ustr :=
  flat_map (fun f => fst f :: snd f) fields.

(** The tables of the two files. *)
Definition tables : list (list (ustr * list ustr)) :=
  [STANDARD_FIELDS; ColumnMapper.STANDARD_FIELDS].

Section TableChecks.

Variable lower : ustr -> ustr.

(** No alias of a field occurs inside the name of a later field: trying the
    aliases of a field before the names of the later fields then cannot
    pre-empt an exact match. *)
Fixpoint shadow_free (fields : list (ustr * list ustr)) : bool :=
  match fields with
  | [] => true
  | f :: rest =>
    forallb (fun f' =>
               forallb (fun alt => negb (contains (lower alt) (lower (fst f'))))
                       (snd f))
            rest
    && shadow_free rest
  end.

(** The lower-cased field names are pairwise distinct, and no field name is
    empty. *)
Definition names_ok (fields : list (ustr * list ustr)) : bool :=
  bool_decide (NoDup (List.map (fun f => lower (fst f)) fields))
  && forallb (fun f => negb (ustr_eqb (fst f) [])) fields.

End TableChecks.

(** Three rows with costs 100, 50 and 10. *)
Definition example_row (name : string) (cost : Q) : krow :=
  {| Keyword := PStr (u name); MatchType := u "exact";
     Impressions := Fin 1000; Clicks := Fin 10; Cost := Fin cost;
     Conversions := Fin 1;
     CTR := Fin 1; CVR := Fin 10; CPC := Fin (cost / 10); CPA := Fin cost;
     CPM := Fin cost |}.

Definition row1 : krow := example_row "row 1" 100.
Definition row2 : krow := example_row "row 2" 50.
Definition row3 : krow := example_row "row 3" 10.

(** A mapped frame with formatted text, a zero divisor, an unparseable cell
    and a negative cost. *)
Definition example_frame : mapped_frame :=
  {| mKeyword := [PStr (u "shoes"); PStr (u "boots")];
     mMatchType := [u "exact"; u "phrase"];
     mImpressions := ObjCol [u "1,000"; u "0"];
     mClicks := NumCol [Fin 0; Fin 3];
     mCost := NumCol [Fin (-5); Fin 10];
     mConversions := ObjCol [u "2"; u "n/a"] |}.

(** Three keywords, two of them classified into the same axis category. *)
Definition example_keyword_rows : list krow :=
  derive_metrics example_to_numeric
    {| mKeyword := [PStr (u "red shoes"); PStr (u "blue shoes");
                    PStr (u "boots")];
       mMatchType := [u "exact"; u "phrase"; u "exact"];
       mImpressions := NumCol [Fin 1000; Fin 3000; Fin 500];
       mClicks := NumCol [Fin 100; Fin 30; Fin 5];
       mCost := NumCol [Fin 5000; Fin 3000; Fin 400];
       mConversions := NumCol [Fin 10; Fin 0; Fin 1] |}.

Definition example_assignments : list assignment :=
  [ {| a_keyword := PStr (u "red shoes"); a_axis := u "shoes";
       a_comb := u "colour" |};
    {| a_keyword := PStr (u "blue shoes"); a_axis := u "shoes";
       a_comb := u "colour" |} ].

Definition example_categorized : list crow :=
  categorize_rows example_keyword_rows example_assignments.

(** An operator who selects a column for every required field but Cost, and
    none for the recommended ones. *)
Definition choose_all_but_cost (field : ustr) : ustr :=
  if ustr_eqb field (u "Cost") then placeholder_required
  else u "col " ++ field.

Definition choose_none (field : ustr) : ustr := placeholder_recommended.

(** An oracle whose every call raises. *)
Definition oracle_down (req : request) : reply := ApiError (u "timeout").

(** An oracle that answers the connection test and raises on every request
    of a batch. *)
Definition oracle_batches_down (req : request) : reply :=
  match req with
  | TestReq => BadJson [] (u "OK")
  | _ => ApiError (u "timeout")
  end.

(* ===================================================================== *)
(** ** The select boxes of the mapping page
       ([create_column_mapping_ui], the part above the apply button) *)
(* ===================================================================== *)

(** [[col for col, mapped in final_mapping.items() if mapped == field]]. *)
Definition mapped_columns (final_mapping : dict ustr) (field : ustr)
    : list ustr :=
  List.map fst (List.filter (fun cm => ustr_eqb (snd cm) field) final_mapping).

(** [l.index(x)]; [None] is the [ValueError] of an absent element. *)
Fixpoint list_index (x : ustr) (l : list ustr) : option nat :=
  match l with
  | [] => None
  | y :: l' => if ustr_eqb y x then Some 0%nat else S <$> list_index x l'
  end.

(** [df.columns.tolist().index(first) if first in df.columns else 0]. *)
Definition default_idx (first : ustr) (df_columns : list ustr) : option nat :=
  if bool_decide (first ∈ df_columns) then list_index first df_columns
  else Some 0%nat.

(** What [st.selectbox(options=..., index=...)] returns while the operator
    has not touched it; [None] is the exception raised for an index past the
    options. *)
Definition selectbox (options : list ustr) (index : nat) : option ustr :=
  options !! index.

(** The select box of one field as the page first shows it: on the first
    column listed for the field, or on the placeholder. *)
Definition default_choice (placeholder : ustr) (final_mapping : dict ustr)
    (df_columns : list ustr) (field : ustr) : option ustr :=
  match mapped_columns final_mapping field with
  | first :: _ =>
    match default_idx first df_columns with
    | Some idx => selectbox (placeholder :: df_columns) (idx + 1)
    | None => None
    end
  | [] => selectbox (placeholder :: df_columns) 0
  end.

(** [missing_fields]: the required fields no column was detected for. *)
Definition missing_fields (final_mapping : dict ustr) : list ustr :=
  List.filter (fun field => match mapped_columns final_mapping field with
                            | [] => true
                            | _ :: _ => false
                            end) REQUIRED_FIELDS.

Section Suggestion.

Variable lower : ustr -> ustr.
Variable table : list (ustr * list ustr).

(** [rule_mapping.items()]: the rule mapping in insertion order. *)
Definition rule_mapping_items (df_columns : list ustr) : dict ustr :=
  fold_left
    (fun mapping col => dict_set col (suggest_one lower table col) mapping)
    df_columns [].

(** [final_mapping = llm_mapping if llm_mapping else rule_mapping], for a
    reply that is a JSON object of strings: [None] and the empty object are
    falsy. *)
Definition final_mapping (llm_mapping : option (dict ustr))
    (df_columns : list ustr) : dict ustr :=
  match llm_mapping with
  | Some (entry :: entries) => entry :: entries
  | _ => rule_mapping_items df_columns
  end.

End Suggestion.

(* ===================================================================== *)
(** ** Vocabulary of the further properties, and their examples *)
(* ===================================================================== *)

(** One cell of the cumulative-percent column. *)
Definition percent_of (total_cost c : float) : float :=
  fmul (fdiv c total_cost) (Fin 100).

(** One step of [Series.sum()]. *)
Definition sum_step (acc x : float) : float :=
  if is_nan x then acc else fadd acc x.

(** The shape of what the two calls return when a credential is set: two
    components, and a list as the first whenever the second is falsy. *)
Definition well_formed_pair (t : list retval) : Prop :=
  exists result error,
    t = [result; error]
    /\ (truthy error = false -> exists l, result = RList l).

(** NaN, or a finite value that is zero or positive. *)
Definition nan_or_nonneg (f : float) : bool := is_nan f || is_nonneg f.

(** NaN, or a whole number. *)
Definition nan_or_whole (f : float) : Prop :=
  f = NaN \/ exists z : Z, f = Fin (inject_Z z).

(** NaN, or a finite value of at most [bound]. *)
Definition nan_or_at_most (bound : Q) (f : float) : bool :=
  is_nan f || fle f (Fin bound).

(** An uploaded sheet with Japanese headers, among them one the resolver
    does not know. *)
Definition example_upload : data_frame :=
  [ (u "検索語句", ObjCol [u "靴"]);
    (u "マッチタイプ", ObjCol [u "完全一致"]);
    (u "表示回数", NumCol [Fin 1000]);
    (u "クリック数", NumCol [Fin 10]);
    (u "費用", ObjCol [u "¥1,200"]);
    (u "成約", NumCol [Fin 1]);
    (u "日付", ObjCol [u "2025-03-08"]) ].

(** An operator who leaves every required select box as the page first
    shows it. *)
Definition choose_detected (field : ustr) : ustr :=
  default placeholder_required
    (default_choice placeholder_required
       (final_mapping ascii_lower STANDARD_FIELDS None
                      (List.map fst example_upload))
       (List.map fst example_upload) field).

(** An operator who picks the cost column for Conversions as well. *)
Definition choose_cost_twice (field : ustr) : ustr :=
  if ustr_eqb field (u "Conversions") then choose_detected (u "Cost")
  else choose_detected field.

(** A row of counts before the metrics are derived. *)
Definition example_counts : coerced_row :=
  {| cKeyword := PStr (u "shoes"); cMatchType := u "exact";
     cImpressions := Fin 1000; cClicks := Fin 30; cCost := Fin 1250;
     cConversions := Fin 0 |}.

(** A row that cost nothing. *)
Definition free_row : krow := example_row "free" 0.

(** The item of the example replies. *)
Definition example_item : assignment :=
  {| a_keyword := PStr (u "42"); a_axis := u "shoes"; a_comb := u "size" |}.

(** An oracle that answers every request with one item. *)
Definition oracle_one_item (req : request) : reply := Parsed [example_item].

(** An oracle whose classification is not JSON and whose clustering
    answers. *)
Definition oracle_cluster_only (req : request) : reply :=
  match req with
  | ClassifyReq _ _ => BadJson (u "Expecting value") (u "Sorry")
  | ClusterReq _ _ _ => Parsed [example_item]
  | TestReq => BadJson [] (u "OK")
  end.

(* ===================================================================== *)
(** * Properties *)
(* ===================================================================== *)

(** ** Lists, strings and floats *)

Section ListFacts.
Context {A : Type}.

Lemma take_plus_drop (l : list A) (a b : nat) :
  take (a + b) l = take a l ++ take b (drop a l).
Proof.
  revert l. induction a as [|a IH]; intros [|x l]; simpl; try done.
  - by rewrite take_nil.
  - by rewrite IH.
Qed.

Lemma concat_chunks (l : list A) (sz cnt : nat) :
  concat (List.map (fun k => take sz (drop (k * sz) l)) (seq 0 cnt))
  = take (cnt * sz) l.
Proof.
  induction cnt as [|cnt IH].
  - done.
  - rewrite seq_S, List.map_app, concat_app, IH. simpl.
    rewrite app_nil_r, <- take_plus_drop. f_equal. lia.
Qed.

Lemma elem_of_concat (x : A) (ls : list (list A)) :
  x ∈ concat ls <-> exists l, x ∈ l /\ l ∈ ls.
Proof.
  rewrite list_elem_of_In, in_concat. split.
  - intros (l & Hl & Hx). exists l. by rewrite !list_elem_of_In.
  - intros (l & Hx & Hl). exists l. by rewrite <- !list_elem_of_In.
Qed.

Lemma NoDup_concat_unique (bs : list (list A)) (x : A) (i j : nat)
    (b b' : list A) :
  NoDup (concat bs) -> bs !! i = Some b -> bs !! j = Some b' ->
  x ∈ b -> x ∈ b' -> i = j.
Proof.
  revert i j. induction bs as [|c bs IH]; intros i j Hnd Hi Hj Hx Hx'.
  - done.
  - simpl in Hnd. apply NoDup_app in Hnd as (Hc & Hdis & Hrest).
    destruct i as [|i], j as [|j]; simpl in *; simplify_eq.
    + done.
    + exfalso. apply (Hdis x Hx). apply elem_of_concat.
      exists b'. split; [done|]. by eapply list_elem_of_lookup_2.
    + exfalso. apply (Hdis x Hx'). apply elem_of_concat.
      exists b. split; [done|]. by eapply list_elem_of_lookup_2.
    + f_equal. eauto.
Qed.

Lemma forallb_ext_in (f g : A -> bool) (l : list A) :
  (forall x, In x l -> f x = g x) -> forallb f l = forallb g l.
Proof.
  induction l as [|x l IH]; intros H; [done|]. simpl.
  rewrite (H x) by (by left). rewrite IH; [done|].
  intros y Hy. apply H. by right.
Qed.

End ListFacts.

Lemma ustr_eqb_eq (a b : ustr) : ustr_eqb a b = true <-> a = b.
Proof. unfold ustr_eqb. apply bool_decide_eq_true. Qed.

Lemma ustr_eqb_refl (a : ustr) : ustr_eqb a a = true.
Proof. by apply ustr_eqb_eq. Qed.

Lemma ustr_eqb_nil_false (s : ustr) : s <> [] -> ustr_eqb s [] = false.
Proof. intros H. unfold ustr_eqb. by apply bool_decide_eq_false_2. Qed.

Lemma Qsign_Qeq (a b : Q) : (a == b)%Q -> Qsign a = Qsign b.
Proof.
  unfold Qeq, Qsign. destruct a as [na da], b as [nb db]. simpl. intros H.
  destruct (Z.compare_spec na 0), (Z.compare_spec nb 0); try reflexivity; nia.
Qed.

Lemma Qsign_Qred (a : Q) : Qsign (Qred a) = Qsign a.
Proof. apply Qsign_Qeq, Qred_correct. Qed.

Lemma fadd_zero_l (c : Q) : fadd (Fin 0) (Fin c) = Fin (Qred c).
Proof. simpl. f_equal. apply Qred_complete. ring. Qed.

Lemma fdiv_Qred_l (c : Q) (y : float) : fdiv (Fin (Qred c)) y = fdiv (Fin c) y.
Proof.
  destruct y as [y| | |]; simpl; try reflexivity.
  rewrite Qsign_Qred. destruct (Qsign y); try reflexivity;
    f_equal; apply Qred_complete; by rewrite Qred_correct.
Qed.

Lemma fdiv_nan_r (a : float) : fdiv a NaN = NaN.
Proof. by destruct a. Qed.

Lemma fdiv_zero_r (a b : float) :
  is_zero b = true -> is_fin (fdiv a b) = false.
Proof.
  destruct b as [y| | |]; try done. simpl.
  destruct (Qsign y) eqn:Hy; try done. intros _.
  destruct a as [x| | |]; simpl; rewrite ?Hy; try done.
  by destruct (Qsign x).
Qed.

Lemma zero_or_nan_div (a b : float) :
  is_zero b || is_nan b = true -> is_fin (fdiv a b) = false.
Proof.
  intros H. apply orb_true_iff in H as [H|H].
  - by apply fdiv_zero_r.
  - destruct b; try done. by rewrite fdiv_nan_r.
Qed.

Lemma replace_inf_not_inf (f : float) : is_inf (replace_inf f) = false.
Proof. by destruct f. Qed.

(** ** Metric derivation *)

Lemma ratio_undefined (a b k : float) (d : nat) :
  is_fin (fdiv a b) = false -> is_fin k = true ->
  replace_inf (fround d (fmul (fdiv a b) k)) = NaN.
Proof.
  destruct (fdiv a b) as [q| | |]; try done; intros _;
    destruct k as [x| | |]; try done; intros _; simpl;
    by destruct (Qsign x).
Qed.

Lemma ratio_undefined' (a b : float) (d : nat) :
  is_fin (fdiv a b) = false ->
  replace_inf (fround d (fdiv a b)) = NaN.
Proof. by destruct (fdiv a b). Qed.

Lemma zero_clicks_ctr (clk imp : float) :
  is_zero clk = true -> is_pos imp = true ->
  replace_inf (fround 2 (fmul (fdiv clk imp) (Fin 100))) = Fin 0.
Proof.
  destruct clk as [x| | |]; try done. destruct imp as [y| | |]; try done.
  simpl. destruct (Qsign x) eqn:Hx; try done.
  destruct (Qsign y) eqn:Hy; try done.
  intros _ _.
  assert (Hz : Qred (x / y) = 0%Q).
  { change 0%Q with (Qred 0). apply Qred_complete.
    assert (x == 0)%Q as ->; [|by unfold Qdiv; rewrite Qmult_0_l].
    unfold Qsign in Hx. apply Z.compare_eq in Hx.
    destruct x as [nx dx]. simpl in Hx. subst. reflexivity. }
  rewrite Hz. reflexivity.
Qed.

Lemma nan_num (a b k : float) (d : nat) :
  is_nan a = true -> replace_inf (fround d (fmul (fdiv a b) k)) = NaN.
Proof. by destruct a, b, k. Qed.

Lemma nan_num' (a b : float) (d : nat) :
  is_nan a = true -> replace_inf (fround d (fdiv a b)) = NaN.
Proof. by destruct a, b. Qed.

Lemma nan_den (a b k : float) (d : nat) :
  is_nan b = true -> replace_inf (fround d (fmul (fdiv a b) k)) = NaN.
Proof. destruct b; try done. rewrite fdiv_nan_r. by destruct k. Qed.

Lemma nan_den' (a b : float) (d : nat) :
  is_nan b = true -> replace_inf (fround d (fdiv a b)) = NaN.
Proof. destruct b; try done. by rewrite fdiv_nan_r. Qed.

Example derive_example :
  List.map (fun r => (Cost r, CTR r, CVR r, CPC r, CPA r))
           (derive_metrics example_to_numeric example_frame)
  = [ (Fin (-5), Fin 0, NaN, NaN, Fin (-2));
      (Fin 10, NaN, NaN, Fin 3, NaN) ].
Proof. vm_compute. reflexivity. Qed.

(** C4. In every derived row, a zero or missing (NaN) denominator makes the
    ratios that divide by it NaN: Clicks for CVR and CPC, Impressions for CTR
    and CPM, Conversions for CPA.  No derived field is ever an infinity, the
    derivation is a total function (nothing is raised), and a row with
    Clicks = 0 and Impressions > 0 has CVR and CPC undefined while its CTR
    is the defined value 0. *)
Theorem zero_denominator_is_undefined (to_numeric : ustr -> float)
    (df : mapped_frame) :
  Forall2
    (fun c r =>
       r = derive_row c
       /\ (is_zero (cClicks c) || is_nan (cClicks c) = true ->
           CVR r = NaN /\ CPC r = NaN)
       /\ (is_zero (cImpressions c) || is_nan (cImpressions c) = true ->
           CTR r = NaN /\ CPM r = NaN)
       /\ (is_zero (cConversions c) || is_nan (cConversions c) = true ->
           CPA r = NaN)
       /\ is_inf (CTR r) = false /\ is_inf (CVR r) = false
       /\ is_inf (CPC r) = false /\ is_inf (CPA r) = false
       /\ is_inf (CPM r) = false
       /\ (is_zero (cClicks c) = true -> is_pos (cImpressions c) = true ->
           CVR r = NaN /\ CPC r = NaN /\ CTR r = Fin 0))
    (coerce_frame to_numeric df) (derive_metrics to_numeric df).
Proof.
  unfold derive_metrics. generalize (coerce_frame to_numeric df). intros rows.
  induction rows as [|c rows IH]; [constructor|].
  simpl. constructor; [|exact IH].
  split; [reflexivity|]. unfold derive_row; cbn [CTR CVR CPC CPA CPM].
  repeat split; intros; rewrite ?replace_inf_not_inf; try reflexivity;
    try (apply ratio_undefined; [by apply zero_or_nan_div|done]);
    try (apply ratio_undefined'; by apply zero_or_nan_div).
  - apply ratio_undefined; [|done]. apply fdiv_zero_r. done.
  - apply ratio_undefined'. by apply fdiv_zero_r.
  - by apply zero_clicks_ctr.
Qed.

(** What the two [str.replace] calls leave of a cell: every comma and every
    yen sign is deleted, every other character stays in place. *)
Lemma clean_numeric_text_filter (s : ustr) :
  clean_numeric_text s
  = List.filter (fun ch => negb ((ch =? 44) || (ch =? 165))%N) s.
Proof.
  unfold clean_numeric_text, remove_char.
  induction s as [|ch s IH]; [done|]. simpl.
  destruct (ch =? 44)%N; simpl; [exact IH|].
  destruct (ch =? 165)%N; simpl; [exact IH|]. by rewrite IH.
Qed.

(** An infinity in the numerator makes the ratio infinite or NaN, which the
    final replacement turns into NaN. *)
Lemma inf_num (a b : float) (k : Q) (d : nat) :
  is_inf a = true -> Qsign k = Gt ->
  replace_inf (fround d (fmul (fdiv a b) (Fin k))) = NaN.
Proof.
  intros Ha Hk.
  destruct a as [x| | |], b as [y| | |]; try done; simpl;
    destruct (Qsign y); simpl; by rewrite ?Hk.
Qed.

Lemma inf_num' (a b : float) (d : nat) :
  is_inf a = true -> replace_inf (fround d (fdiv a b)) = NaN.
Proof.
  intros Ha.
  destruct a as [x| | |], b as [y| | |]; try done; simpl;
    by destruct (Qsign y).
Qed.

(** An infinity in the divisor of a finite value makes the ratio 0. *)
Lemma inf_den (a b : float) (k : Q) (d : nat) :
  is_fin a = true -> is_inf b = true ->
  replace_inf (fround d (fmul (fdiv a b) (Fin k))) = Fin 0.
Proof.
  intros Ha Hb. destruct a as [x| | |], b as [y| | |]; try done.
  all: simpl; f_equal; apply Qred_complete;
    replace (Qred (0 * k)) with 0%Q; [reflexivity|];
    symmetry; apply (Qred_complete (0 * k) 0); ring.
Qed.

Lemma inf_den' (a b : float) (d : nat) :
  is_fin a = true -> is_inf b = true ->
  replace_inf (fround d (fdiv a b)) = Fin 0.
Proof. intros Ha Hb. by destruct a as [x| | |], b as [y| | |]. Qed.

(** C7, counterexample. A negative cost in a numeric column comes out of
    canonicalization unchanged: it is neither non-negative nor marked
    invalid. *)
Lemma negative_cost_is_kept :
  exists r, In r (derive_metrics example_to_numeric example_frame)
            /\ Cost r = Fin (-5)
            /\ is_nonneg (Cost r) = false /\ is_nan (Cost r) = false.
Proof.
  eexists. split; [left; reflexivity|]. vm_compute. repeat split.
Qed.

(** C7, amended. Canonicalization hands the cells of an object column to
    the parser with every comma and yen sign deleted and takes a numeric
    column as it is; nothing makes a value non-negative.  Each numeric field
    of the resulting row is the coerced value with the infinities turned
    into NaN, hence a finite number of either sign or NaN.  A coerced value
    that is NaN makes every derived metric computed from it NaN, and so does
    an infinite value in the numerator of a metric; an infinite value in the
    divisor of a metric whose numerator is finite does not: the metric is 0
    although the field itself comes out as NaN.  Nothing is raised. *)
Theorem numeric_fields_number_or_nan (to_numeric : ustr -> float)
    (df : mapped_frame) :
  (forall cells,
     coerce_column to_numeric (ObjCol cells)
     = List.map
         (fun s => to_numeric
                     (List.filter
                        (fun ch => negb ((ch =? 44) || (ch =? 165))%N) s))
         cells)
  /\ (forall cells, coerce_column to_numeric (NumCol cells) = cells)
  /\ Forall2
    (fun c r =>
       Impressions r = replace_inf (cImpressions c)
       /\ Clicks r = replace_inf (cClicks c)
       /\ Cost r = replace_inf (cCost c)
       /\ Conversions r = replace_inf (cConversions c)
       /\ is_inf (Impressions r) = false /\ is_inf (Clicks r) = false
       /\ is_inf (Cost r) = false /\ is_inf (Conversions r) = false
       /\ (is_nan (cImpressions c) = true -> CTR r = NaN /\ CPM r = NaN)
       /\ (is_nan (cClicks c) = true ->
           CTR r = NaN /\ CVR r = NaN /\ CPC r = NaN)
       /\ (is_nan (cCost c) = true ->
           CPC r = NaN /\ CPA r = NaN /\ CPM r = NaN)
       /\ (is_nan (cConversions c) = true -> CVR r = NaN /\ CPA r = NaN)
       /\ (is_inf (cImpressions c) = true ->
           Impressions r = NaN
           /\ (is_fin (cClicks c) = true -> CTR r = Fin 0)
           /\ (is_fin (cCost c) = true -> CPM r = Fin 0))
       /\ (is_inf (cClicks c) = true ->
           Clicks r = NaN /\ CTR r = NaN
           /\ (is_fin (cConversions c) = true -> CVR r = Fin 0)
           /\ (is_fin (cCost c) = true -> CPC r = Fin 0))
       /\ (is_inf (cCost c) = true ->
           Cost r = NaN /\ CPC r = NaN /\ CPA r = NaN /\ CPM r = NaN)
       /\ (is_inf (cConversions c) = true ->
           Conversions r = NaN /\ CVR r = NaN
           /\ (is_fin (cCost c) = true -> CPA r = Fin 0)))
    (coerce_frame to_numeric df) (derive_metrics to_numeric df).
Proof.
  split.
  { intros cells. simpl. apply List.map_ext. intros s.
    by rewrite clean_numeric_text_filter. }
  split; [reflexivity|].
  unfold derive_metrics. generalize (coerce_frame to_numeric df). intros rows.
  induction rows as [|c rows IH]; [constructor|].
  simpl. constructor; [|exact IH].
  unfold derive_row;
    cbn [Impressions Clicks Cost Conversions CTR CVR CPC CPA CPM].
  repeat split; intros; rewrite ?replace_inf_not_inf; try reflexivity;
    first [ by apply nan_num | by apply nan_num'
          | by apply nan_den | by apply nan_den'
          | by apply inf_num | by apply inf_num'
          | by apply inf_den | by apply inf_den'
          | by destruct (cImpressions c) | by destruct (cClicks c)
          | by destruct (cCost c) | by destruct (cConversions c) ].
Qed.

(** C7 at a cell that reads as infinity: the field is marked invalid and the
    metrics it divides are 0. *)
Example infinite_impressions_give_zero_ctr :
  let r := derive_row {| cKeyword := PStr (u "shoes"); cMatchType := u "exact";
                         cImpressions := PInf; cClicks := Fin 5;
                         cCost := Fin 10; cConversions := Fin 1 |} in
  (Impressions r, CTR r, CPM r) = (NaN, Fin 0, Fin 0).
Proof. vm_compute. reflexivity. Qed.

(** ** Cost-priority selection *)

(** The sort returns the rows it was given, largest cost first and NaN
    last. *)

Lemma fle_total (a b : float) :
  is_nan a = false -> is_nan b = false -> fle a b = false -> fle b a = true.
Proof.
  destruct a as [x| | |], b as [y| | |]; try done. simpl. intros _ _ H.
  apply Qle_bool_iff. apply Qlt_le_weak, Qnot_le_lt. intros Hle.
  apply Qle_bool_iff in Hle. congruence.
Qed.

Lemma fle_trans (a b c : float) :
  fle a b = true -> fle b c = true -> fle a c = true.
Proof.
  destruct a as [x| | |], b as [y| | |], c as [z| | |]; try done. simpl.
  rewrite !Qle_bool_iff. apply Qle_trans.
Qed.

Lemma cost_before_total (x y : krow) :
  cost_before x y = false -> cost_before y x = true.
Proof.
  unfold cost_before.
  destruct (Cost x) as [a| | |] eqn:Ex, (Cost y) as [b| | |] eqn:Ey;
    try done; intros H; by apply fle_total.
Qed.

Lemma cost_before_trans (x y z : krow) :
  cost_before x y = true -> cost_before y z = true -> cost_before x z = true.
Proof.
  unfold cost_before.
  destruct (Cost x) as [a| | |], (Cost y) as [b| | |], (Cost z) as [c| | |];
    try done; intros H1 H2; by eapply fle_trans.
Qed.

Lemma insert_by_cost_perm (x : krow) (l : list krow) :
  insert_by_cost x l ≡ₚ x :: l.
Proof.
  induction l as [|y l IH]; simpl; [done|].
  destruct (cost_before x y); [done|].
  rewrite IH. apply Permutation_swap.
Qed.

Lemma sort_values_cost_desc_perm (df : list krow) :
  sort_values_cost_desc df ≡ₚ df.
Proof.
  unfold sort_values_cost_desc. induction df as [|x df IH]; simpl; [done|].
  by rewrite insert_by_cost_perm, IH.
Qed.

Lemma insert_by_cost_sorted (x : krow) (l : list krow) :
  StronglySorted (fun a b => cost_before a b = true) l ->
  StronglySorted (fun a b => cost_before a b = true) (insert_by_cost x l).
Proof.
  induction 1 as [|y l Hl IH Hy]; simpl.
  - repeat constructor.
  - destruct (cost_before x y) eqn:E.
    + constructor; [by constructor|].
      constructor; [done|].
      eapply Forall_impl; [exact Hy|]. intros z Hz. simpl in Hz.
      by eapply cost_before_trans.
    + constructor; [done|].
      apply cost_before_total in E.
      rewrite insert_by_cost_perm. by constructor.
Qed.

Lemma sort_values_cost_desc_sorted (df : list krow) :
  StronglySorted (fun a b => cost_before a b = true)
                 (sort_values_cost_desc df).
Proof.
  unfold sort_values_cost_desc. induction df as [|x df IH]; simpl.
  - constructor.
  - by apply insert_by_cost_sorted.
Qed.


(** C1, counterexample. On the rows with costs 100, 50 and 10 the
    cumulative percentages are 62.5, 93.75 and 100: threshold 0 selects no
    row at all (the first row is not included), and threshold 62.5 selects
    row 1 alone, not rows 1 and 2. *)
Lemma first_row_dropped_at_threshold_0 :
  sort_values_cost_desc [row3; row1; row2] = [row1; row2; row3]
  /\ cumulative_cost_percent [row1; row2; row3]
     = [Fin (125 # 2); Fin (375 # 4); Fin 100]
  /\ high_cost_df [row1; row2; row3] 0 = []
  /\ high_cost_df [row1; row2; row3] (125 # 2) = [row1].
Proof. repeat split; vm_compute; reflexivity. Qed.

(** C1, amended. The first row of the cost-sorted frame is included
    exactly when its own share of the total cost, in percent, is at most the
    threshold (the rows after it are filtered on their own cumulative
    percentages); on the costs 100, 50, 10 the thresholds 0, 62.5 and 100
    select no row, row 1, and rows 1 to 3. *)
Theorem first_row_selected_iff_share
    (df : list krow) (cost_threshold : Q) (r : krow) (rest : list krow)
    (c : Q) :
  sort_values_cost_desc df = r :: rest ->
  Cost r = Fin c ->
  let total_cost := nansum (List.map Cost (r :: rest)) in
  let share := fmul (fdiv (Cost r) total_cost) (Fin 100) in
  let later :=
    List.map (fun x => fmul (fdiv x total_cost) (Fin 100))
             (cumsum_from (Fin (Qred c)) (List.map Cost rest)) in
  high_cost_df df cost_threshold
  = (if fle share (Fin cost_threshold) then [r] else [])
    ++ List.map fst (List.filter (fun rp => fle (snd rp) (Fin cost_threshold))
                                 (combine rest later))
  /\ high_cost_df [row1; row2; row3] 0 = []
  /\ high_cost_df [row1; row2; row3] (125 # 2) = [row1]
  /\ high_cost_df [row1; row2; row3] 100 = [row1; row2; row3].
Proof.
  intros Hsort Hc total_cost share later. split.
  - unfold high_cost_df, cumulative_cost_percent. rewrite Hsort.
    fold total_cost. unfold cumsum. cbn [List.map cumsum_from].
    rewrite Hc. cbn [is_nan]. rewrite fadd_zero_l. cbv zeta.
    cbn [List.map combine List.filter snd fst].
    rewrite fdiv_Qred_l. fold later. unfold share. rewrite Hc.
    destruct (fle _ (Fin cost_threshold)); reflexivity.
  - repeat split; vm_compute; reflexivity.
Qed.

(** The theorem at the three example rows, for the thresholds 50 and
    80. *)
Lemma first_row_selected_iff_share_witness :
  high_cost_df [row3; row1; row2] 50 = []
  /\ high_cost_df [row3; row1; row2] 80 = [row1].
Proof.
  split.
  - exact (proj1 (first_row_selected_iff_share [row3; row1; row2] 50 row1
                    [row2; row3] 100 eq_refl eq_refl)).
  - exact (proj1 (first_row_selected_iff_share [row3; row1; row2] 80 row1
                    [row2; row3] 100 eq_refl eq_refl)).
Defined.

Lemma unique_spec (seen l : list pyval) :
  NoDup (unique seen l)
  /\ (forall x, x ∈ unique seen l -> (x ∉ seen) /\ (x ∈ l)).
Proof.
  revert seen. induction l as [|x l IH]; intros seen; simpl.
  - split; [constructor|]. intros x Hx. by apply elem_of_nil in Hx.
  - case_bool_decide as Hin.
    + destruct (IH seen) as [Hnd Hsub]. split; [done|].
      intros y Hy. destruct (Hsub y Hy). split; [done|]. by right.
    + destruct (IH (x :: seen)) as [Hnd Hsub]. split.
      * constructor; [|done]. intros Hx. destruct (Hsub x Hx) as [Hn _].
        apply Hn. by left.
      * intros y Hy. apply elem_of_cons in Hy as [->|Hy].
        -- split; [done|by left].
        -- destruct (Hsub y Hy) as [Hn Hl]. split; [|by right].
           intros Hs. apply Hn. by right.
Qed.

Lemma unique_keywords_NoDup (selected : list krow) :
  NoDup (unique_keywords selected).
Proof.
  unfold unique_keywords.
  assert (H := proj1 (unique_spec [] (List.map Keyword selected))).
  revert H. generalize (unique [] (List.map Keyword selected)).
  intros l H. induction H as [|x l Hx Hnd IH]; simpl; [constructor|].
  destruct (valid_keyword x); [|done].
  constructor; [|done]. intros Hin. apply Hx.
  apply list_elem_of_In in Hin. apply filter_In in Hin as [Hin _].
  by apply list_elem_of_In.
Qed.


(** ** Batches *)

Lemma py_slice_chunk {A} (l : list A) (k sz : nat) :
  (k * sz <= length l)%nat ->
  py_slice l (Z.of_nat k * Z.of_nat sz)
           (Z.of_nat k * Z.of_nat sz + Z.of_nat sz)
  = take sz (drop (k * sz) l).
Proof.
  intros Hk. unfold py_slice, slice_index.
  destruct (Z.ltb_spec (Z.of_nat k * Z.of_nat sz) 0); [lia|].
  destruct (Z.ltb_spec (Z.of_nat k * Z.of_nat sz + Z.of_nat sz) 0); [lia|].
  rewrite (Z.min_l (Z.of_nat k * Z.of_nat sz)) by lia.
  replace (Z.to_nat (Z.of_nat k * Z.of_nat sz)) with (k * sz)%nat by lia.
  change (@skipn A) with (@drop A). change (@firstn A) with (@take A).
  destruct (Z.le_ge_cases (Z.of_nat k * Z.of_nat sz + Z.of_nat sz)
                          (Z.of_nat (length l))).
  - rewrite Z.min_l by lia. f_equal. lia.
  - rewrite Z.min_r by lia.
    rewrite !take_ge; [done|..]; rewrite length_drop; lia.
Qed.

Lemma batches_chunks (kws : list pyval) (m : Z) :
  1 <= m ->
  let sz := Z.to_nat (batch_size m) in
  batches kws m
  = Some (List.map (fun k => take sz (drop (k * sz) kws))
                   (seq 0 (Z.to_nat ((Z.of_nat (length kws) + batch_size m - 1)
                                     / batch_size m)))).
Proof.
  intros Hm sz. unfold batches, py_range.
  assert (Hbs : 1 <= batch_size m) by (unfold batch_size; lia).
  destruct (Z.eqb_spec (batch_size m) 0); [lia|].
  destruct (Z.ltb_spec 0 (batch_size m)); [|lia].
  f_equal. rewrite List.map_map. rewrite Z.sub_0_r.
  apply List.map_ext_in. intros k Hk. apply in_seq in Hk.
  replace (batch_size m) with (Z.of_nat sz) by (unfold sz; lia).
  rewrite Z.add_0_l. apply py_slice_chunk.
  assert (Hsz : (1 <= sz)%nat) by (unfold sz; lia).
  destruct Hk as [_ Hk]. simpl in Hk.
  assert (Z.of_nat k + 1
          <= (Z.of_nat (length kws) + batch_size m - 1) / batch_size m) by lia.
  assert ((Z.of_nat k + 1) * batch_size m
          <= Z.of_nat (length kws) + batch_size m - 1).
  { etransitivity; [apply Z.mul_le_mono_nonneg_r; [lia|eassumption]|].
    rewrite Z.mul_comm. apply Z.mul_div_le. lia. }
  replace (batch_size m) with (Z.of_nat sz) in * by (unfold sz; lia). nia.
Qed.

(** The batches exist, are the consecutive slices of the keyword list, and
    put together give it back. *)
Lemma batches_ok (kws : list pyval) (m : Z) :
  1 <= m ->
  let sz := Z.to_nat (Z.min m 100) in
  exists bs,
    batches kws m = Some bs
    /\ concat bs = kws
    /\ (forall n b, bs !! n = Some b -> b = take sz (drop (n * sz) kws)).
Proof.
  intros Hm sz.
  pose proof (batches_chunks kws m Hm) as Hb.
  cbv zeta in Hb. unfold batch_size in Hb. fold sz in Hb.
  set (cnt := Z.to_nat ((Z.of_nat (length kws) + Z.min m 100 - 1)
                        / Z.min m 100)) in Hb.
  eexists. split; [exact Hb|].
  assert (Hsz : (1 <= sz)%nat) by (unfold sz; lia).
  split.
  - rewrite concat_chunks. apply take_ge.
    assert (Z.of_nat (length kws) <= Z.of_nat cnt * Z.of_nat sz); [|lia].
    unfold cnt. rewrite Z2Nat.id.
    2:{ apply Z.div_pos; lia. }
    replace (Z.of_nat sz) with (Z.min m 100) by (unfold sz; lia).
    set (s := Z.min m 100). assert (1 <= s) by (unfold s; lia).
    pose proof (Z.mod_pos_bound (Z.of_nat (length kws) + s - 1) s ltac:(lia)).
    pose proof (Z.div_mod (Z.of_nat (length kws) + s - 1) s ltac:(lia)). nia.
  - intros n b Hn. change (@List.map) with (@fmap list _) in Hn.
    rewrite list_lookup_fmap in Hn.
    destruct (seq 0 cnt !! n) as [k|] eqn:Hk; [|done]. simpl in Hn.
    apply lookup_seq in Hk as [-> _]. by inversion Hn.
Qed.

(** C8. For a configured batch size of at least 1 (the slider gives 50 to
    500), the batches of the selected keywords exist; batch number [n] is
    the slice of the keyword list that starts at [n * size] and has at most
    [size = min(configured, 100)] elements, so no batch has more than
    [min(configured, 100)], hence 100, keywords; the batches put together
    are the keyword list, and every keyword lies in exactly one batch. *)
Theorem batches_partition (selected : list krow)
    (max_keywords_per_batch : Z) :
  1 <= max_keywords_per_batch ->
  let kws := unique_keywords selected in
  let sz := Z.to_nat (Z.min max_keywords_per_batch 100) in
  exists bs,
    batches kws max_keywords_per_batch = Some bs
    /\ concat bs = kws
    /\ (forall n b, bs !! n = Some b -> b = take sz (drop (n * sz) kws))
    /\ Forall (fun b => Z.of_nat (length b) <= Z.min max_keywords_per_batch 100
                        /\ (length b <= 100)%nat) bs
    /\ (forall kw, kw ∈ kws ->
          exists i b, bs !! i = Some b /\ kw ∈ b
            /\ forall j b', bs !! j = Some b' -> kw ∈ b' -> j = i).
Proof.
  intros Hm kws sz.
  destruct (batches_ok kws max_keywords_per_batch Hm) as (bs & Hbs & Hcat & Hsl).
  fold sz in Hsl.
  exists bs. split; [exact Hbs|]. split; [exact Hcat|]. split; [exact Hsl|].
  split.
  - apply Forall_forall. intros b Hb.
    apply list_elem_of_lookup in Hb as [n Hn]. rewrite (Hsl n b Hn).
    rewrite length_take. unfold sz. lia.
  - intros kw Hkw. rewrite <- Hcat in Hkw.
    apply elem_of_concat in Hkw as (b & Hkb & Hb).
    apply list_elem_of_lookup in Hb as [i Hi].
    exists i, b. split; [done|]. split; [done|].
    intros j b' Hj Hkb'.
    eapply (NoDup_concat_unique _ kw j i b' b); eauto.
    rewrite Hcat. apply unique_keywords_NoDup.
Qed.

(** The theorem at the three example rows and a batch size of 2. *)
Lemma batches_partition_witness :
  exists bs,
    batches (unique_keywords [row1; row2; row3]) 2 = Some bs
    /\ concat bs = unique_keywords [row1; row2; row3]
    /\ Forall (fun b => Z.of_nat (length b) <= Z.min 2 100
                        /\ (length b <= 100)%nat) bs.
Proof.
  destruct (batches_partition [row1; row2; row3] 2 ltac:(lia))
    as (bs & H1 & H2 & _ & H3 & _).
  exists bs. split; [exact H1|]. split; [exact H2|exact H3].
Defined.

(** ** The batch loop under a failing oracle *)

Lemma truthy_prefixed (prefix e : ustr) :
  prefix <> [] -> truthy (RStr (prefix ++ e)) = true.
Proof.
  intros H. unfold truthy. rewrite ustr_eqb_nil_false; [done|].
  destruct prefix; [done|]. discriminate.
Qed.

Lemma truthy_json_error (e content : ustr) :
  truthy (RStr (json_error_message e content)) = true.
Proof. unfold json_error_message. by apply truthy_prefixed. Qed.

Section FailingBatch.

Variable oracle : request -> reply.
Variables service_description api_key : ustr.
Hypothesis has_api_key : api_key <> [].

(** The first call of a batch reports an error when its request fails. *)
Lemma categorize_fails (batch : list pyval) :
  fails (oracle (classify_request service_description batch)) = true ->
  exists result error,
    categorize_keywords_with_llm oracle batch service_description api_key 100
    = [result; error]
    /\ truthy error = true.
Proof.
  unfold categorize_keywords_with_llm, classify_request.
  rewrite (ustr_eqb_nil_false _ has_api_key).
  destruct (valid_keywords_of batch) as [|k ks].
  - intros _. eexists _, _. split; [reflexivity|]. vm_compute. reflexivity.
  - intros Hf. destruct (oracle _) as [e|e c|items]; [| |discriminate Hf].
    + eexists _, _. split; [reflexivity|]. by apply truthy_prefixed.
    + eexists _, _. split; [reflexivity|]. apply truthy_json_error.
Qed.




End FailingBatch.




Example failing_oracle_run :
  categorize_button oracle_batches_down (u "sk-test") (u "shoe shop")
                    [row1; row2; row3] 100 2
  = Categorized
      (categorize_rows [row1; row2; row3]
         (List.map sentinel (List.map Keyword [row1; row2; row3])))
      (List.map sentinel (List.map Keyword [row1; row2; row3]))
      [ BothFailed 1 (RStr (u "API呼び出しエラー: timeout"))
                     (RStr (u "LLMクラスタリングエラー: timeout"));
        BothFailed 2 (RStr (u "API呼び出しエラー: timeout"))
                     (RStr (u "LLMクラスタリングエラー: timeout")) ].
Proof. vm_compute. reflexivity. Qed.

(** C10. Without a credential [cluster_keywords_with_llm] returns the
    three components (None, None, message); on every other path it returns
    two, as [categorize_keywords_with_llm] always does; so the assignment to
    two names at its only call site raises the unpacking error on that path,
    and the batch body that reaches the call with an empty credential
    raises instead of recording a diagnostic. *)
Theorem cluster_no_api_key_breaks_unpacking (oracle : request -> reply) :
  (forall keywords service_description suggested_clusters,
     cluster_keywords_with_llm oracle keywords service_description []
                               suggested_clusters
     = [RNone; RNone; RStr msg_no_api_key_cluster])
  /\ (forall keywords service_description api_key suggested_clusters,
        api_key <> [] ->
        length (cluster_keywords_with_llm oracle keywords service_description
                                          api_key suggested_clusters) = 2%nat)
  /\ (forall keywords service_description api_key batch_size,
        length (categorize_keywords_with_llm oracle keywords
                  service_description api_key batch_size) = 2%nat)
  /\ (forall batch service_description,
        fallback_call oracle batch service_description []
        = Raise (UnpackError 2 3))
  /\ (forall service_description i batch st,
        process_batch oracle service_description [] i batch st
        = Raise (UnpackError 2 3)).
Proof.
  split; [reflexivity|]. split; [|split; [|split]].
  - intros kws sd key sc Hkey. unfold cluster_keywords_with_llm.
    rewrite (ustr_eqb_nil_false _ Hkey).
    destruct (valid_keywords_of kws); [reflexivity|].
    by destruct (oracle _).
  - intros kws sd key n. unfold categorize_keywords_with_llm.
    destruct (ustr_eqb key []); [reflexivity|].
    destruct (valid_keywords_of kws); [reflexivity|].
    by destruct (oracle _).
  - reflexivity.
  - intros sd i batch [all_categorized errors]. reflexivity.
Qed.

(** The handler tests the credential before anything else, so the batch
    loop itself never runs with an empty one. *)
Lemma categorize_button_needs_api_key (oracle : request -> reply)
    (service_description : ustr) (df : list krow) (cost_threshold : Q)
    (max_keywords_per_batch : Z) :
  categorize_button oracle [] service_description df cost_threshold
                    max_keywords_per_batch = NoApiKey.
Proof. reflexivity. Qed.

(** ** The join *)

Lemma category_map_snoc (l : list assignment) (a : assignment) :
  category_map (l ++ [a])
  = <[a_keyword a := (a_axis a, a_comb a)]> (category_map l).
Proof. unfold category_map. by rewrite fold_left_app. Qed.

Lemma category_map_lookup (all_categorized : list assignment) (kw : pyval) :
  category_map all_categorized !! kw
  = (fun a => (a_axis a, a_comb a)) <$> last_assignment all_categorized kw.
Proof.
  unfold last_assignment.
  induction all_categorized as [|a l IH] using rev_ind.
  - done.
  - rewrite category_map_snoc, rev_app_distr. simpl.
    case_bool_decide as E.
    + subst kw. by rewrite lookup_insert_eq.
    + by rewrite lookup_insert_ne.
Qed.

Lemma last_assignment_app (pre post : list assignment) (a : assignment) :
  Forall (fun b => a_keyword b <> a_keyword a) post ->
  last_assignment (pre ++ a :: post) (a_keyword a) = Some a.
Proof.
  intros Hpost. unfold last_assignment.
  rewrite rev_app_distr. simpl. rewrite <- app_assoc. simpl.
  apply Forall_rev in Hpost. revert Hpost. generalize (rev post).
  intros l Hl. induction Hl as [|b l Hb Hl IH]; simpl.
  - by rewrite bool_decide_eq_true_2.
  - by rewrite bool_decide_eq_false_2.
Qed.

Lemma last_assignment_none (all_categorized : list assignment) (kw : pyval) :
  Forall (fun b => a_keyword b <> kw) all_categorized ->
  last_assignment all_categorized kw = None.
Proof.
  intros H. unfold last_assignment. apply Forall_rev in H.
  revert H. generalize (rev all_categorized). intros l Hl.
  induction Hl as [|b l Hb Hl IH]; simpl; [done|].
  by rewrite bool_decide_eq_false_2.
Qed.

(** C9. The category map gives each keyword the pair of the assignment
    that was collected last for it: an assignment followed by no other
    assignment of the same keyword is the one that is applied, whatever came
    before it; a keyword without any assignment gets (未分類, 未分類); and
    every row of the categorized data carries the pair the map gives its
    keyword. *)
Theorem category_map_last_seen_wins :
  (forall all_categorized kw,
     apply_categories (category_map all_categorized) kw
     = match last_assignment all_categorized kw with
       | Some a => (a_axis a, a_comb a)
       | None => default_categories
       end)
  /\ (forall pre a post,
        Forall (fun b => a_keyword b <> a_keyword a) post ->
        apply_categories (category_map (pre ++ a :: post)) (a_keyword a)
        = (a_axis a, a_comb a))
  /\ (forall all_categorized kw,
        Forall (fun b => a_keyword b <> kw) all_categorized ->
        apply_categories (category_map all_categorized) kw
        = (u "未分類", u "未分類"))
  /\ (forall df all_categorized,
        Forall2 (fun row c =>
                   base c = row
                   /\ (AxisCategory c, CombinationCategory c)
                      = apply_categories (category_map all_categorized)
                                         (Keyword row))
                df (categorize_rows df all_categorized)).
Proof.
  assert (H1 : forall all_categorized kw,
     apply_categories (category_map all_categorized) kw
     = match last_assignment all_categorized kw with
       | Some a => (a_axis a, a_comb a)
       | None => default_categories
       end).
  { intros l kw. unfold apply_categories. rewrite category_map_lookup.
    by destruct (last_assignment l kw). }
  split; [exact H1|]. split; [|split].
  - intros pre a post Hpost. by rewrite H1, last_assignment_app.
  - intros l kw Hl. by rewrite H1, last_assignment_none.
  - intros df l. unfold categorize_rows.
    induction df as [|row df IH]; simpl; constructor; [|exact IH].
    split; [done|]. simpl. by destruct (apply_categories _ _).
Qed.

Example last_seen_wins_example :
  let first :=
    {| a_keyword := PStr (u "shoes"); a_axis := u "A"; a_comb := u "X" |} in
  let second :=
    {| a_keyword := PStr (u "shoes"); a_axis := u "B"; a_comb := u "Y" |} in
  apply_categories (category_map [first; second]) (PStr (u "shoes"))
  = (u "B", u "Y")
  /\ apply_categories (category_map [first; second]) (PStr (u "boots"))
     = (u "未分類", u "未分類").
Proof. split; vm_compute; reflexivity. Qed.

(** ** Roll-ups *)

Lemma series_ratio_percent {G} (f h : G -> float) (k : float) (d : nat)
    (gs : list G) :
  sround d (smul (sdiv (List.map f gs) (List.map h gs)) k)
  = List.map (fun g => fround d (fmul (fdiv (f g) (h g)) k)) gs.
Proof.
  unfold sround, smul, sdiv. induction gs as [|g gs IH]; simpl; [done|].
  by rewrite IH.
Qed.

Lemma series_ratio {G} (f h : G -> float) (d : nat) (gs : list G) :
  sround d (sdiv (List.map f gs) (List.map h gs))
  = List.map (fun g => fround d (fdiv (f g) (h g))) gs.
Proof.
  unfold sround, sdiv. induction gs as [|g gs IH]; simpl; [done|].
  by rewrite IH.
Qed.

(** The table a roll-up returns, column by column. *)
Lemma rollup_eq (by_ : list (ustr * (crow -> ustr))) (df : list crow) :
  let gs := group_keys (List.map snd by_) df in
  let tot := group_total by_ df in
  rollup by_ df
  = Some (rename_col (u "Keyword") (u "キーワード数")
      {| key_cols := key_cols (groupby_agg by_ df);
         num_cols :=
           [ (u "Keyword",
              List.map (fun g => count_keyword
                                   (group_rows (List.map snd by_) df g)) gs);
             (u "Impressions", List.map (tot Impressions) gs);
             (u "Clicks", List.map (tot Clicks) gs);
             (u "Cost", List.map (tot Cost) gs);
             (u "Conversions", List.map (tot Conversions) gs);
             (u "CTR",
              List.map (fun g => fround 2 (fmul (fdiv (tot Clicks g)
                                  (tot Impressions g)) (Fin 100))) gs);
             (u "CVR",
              List.map (fun g => fround 2 (fmul (fdiv (tot Conversions g)
                                  (tot Clicks g)) (Fin 100))) gs);
             (u "CPC",
              List.map (fun g => fround 0 (fdiv (tot Cost g)
                                  (tot Clicks g))) gs);
             (u "CPA",
              List.map (fun g => fround 0 (fdiv (tot Cost g)
                                  (tot Conversions g))) gs) ] |}).
Proof.
  intros gs tot.
  rewrite <- !series_ratio_percent, <- !series_ratio.
  reflexivity.
Qed.

(** The two shoe keywords have CPC 50 and 100; their group has CPC 62, the
    ratio of the summed cost and clicks, not the mean 75. *)
Example axis_stats_example :
  axis_stats example_categorized
  = Some {| key_cols := [(u "AxisCategory", [u "shoes"; u "未分類"])];
            num_cols :=
              [ (u "キーワード数", [Fin 2; Fin 1]);
                (u "Impressions", [Fin 4000; Fin 500]);
                (u "Clicks", [Fin 130; Fin 5]);
                (u "Cost", [Fin 8000; Fin 400]);
                (u "Conversions", [Fin 10; Fin 1]);
                (u "CTR", [Fin (13 # 4); Fin 1]);
                (u "CVR", [Fin (769 # 100); Fin 20]);
                (u "CPC", [Fin 62; Fin 80]);
                (u "CPA", [Fin 800; Fin 400]) ] |}.
Proof. vm_compute. reflexivity. Qed.

(** C2, counterexample. The axis roll-up of three categorized rows has no
    CPM column. *)
Lemma axis_stats_has_no_CPM :
  exists T, axis_stats example_categorized = Some T
            /\ ~ In (u "CPM") (columns T)
            /\ get_col (u "CPM") T = None.
Proof.
  eexists. split; [exact axis_stats_example|]. split.
  - vm_compute. intros H. repeat (destruct H as [H|H]; [discriminate H|]).
    exact H.
  - vm_compute. reflexivity.
Qed.

(** C2, amended. Each of the five roll-ups (axis, combination,
    axis x combination, match type, axis x match type) is built without a
    [KeyError] and has, after its key columns, exactly the columns count,
    Impressions, Clicks, Cost, Conversions, CTR, CVR, CPC and CPA; the four
    base columns hold the per-group sums, and each of the four ratios is
    computed from those sums (sum first, then divide, then round), not from
    the ratios of the rows. *)
Theorem rollups_recompute_ratios_from_sums (df : list crow) :
  Forall
    (fun by_ =>
       exists T,
         rollup by_ df = Some T
         /\ columns T = List.map fst by_ ++ ratio_columns
         /\ let gs := group_keys (List.map snd by_) df in
            let tot := group_total by_ df in
            get_col (u "キーワード数") T
            = Some (List.map (fun g => count_keyword
                                (group_rows (List.map snd by_) df g)) gs)
            /\ get_col (u "Impressions") T
               = Some (List.map (tot Impressions) gs)
            /\ get_col (u "Clicks") T = Some (List.map (tot Clicks) gs)
            /\ get_col (u "Cost") T = Some (List.map (tot Cost) gs)
            /\ get_col (u "Conversions") T
               = Some (List.map (tot Conversions) gs)
            /\ get_col (u "CTR") T
               = Some (List.map (fun g => fround 2 (fmul (fdiv (tot Clicks g)
                                   (tot Impressions g)) (Fin 100))) gs)
            /\ get_col (u "CVR") T
               = Some (List.map (fun g => fround 2 (fmul
                                   (fdiv (tot Conversions g) (tot Clicks g))
                                   (Fin 100))) gs)
            /\ get_col (u "CPC") T
               = Some (List.map (fun g => fround 0 (fdiv (tot Cost g)
                                   (tot Clicks g))) gs)
            /\ get_col (u "CPA") T
               = Some (List.map (fun g => fround 0 (fdiv (tot Cost g)
                                   (tot Conversions g))) gs))
    all_rollups.
Proof.
  unfold all_rollups.
  repeat (apply Forall_cons; split;
          [eexists; split; [apply rollup_eq|]; repeat split; reflexivity|]).
  apply Forall_nil. done.
Qed.

(** ** Applying the column mapping *)

Section DictFacts.
Context {V : Type}.

Lemma dict_mem_set (k k' : ustr) (v : V) (d : dict V) :
  dict_mem k (dict_set k' v d) = ustr_eqb k' k || dict_mem k d.
Proof.
  induction d as [|[k0 v0] d IH]; simpl.
  - done.
  - destruct (ustr_eqb k0 k') eqn:E; simpl.
    + apply ustr_eqb_eq in E as ->.
      destruct (ustr_eqb k' k); done.
    + rewrite IH. destruct (ustr_eqb k0 k), (ustr_eqb k' k); done.
Qed.

Lemma dict_mem_fold_cond (cond : V -> bool) (l : list (ustr * V))
    (d0 : dict V) (k : ustr) :
  dict_mem k (fold_left (fun d '(f, s) => if cond s then dict_set f s d else d)
                        l d0)
  = dict_mem k d0
    || existsb (fun fs => cond (snd fs) && ustr_eqb (fst fs) k) l.
Proof.
  revert d0. induction l as [|[f s] l IH]; intros d0; simpl.
  - by rewrite orb_false_r.
  - rewrite IH. destruct (cond s); simpl.
    + rewrite dict_mem_set. by rewrite orb_assoc, (orb_comm (ustr_eqb f k)).
    + done.
Qed.

Lemma dict_mem_fold_set (c : ustr -> V) (fields : list ustr) (d0 : dict V)
    (k : ustr) :
  dict_mem k (fold_left (fun d f => dict_set f (c f) d) fields d0)
  = dict_mem k d0 || existsb (fun f => ustr_eqb f k) fields.
Proof.
  revert d0. induction fields as [|f fields IH]; intros d0; simpl.
  - by rewrite orb_false_r.
  - rewrite IH, dict_mem_set.
    by rewrite orb_assoc, (orb_comm (ustr_eqb f k)).
Qed.

Lemma existsb_key_absent (cond : V -> bool) (d : dict V) (k : ustr) :
  dict_mem k d = false ->
  existsb (fun fs => cond (snd fs) && ustr_eqb (fst fs) k) d = false.
Proof.
  induction d as [|[k0 v0] d IH]; simpl; [done|].
  intros H. apply orb_false_iff in H as [H1 H2].
  rewrite H1, andb_false_r. simpl. by apply IH.
Qed.

End DictFacts.

Section MappingFacts.

Variable table : list (ustr * list ustr).
Variables choose_required choose_recommended : ustr -> ustr.

Lemma recommended_not_required (k : ustr) :
  k ∈ REQUIRED_FIELDS ->
  dict_mem k (mapping_inputs_recommended table choose_recommended) = false.
Proof.
  intros Hk. unfold mapping_inputs_recommended.
  rewrite dict_mem_fold_set. simpl.
  apply not_true_is_false. intros H. apply existsb_exists in H as (f & Hf & E).
  apply ustr_eqb_eq in E as ->.
  unfold recommended_fields in Hf. apply filter_In in Hf as [_ Hf].
  apply negb_true_iff, bool_decide_eq_false in Hf. done.
Qed.

Lemma selected_required (k : ustr) :
  k ∈ REQUIRED_FIELDS ->
  dict_mem k (selected_mapping table choose_required choose_recommended)
  = negb (unselected choose_required k).
Proof.
  intros Hk. unfold selected_mapping.
  rewrite (dict_mem_fold_cond
             (fun s => negb (ustr_eqb s placeholder_recommended))).
  rewrite (existsb_key_absent
             (fun s => negb (ustr_eqb s placeholder_recommended)) _ _
             (recommended_not_required k Hk)).
  rewrite orb_false_r.
  rewrite (dict_mem_fold_cond
             (fun s => negb (ustr_eqb s placeholder_required))).
  change (mapping_inputs_required choose_required)
    with (List.map (fun f => (f, choose_required f)) REQUIRED_FIELDS).
  unfold unselected.
  repeat (apply elem_of_cons in Hk as [->|Hk];
          [simpl; rewrite ?andb_false_r, ?andb_true_r, ?orb_false_r;
           reflexivity|]).
  by apply elem_of_nil in Hk.
Qed.

(** [missing] is the list of the required fields left on the placeholder,
    in the order of [REQUIRED_FIELDS]. *)
Lemma missing_unselected :
  missing table choose_required choose_recommended
  = List.filter (unselected choose_required) REQUIRED_FIELDS.
Proof.
  unfold missing. apply filter_ext_in_iff. intros k Hk.
  rewrite selected_required by (by apply list_elem_of_In).
  by rewrite negb_involutive.
Qed.

(** C5. When the apply button is pressed while some required field has no
    selected column, both versions of the function show one error whose text
    ends with the comma-separated names of exactly the required fields
    without a selection, and return no frame and no mapping: nothing is
    renamed. *)
Theorem unmapped_required_field_refuses (df : data_frame) (field : ustr) :
  In field REQUIRED_FIELDS ->
  choose_required field = placeholder_required ->
  let missing_fields :=
    List.filter (unselected choose_required) REQUIRED_FIELDS in
  In field missing_fields
  /\ (forall f, In f missing_fields <->
                In f REQUIRED_FIELDS
                /\ choose_required f = placeholder_required)
  /\ apply_column_mapping table choose_required choose_recommended df true
     = ([StError (msg_required_missing ++ str_join (u ", ") missing_fields)],
        None)
  /\ apply_column_mapping_cm table choose_required choose_recommended df true
     = ([StError (msg_required_missing ++ str_join (u ", ") missing_fields)],
        Some None).
Proof.
  intros Hin Hsel missing_fields.
  assert (Hspec : forall f, In f missing_fields <->
            In f REQUIRED_FIELDS /\ choose_required f = placeholder_required).
  { intros f. unfold missing_fields, unselected.
    rewrite filter_In, ustr_eqb_eq. tauto. }
  assert (Hf : In field missing_fields) by (apply Hspec; tauto).
  split; [exact Hf|]. split; [exact Hspec|].
  unfold apply_column_mapping, apply_column_mapping_cm.
  rewrite missing_unselected.
  change (List.filter (unselected choose_required) REQUIRED_FIELDS)
    with missing_fields.
  clearbody missing_fields.
  destruct missing_fields as [|m ms]; [destruct Hf|]. split; reflexivity.
Qed.

End MappingFacts.

(** The theorem at an operator who left Cost on the placeholder. *)
Lemma unmapped_required_field_refuses_witness :
  apply_column_mapping STANDARD_FIELDS choose_all_but_cost choose_none [] true
  = ([StError (msg_required_missing ++ u "Cost")], None).
Proof.
  exact (proj1 (proj2 (proj2
    (unmapped_required_field_refuses STANDARD_FIELDS choose_all_but_cost
       choose_none [] (u "Cost")
       ltac:(vm_compute; tauto) ltac:(vm_compute; reflexivity))))).
Defined.

(** ** The matcher behind the fuzzy rule *)

Section SequenceMatcherFacts.
Import SequenceMatcher.

Lemma next_row_bound (x : N) (b : ustr) (shifted : list nat) (n : nat) :
  Forall (fun k => (k <= n)%nat) shifted ->
  Forall (fun k => (k <= S n)%nat) (next_row x b shifted).
Proof.
  revert shifted. induction b as [|bj b IH]; intros [|p sh] H; simpl;
    try constructor.
  - apply Forall_cons in H as [Hp _]. destruct (bj =? x)%N; lia.
  - apply Forall_cons in H as [_ H]. by apply IH.
Qed.

Lemma scan_row_bound (i j : nat) (row : list nat) (best : nat * nat * nat) :
  Forall (fun k => (k <= S i)%nat) row ->
  (fst (fst best) + snd best <= S i)%nat ->
  (fst (fst (scan_row i j row best)) + snd (scan_row i j row best) <= S i)%nat.
Proof.
  revert j best. induction row as [|k row IH]; intros j best Hrow Hbest;
    [done|].
  apply Forall_cons in Hrow as [Hk Hrow]. cbn [scan_row].
  apply IH; [done|]. destruct (snd best <? k)%nat; [simpl; lia|done].
Qed.

Lemma flm_loop_bound (a b : ustr) (i : nat) (prev : list nat)
    (best : nat * nat * nat) :
  Forall (fun k => (k <= i)%nat) prev ->
  (fst (fst best) + snd best <= i)%nat ->
  (fst (fst (SequenceMatcher.flm_loop a b i prev best)) + snd (SequenceMatcher.flm_loop a b i prev best)
   <= i + length a)%nat.
Proof.
  revert i prev best. induction a as [|x a IH]; intros i prev best Hp Hb.
  - simpl. lia.
  - cbn [flm_loop length].
    assert (Hrow : Forall (fun k => (k <= S i)%nat) (next_row x b (O :: prev))).
    { apply next_row_bound. constructor; [lia|done]. }
    specialize (IH (S i) _ (scan_row i 0 (next_row x b (O :: prev)) best) Hrow).
    etransitivity; [apply IH|lia].
    apply scan_row_bound; [done|lia].
Qed.

Lemma find_longest_match_bound (a b : ustr) :
  (fst (fst (find_longest_match a b)) + snd (find_longest_match a b)
   <= length a)%nat.
Proof.
  unfold find_longest_match.
  pose proof (flm_loop_bound a b 0 (repeat O (length b)) (O, O, O)) as H.
  apply H; [|simpl; lia].
  apply Forall_forall. intros k Hk. apply list_elem_of_In, repeat_spec in Hk. lia.
Qed.

(** The fuel [ratio] gives to [matches] is enough: more fuel does not
    change the count. *)
Lemma matches_fuel_enough (fuel : nat) (a b : ustr) :
  (length a <= fuel)%nat -> matches fuel a b = matches (length a) a b.
Proof.
  revert a b. induction fuel as [fuel IH] using lt_wf_ind. intros a b Hlen.
  destruct fuel as [|f].
  - by replace (length a) with O by lia.
  - pose proof (find_longest_match_bound a b) as Hb.
    cbn [matches].
    destruct (find_longest_match a b) as [[i j] k] eqn:Hflm.
    cbn [fst snd] in Hb.
    destruct k as [|k'].
    + destruct (length a) as [|n] eqn:Hn; [reflexivity|].
      cbn [matches]. rewrite Hflm. reflexivity.
    + destruct (length a) as [|n] eqn:Hn; [lia|].
      cbn [matches]. rewrite Hflm. cbn iota beta.
      assert (H1 : (length (firstn i a) <= n)%nat).
      { rewrite length_firstn. lia. }
      assert (H2 : (length (skipn (i + S k') a) <= n)%nat).
      { rewrite length_skipn. lia. }
      rewrite (IH f ltac:(lia) (firstn i a)) by lia.
      rewrite (IH f ltac:(lia) (skipn (i + S k') a)) by lia.
      rewrite (IH n ltac:(lia) (firstn i a)) by lia.
      rewrite (IH n ltac:(lia) (skipn (i + S k') a)) by lia.
      reflexivity.
Qed.

End SequenceMatcherFacts.

(** ** Field resolution *)

Section ResolverFacts.
Variable lower : ustr -> ustr.

Lemma rule_match_two_phase (fields : list (ustr * list ustr)) (cl : ustr) :
  shadow_free lower fields = true ->
  rule_match lower cl fields
  = match spec_exact lower fields cl with
    | Some f => Some f
    | None => spec_alias lower fields cl
    end.
Proof.
  unfold spec_exact, spec_alias.
  induction fields as [|[name alts] rest IH]; [done|].
  cbn [shadow_free rule_match List.find fst snd]. intros Hsf.
  apply andb_true_iff in Hsf as [Hhere Hrest].
  destruct (ustr_eqb cl (lower name)) eqn:Hex; [done|].
  destruct (existsb _ alts) eqn:Hal.
  - (* an alias of this field matches: no later name can be equal *)
    destruct (List.find _ rest) as [[name' alts']|] eqn:Hfind; [|done].
    exfalso. apply find_some in Hfind as [Hin Heq].
    apply ustr_eqb_eq in Heq. simpl in Heq.
    rewrite forallb_forall in Hhere. specialize (Hhere _ Hin).
    rewrite forallb_forall in Hhere.
    apply existsb_exists in Hal as (alt & Halt & Hc).
    specialize (Hhere _ Halt). simpl in Hhere. rewrite <- Heq, Hc in Hhere.
    discriminate.
  - by apply IH.
Qed.

Lemma fuzzy_match_flat (table : list (ustr * list ustr)) (cl : ustr)
    (st : option ustr * Q) :
  fold_left
    (fun st '(std_field, alternatives) =>
       fold_left (fun st alt => fuzzy_update lower cl std_field alt st)
                 alternatives
                 (fuzzy_update lower cl std_field std_field st))
    table st
  = fold_left fuzzy_step (spec_candidates lower table cl) st.
Proof.
  unfold spec_candidates. revert st.
  induction table as [|[name alts] rest IH]; intros st; [done|].
  cbn [fold_left flat_map fst snd List.map]. rewrite fold_left_app, IH.
  f_equal. cbn [fold_left].
  change (fuzzy_step st (name, SequenceMatcher.ratio cl (lower name)))
    with (fuzzy_update lower cl name name st).
  generalize (fuzzy_update lower cl name name st). clear.
  induction alts as [|a alts IH]; intros st; [done|].
  cbn [fold_left List.map]. by rewrite IH.
Qed.

Lemma score_gt_spec (x y : Q) : score_gt x y = true <-> (y < x)%Q.
Proof.
  unfold score_gt. rewrite negb_true_iff. split.
  - intros H. apply Qnot_le_lt. intros Hle.
    apply Qle_bool_iff in Hle. congruence.
  - intros H. apply not_true_is_false. intros Hle.
    apply Qle_bool_iff in Hle. by apply Qlt_not_le in H.
Qed.

Lemma score_gt_false (x y : Q) : score_gt x y = false <-> (x <= y)%Q.
Proof.
  unfold score_gt. rewrite negb_false_iff. apply Qle_bool_iff.
Qed.

Lemma fold_fuzzy_step_best (cands : list (ustr * Q)) (st : option ustr * Q) :
  fold_left fuzzy_step cands st
  = match spec_best cands with
    | Some (f, s) => if score_gt s (snd st) then (Some f, s) else st
    | None => st
    end.
Proof.
  revert st. induction cands as [|[f s] rest IH]; intros [b0 s0]; [done|].
  cbn [fold_left spec_best]. rewrite IH. unfold fuzzy_step. cbn [fst snd].
  destruct (spec_best rest) as [[fb sb]|]; cbn [snd].
  - destruct (score_gt s s0) eqn:E1; cbn [snd];
      destruct (Qle_bool sb s) eqn:E2; cbn [snd].
    + rewrite E1.
      assert (score_gt sb s = false) as -> by (by apply score_gt_false, Qle_bool_iff).
      done.
    + assert (score_gt sb s = true) as ->.
      { unfold score_gt. by rewrite E2. }
      assert (score_gt sb s0 = true) as ->; [|done].
      apply score_gt_spec. apply score_gt_spec in E1.
      eapply Qlt_trans; [exact E1|]. apply Qnot_le_lt. intros Hle.
      apply Qle_bool_iff in Hle. congruence.
    + rewrite E1.
      assert (score_gt sb s0 = false) as ->; [|done].
      apply score_gt_false. apply score_gt_false in E1.
      apply Qle_bool_iff in E2. by eapply Qle_trans.
    + done.
  - by destruct (score_gt s s0).
Qed.

Lemma spec_best_In (cands : list (ustr * Q)) (b : ustr * Q) :
  spec_best cands = Some b -> In b cands.
Proof.
  revert b. induction cands as [|c rest IH]; intros b; [done|].
  cbn [spec_best]. destruct (spec_best rest) as [b'|].
  - destruct (Qle_bool _ _); intros [= <-]; [by left|right; by apply IH].
  - intros [= <-]. by left.
Qed.

Lemma spec_best_max (cands : list (ustr * Q)) (b : ustr * Q) :
  spec_best cands = Some b ->
  Forall (fun c => (snd c <= snd b)%Q) cands.
Proof.
  revert b. induction cands as [|c rest IH]; intros b; [constructor|].
  cbn [spec_best]. destruct (spec_best rest) as [b'|] eqn:Hb.
  - destruct (Qle_bool (snd b') (snd c)) eqn:E; intros [= <-].
    + apply Qle_bool_iff in E. constructor; [apply Qle_refl|].
      eapply Forall_impl; [by apply IH|]. intros x Hx. simpl in Hx.
      by eapply Qle_trans.
    + constructor; [|by apply IH].
      apply Qlt_le_weak, Qnot_le_lt. intros Hle.
      apply Qle_bool_iff in Hle. congruence.
  - intros [= <-]. destruct rest as [|c' rest'].
    + constructor; [apply Qle_refl|constructor].
    + exfalso. cbn [spec_best] in Hb.
      destruct (spec_best rest'); [destruct (Qle_bool _ _)|]; discriminate.
Qed.

Lemma candidates_fields (table : list (ustr * list ustr)) (cl : ustr)
    (c : ustr * Q) :
  In c (spec_candidates lower table cl) -> In (fst c) (List.map fst table).
Proof.
  unfold spec_candidates. rewrite in_flat_map. intros ([name alts] & Hf & Hc).
  apply in_map_iff in Hc as (x & <- & _). simpl.
  apply in_map_iff. by exists (name, alts).
Qed.

(** The function of the source and the three-rule reading agree on every
    label, for a table that passes the two checks. *)
Lemma suggest_one_refines (table : list (ustr * list ustr)) (col : ustr) :
  shadow_free lower table = true ->
  names_ok lower table = true ->
  suggest_one lower table col = spec_resolve lower table col.
Proof.
  intros Hsf Hnames. unfold suggest_one, spec_resolve.
  rewrite (rule_match_two_phase table (lower col) Hsf).
  destruct (spec_exact lower table (lower col)); [done|].
  destruct (spec_alias lower table (lower col)); [done|].
  unfold fuzzy_match. rewrite fuzzy_match_flat, fold_fuzzy_step_best.
  cbn [snd].
  destruct (spec_best _) as [[f s]|] eqn:Hbest; [|done].
  destruct (score_gt s (7 # 10)); [|done]. cbn [fst].
  apply spec_best_In, candidates_fields in Hbest. cbn [fst] in Hbest.
  apply andb_true_iff in Hnames as [_ Hne].
  rewrite forallb_forall in Hne.
  apply in_map_iff in Hbest as (fld & <- & Hin).
  specialize (Hne _ Hin). apply negb_true_iff in Hne. by rewrite Hne.
Qed.

(** A label equal to a field name up to case resolves to that field. *)
Lemma suggest_one_exact (table : list (ustr * list ustr)) (col name : ustr) :
  shadow_free lower table = true ->
  names_ok lower table = true ->
  In name (List.map fst table) ->
  lower col = lower name ->
  suggest_one lower table col = name.
Proof.
  intros Hsf Hnames Hin Hcol. unfold suggest_one.
  rewrite (rule_match_two_phase table (lower col) Hsf).
  apply andb_true_iff in Hnames as [Hnd _].
  apply bool_decide_eq_true in Hnd.
  assert (spec_exact lower table (lower col) = Some name) as ->; [|done].
  unfold spec_exact. rewrite Hcol. clear Hcol Hsf.
  induction table as [|[n alts] rest IH]; [destruct Hin|].
  cbn [List.find fst]. cbn [List.map fst] in Hnd, Hin.
  apply NoDup_cons in Hnd as [Hn Hnd].
  destruct (ustr_eqb (lower name) (lower n)) eqn:E.
  - simpl. f_equal. destruct Hin as [->|Hin]; [done|].
    exfalso. apply Hn. apply ustr_eqb_eq in E. rewrite <- E.
    apply list_elem_of_In. apply in_map_iff in Hin as (f & <- & Hf).
    apply in_map_iff. by exists f.
  - destruct Hin as [->|Hin]; [by rewrite ustr_eqb_refl in E|].
    by apply IH.
Qed.

Lemma mapping_lookup (table : list (ustr * list ustr))
    (df_columns : list ustr) (col : ustr) :
  suggest_column_mapping_with_rules lower table df_columns !! col
  = if bool_decide (col ∈ df_columns)
    then Some (suggest_one lower table col) else None.
Proof.
  unfold suggest_column_mapping_with_rules.
  induction df_columns as [|c cols IH] using rev_ind; [done|].
  rewrite fold_left_app. cbn [fold_left].
  destruct (decide (c = col)) as [->|Hne].
  - rewrite lookup_insert_eq, bool_decide_eq_true_2; [done|].
    apply elem_of_app. right. by left.
  - rewrite lookup_insert_ne, IH by done.
    apply f_equal with (f := fun (b : bool) => if b then _ else _).
    apply bool_decide_ext. rewrite elem_of_app, list_elem_of_singleton.
    split; [tauto|]. intros [Hc|Hc]; [exact Hc|congruence].
Qed.

End ResolverFacts.


(** The best candidate has the greatest score and is the first to have
    it. *)
Lemma spec_best_first_max (cands : list (ustr * Q)) (b : ustr * Q) :
  spec_best cands = Some b ->
  exists pre post,
    cands = pre ++ b :: post
    /\ Forall (fun c => (snd c < snd b)%Q) pre
    /\ Forall (fun c => (snd c <= snd b)%Q) post.
Proof.
  revert b. induction cands as [|c rest IH]; intros b; [done|].
  cbn [spec_best]. destruct (spec_best rest) as [b'|] eqn:Hb.
  - destruct (Qle_bool (snd b') (snd c)) eqn:E; intros [= <-].
    + exists [], rest. split; [done|]. split; [constructor|].
      apply Qle_bool_iff in E.
      eapply Forall_impl; [by apply spec_best_max|].
      intros x Hx. simpl in Hx. by eapply Qle_trans.
    + destruct (IH _ eq_refl) as (pre & post & -> & Hpre & Hpost).
      exists (c :: pre), post. split; [done|]. split; [|done].
      constructor; [|done]. apply Qnot_le_lt. intros Hle.
      apply Qle_bool_iff in Hle. congruence.
  - intros [= <-]. destruct rest as [|c' rest'].
    + exists [], []. split; [done|]. split; constructor.
    + exfalso. cbn [spec_best] in Hb.
      destruct (spec_best rest'); [destruct (Qle_bool _ _)|]; discriminate.
Qed.

Lemma table_strings_name (fields : list (ustr * list ustr))
    (f : ustr * list ustr) :
  In f fields -> In (fst f) (table_strings fields).
Proof.
  intros H. unfold table_strings. apply in_flat_map. exists f.
  split; [done|by left].
Qed.

Lemma table_strings_alias (fields : list (ustr * list ustr))
    (f : ustr * list ustr) (alt : ustr) :
  In f fields -> In alt (snd f) -> In alt (table_strings fields).
Proof.
  intros H Ha. unfold table_strings. apply in_flat_map. exists f.
  split; [done|by right].
Qed.

Lemma shadow_free_ext (lower lower' : ustr -> ustr)
    (fields : list (ustr * list ustr)) :
  (forall s, In s (table_strings fields) -> lower s = lower' s) ->
  shadow_free lower fields = shadow_free lower' fields.
Proof.
  induction fields as [|f rest IH]; intros H; [done|].
  cbn [shadow_free]. f_equal.
  - apply forallb_ext_in. intros f' Hf'. apply forallb_ext_in. intros alt Ha.
    rewrite (H alt), (H (fst f')); [done|..].
    + apply (table_strings_name (f :: rest)). by right.
    + apply (table_strings_alias (f :: rest) f); [by left|done].
  - apply IH. intros s Hs. apply H. cbn [table_strings flat_map].
    apply in_or_app. by right.
Qed.

Lemma names_ok_ext (lower lower' : ustr -> ustr)
    (fields : list (ustr * list ustr)) :
  (forall s, In s (table_strings fields) -> lower s = lower' s) ->
  names_ok lower fields = names_ok lower' fields.
Proof.
  intros H. unfold names_ok. f_equal.
  assert (List.map (fun f => lower (fst f)) fields
          = List.map (fun f => lower' (fst f)) fields) as ->; [|done].
  apply map_ext_in. intros f Hf. apply H. by apply table_strings_name.
Qed.

Lemma tables_plain :
  forallb (fun t => forallb (forallb plain_cp) (table_strings t)) tables = true.
Proof. vm_compute. reflexivity. Qed.

Lemma tables_checked :
  forallb (fun t => shadow_free ascii_lower t && names_ok ascii_lower t)
          tables = true.
Proof. vm_compute. reflexivity. Qed.

Section PythonLower.

Variable lower : ustr -> ustr.

(** [str.lower()] maps a string of ASCII and caseless characters letter by
    letter. *)
Hypothesis lower_plain :
  forall s, forallb plain_cp s = true -> lower s = ascii_lower s.

Lemma tables_pass (table : list (ustr * list ustr)) :
  In table tables ->
  shadow_free lower table = true /\ names_ok lower table = true.
Proof.
  intros Hin.
  pose proof tables_plain as Hp. rewrite forallb_forall in Hp.
  specialize (Hp _ Hin). rewrite forallb_forall in Hp.
  pose proof tables_checked as Hc. rewrite forallb_forall in Hc.
  specialize (Hc _ Hin). apply andb_true_iff in Hc as [Hc1 Hc2].
  rewrite (shadow_free_ext lower ascii_lower), (names_ok_ext lower ascii_lower);
    [done|..]; intros s Hs; apply lower_plain, Hp, Hs.
Qed.

(** C3. For the tables of both files and every column label, the
    function of the source computes what the three rules give in priority
    order: the first field whose name equals the label up to case; else the
    first field one of whose aliases occurs in the lower-cased label; else,
    among all field names and aliases scored by similarity, the field of the
    best score (the first one among equal scores) provided the score is
    greater than 0.7; else "unknown".  The mapping holds that value for
    every label it was given, and a label equal up to case to a field name
    is mapped to that field. *)
Theorem rules_resolve_in_priority_order :
  Forall
    (fun table =>
       (forall col, suggest_one lower table col = spec_resolve lower table col)
       /\ (forall df_columns col,
             col ∈ df_columns ->
             suggest_column_mapping_with_rules lower table df_columns !! col
             = Some (spec_resolve lower table col))
       /\ (forall df_columns col name,
             col ∈ df_columns ->
             In name (List.map fst table) ->
             lower col = lower name ->
             suggest_column_mapping_with_rules lower table df_columns !! col
             = Some name))
    tables.
Proof.
  apply Forall_forall. intros table Hin. apply list_elem_of_In in Hin.
  destruct (tables_pass table Hin) as [Hsf Hnames].
  split; [|split].
  - intros col. by apply suggest_one_refines.
  - intros cols col Hcol. rewrite mapping_lookup, bool_decide_eq_true_2 by done.
    f_equal. by apply suggest_one_refines.
  - intros cols col name Hcol Hname Hlow.
    rewrite mapping_lookup, bool_decide_eq_true_2 by done.
    f_equal. by apply suggest_one_exact.
Qed.

End PythonLower.

(** The theorem at the label "CLICKS", with ASCII lower-casing. *)
Lemma rules_resolve_in_priority_order_witness :
  suggest_column_mapping_with_rules ascii_lower STANDARD_FIELDS
    [u "CLICKS"; u "Total Cost"] !! u "CLICKS"
  = Some (u "Clicks").
Proof.
  pose proof (rules_resolve_in_priority_order ascii_lower
                (fun s _ => eq_refl)) as H.
  apply Forall_cons in H as [(_ & _ & H) _].
  apply (H [u "CLICKS"; u "Total Cost"] (u "CLICKS") (u "Clicks")).
  - by left.
  - vm_compute. tauto.
  - vm_compute. reflexivity.
Defined.

Example resolver_examples :
  List.map (fun c => suggest_one ascii_lower STANDARD_FIELDS (u c))
           ["Keyword"; "CLICKS"; "Total Cost"; "konversion"; "date";
            "クリック数"]%string
  = [u "Keyword"; u "Clicks"; u "Cost"; u "Conversions"; u "unknown";
     u "Clicks"].
Proof. vm_compute. reflexivity. Qed.

(* ===================================================================== *)
(** * Further properties *)
(* ===================================================================== *)

(** ** The rows the selection keeps *)

Lemma high_cost_df_unfold (df : list krow) (t : Q) :
  high_cost_df df t
  = List.map fst
      (List.filter (fun rp => fle (snd rp) (Fin t))
         (combine (sort_values_cost_desc df)
                  (cumulative_cost_percent (sort_values_cost_desc df)))).
Proof. reflexivity. Qed.

Lemma map_fst_filter_sublist {A B} (f : A * B -> bool) (l : list (A * B)) :
  sublist (List.map fst (List.filter f l)) (List.map fst l).
Proof.
  induction l as [|x l IH]; simpl; [constructor|].
  destruct (f x); simpl; by constructor.
Qed.

Lemma map_fst_combine_take {A B} (l : list A) (k : list B) :
  List.map fst (combine l k) = take (length k) l.
Proof.
  revert k. induction l as [|x l IH]; intros [|y k]; simpl; try done.
  by rewrite IH.
Qed.

Lemma length_cumsum_from (acc : float) (l : list float) :
  length (cumsum_from acc l) = length l.
Proof.
  revert acc. induction l as [|x l IH]; intros acc; simpl; [done|].
  destruct (is_nan x); simpl; by rewrite IH.
Qed.

Lemma length_cumulative_cost_percent (rows : list krow) :
  length (cumulative_cost_percent rows) = length rows.
Proof.
  unfold cumulative_cost_percent, cumsum.
  by rewrite length_map, length_cumsum_from, length_map.
Qed.

Lemma combine_percent_fst (rows : list krow) :
  List.map fst (combine rows (cumulative_cost_percent rows)) = rows.
Proof.
  rewrite map_fst_combine_take, length_cumulative_cost_percent.
  by apply take_ge.
Qed.

Lemma high_cost_df_sublist (df : list krow) (t : Q) :
  sublist (high_cost_df df t) (sort_values_cost_desc df).
Proof.
  rewrite high_cost_df_unfold.
  pose proof (map_fst_filter_sublist
                (fun rp : krow * float => fle (snd rp) (Fin t))
                (combine (sort_values_cost_desc df)
                   (cumulative_cost_percent (sort_values_cost_desc df)))) as H.
  by rewrite combine_percent_fst in H.
Qed.

Lemma StronglySorted_sublist {A} (R : A -> A -> Prop) (l k : list A) :
  sublist l k -> StronglySorted R k -> StronglySorted R l.
Proof.
  induction 1 as [|x l k Hs IH|x l k Hs IH]; intros Hk.
  - constructor.
  - apply StronglySorted_inv in Hk as [Hk Hx]. constructor; [by apply IH|].
    apply Forall_forall. intros y Hy. rewrite Forall_forall in Hx. apply Hx.
    by eapply sublist_submseteq, elem_of_submseteq in Hs.
  - apply StronglySorted_inv in Hk as [Hk _]. by apply IH.
Qed.

(** X8. The selected rows are rows of the input, none taken more often than
    it occurs there, listed by falling cost. *)
Theorem high_cost_df_rows_of_input (df : list krow) (cost_threshold : Q) :
  high_cost_df df cost_threshold ⊆+ df
  /\ StronglySorted (fun a b => cost_before a b = true)
                    (high_cost_df df cost_threshold).
Proof.
  split.
  - rewrite <- (sort_values_cost_desc_perm df) at 2.
    apply sublist_submseteq, high_cost_df_sublist.
  - eapply StronglySorted_sublist; [apply high_cost_df_sublist|].
    apply sort_values_cost_desc_sorted.
Qed.

Lemma fle_Fin_trans (p : float) (t1 t2 : Q) :
  (t1 <= t2)%Q -> fle p (Fin t1) = true -> fle p (Fin t2) = true.
Proof.
  intros Ht. destruct p as [x| | |]; try done. simpl.
  rewrite !Qle_bool_iff. intros. by eapply Qle_trans.
Qed.

Lemma filter_mono_sublist {A} (f g : A -> bool) (l : list A) :
  (forall x, f x = true -> g x = true) ->
  sublist (List.filter f l) (List.filter g l).
Proof.
  intros H. induction l as [|x l IH]; simpl; [constructor|].
  destruct (f x) eqn:E.
  - rewrite (H x E). by constructor.
  - destruct (g x); [by constructor|done].
Qed.

Lemma sublist_map {A B} (f : A -> B) (l k : list A) :
  sublist l k -> sublist (List.map f l) (List.map f k).
Proof. induction 1; simpl; by constructor. Qed.

(** X9. Raising the threshold never drops a row. *)
Theorem high_cost_df_monotone (df : list krow) (t1 t2 : Q) :
  (t1 <= t2)%Q ->
  sublist (high_cost_df df t1) (high_cost_df df t2).
Proof.
  intros Ht. rewrite !high_cost_df_unfold. apply sublist_map.
  apply filter_mono_sublist. intros [r p]. simpl. by apply fle_Fin_trans.
Qed.

(** The step of [Series.sum()]. *)
(** ** Running sums and cumulative percentages of costs *)

Lemma nansum_fold (l : list float) : nansum l = fold_left sum_step l (Fin 0).
Proof. reflexivity. Qed.

Lemma Qsign_nonneg (q : Q) : Qsign q <> Lt <-> (0 <= q)%Q.
Proof.
  unfold Qsign, Qle. destruct q as [n d]. simpl.
  destruct (Z.compare_spec n 0); split; intros; try lia; try done.
Qed.

Lemma Qsign_pos (q : Q) : Qsign q = Gt <-> (0 < q)%Q.
Proof.
  unfold Qsign, Qlt. destruct q as [n d]. simpl.
  destruct (Z.compare_spec n 0); split; intros; try lia; try done.
Qed.

Lemma Qsign_zero (q : Q) : Qsign q = Eq <-> (q == 0)%Q.
Proof.
  unfold Qsign, Qeq. destruct q as [n d]. simpl.
  destruct (Z.compare_spec n 0); split; intros; try lia; try done.
Qed.

Lemma is_nonneg_Fin (x : float) :
  is_nonneg x = true <-> exists q, x = Fin q /\ (0 <= q)%Q.
Proof.
  destruct x as [q| | |]; simpl; split; try done;
    try (by intros (? & ? & _)).
  - intros H. exists q. split; [done|]. apply Qsign_nonneg.
    by destruct (Qsign q).
  - intros (q' & [= <-] & Hq). apply Qsign_nonneg in Hq.
    by destruct (Qsign q).
Qed.

Lemma fold_sum_ge (l : list float) (a : Q) :
  Forall (fun x => is_nonneg x = true) l ->
  exists b, fold_left sum_step l (Fin a) = Fin b /\ (a <= b)%Q.
Proof.
  intros H. revert a. induction H as [|x l Hx Hl IH]; intros a.
  - exists a. split; [done|apply Qle_refl].
  - apply is_nonneg_Fin in Hx as (c & -> & Hc). cbn [fold_left].
    change (sum_step (Fin a) (Fin c)) with (Fin (Qred (a + c))).
    destruct (IH (Qred (a + c))) as (b & -> & Hb). exists b. split; [done|].
    rewrite Qred_correct in Hb. eapply Qle_trans; [|exact Hb].
    rewrite <- (Qplus_0_r a) at 1. by apply Qplus_le_r.
Qed.

Lemma fold_sum_zero (l : list float) (a : Q) :
  Forall (fun x => is_zero x = true) l -> (a == 0)%Q ->
  exists b, fold_left sum_step l (Fin a) = Fin b /\ (b == 0)%Q.
Proof.
  intros H. revert a. induction H as [|x l Hx Hl IH]; intros a Ha.
  - by exists a.
  - destruct x as [c| | |]; try done. simpl in Hx.
    assert (c == 0)%Q by (apply Qsign_zero; by destruct (Qsign c)).
    cbn [fold_left].
    change (sum_step (Fin a) (Fin c)) with (Fin (Qred (a + c))). apply IH.
    rewrite Qred_correct, Ha, H. reflexivity.
Qed.

(** The running sums of non-negative costs rise, stay finite and at or above
    the start, and never pass the total. *)
Lemma cumsum_from_nonneg (l : list float) (a : Q) :
  Forall (fun x => is_nonneg x = true) l ->
  StronglySorted (fun x y => fle x y = true) (cumsum_from (Fin a) l)
  /\ Forall (fun x => exists q, x = Fin q /\ (a <= q)%Q
                      /\ fle x (fold_left sum_step l (Fin a)) = true)
            (cumsum_from (Fin a) l).
Proof.
  intros H. revert a. induction H as [|x l Hx Hl IH]; intros a.
  - split; constructor.
  - apply is_nonneg_Fin in Hx as (c & -> & Hc).
    cbn [cumsum_from is_nan fold_left].
    change (sum_step (Fin a) (Fin c)) with (Fin (Qred (a + c))).
    change (fadd (Fin a) (Fin c)) with (Fin (Qred (a + c))). cbv zeta.
    destruct (IH (Qred (a + c))) as [Hs Hb].
    assert (Ha : (a <= Qred (a + c))%Q).
    { rewrite Qred_correct. rewrite <- (Qplus_0_r a) at 1.
      by apply Qplus_le_r. }
    split.
    + constructor; [done|].
      eapply Forall_impl; [exact Hb|]. intros y (q & -> & Hq & _). simpl.
      by apply Qle_bool_iff.
    + constructor.
      * exists (Qred (a + c)). split; [done|]. split; [done|].
        destruct (fold_sum_ge l (Qred (a + c)) Hl) as (b & -> & Hb').
        simpl. by apply Qle_bool_iff.
      * eapply Forall_impl; [exact Hb|]. intros y (q & -> & Hq & Hy).
        exists q. split; [done|]. split; [|done]. by eapply Qle_trans.
Qed.

Lemma percent_of_pos (T x : Q) :
  (0 < T)%Q ->
  percent_of (Fin T) (Fin x) = Fin (Qred (Qred (x / T) * 100)).
Proof.
  intros HT. apply Qsign_pos in HT. unfold percent_of. simpl. by rewrite HT.
Qed.

Lemma percent_of_mono (T x y : Q) :
  (0 < T)%Q -> (x <= y)%Q ->
  fle (percent_of (Fin T) (Fin x)) (percent_of (Fin T) (Fin y)) = true.
Proof.
  intros HT Hxy. rewrite !percent_of_pos by done. simpl.
  apply Qle_bool_iff. rewrite !Qred_correct.
  apply Qmult_le_compat_r; [|done]. unfold Qdiv.
  apply Qmult_le_compat_r; [done|]. apply Qlt_le_weak, Qinv_lt_0_compat, HT.
Qed.

Lemma percent_of_total (T : Q) :
  (0 < T)%Q -> fle (percent_of (Fin T) (Fin T)) (Fin 100) = true.
Proof.
  intros HT. rewrite percent_of_pos by done. simpl.
  apply Qle_bool_iff. rewrite !Qred_correct.
  assert (T / T == 1)%Q as ->.
  { unfold Qdiv. apply Qmult_inv_r. intros E. rewrite E in HT.
    by apply Qlt_irrefl in HT. }
  done.
Qed.

Lemma percent_of_zero_total (T x : Q) (t : Q) :
  (T == 0)%Q -> (0 <= x)%Q ->
  fle (percent_of (Fin T) (Fin x)) (Fin t) = false.
Proof.
  intros HT Hx. apply Qsign_zero in HT. apply Qsign_nonneg in Hx.
  unfold percent_of. simpl. rewrite HT. by destruct (Qsign x).
Qed.

Lemma StronglySorted_map {A B} (R : B -> B -> Prop) (f : A -> B)
    (l : list A) :
  StronglySorted (fun x y => R (f x) (f y)) l ->
  StronglySorted R (List.map f l).
Proof.
  induction 1 as [|x l Hl IH Hx]; simpl; constructor; [done|].
  apply Forall_forall. intros y Hy.
  apply list_elem_of_In, in_map_iff in Hy as (z & <- & Hz).
  rewrite Forall_forall in Hx. by apply Hx, list_elem_of_In.
Qed.

Lemma StronglySorted_impl_Forall {A} (R R' : A -> A -> Prop) (P : A -> Prop)
    (l : list A) :
  (forall x y, P x -> P y -> R x y -> R' x y) ->
  Forall P l -> StronglySorted R l -> StronglySorted R' l.
Proof.
  intros HR HP. induction 1 as [|x l Hl IH Hx]; [constructor|].
  apply Forall_cons in HP as [Px Pl]. constructor; [by apply IH|].
  rewrite Forall_forall in Hx, Pl. apply Forall_forall. intros y Hy.
  apply HR; [done|by apply Pl|by apply Hx].
Qed.

Section NonNegativeCosts.

Variable df : list krow.
Hypothesis costs_nonneg : Forall (fun r => is_nonneg (Cost r) = true) df.

Lemma sorted_costs_nonneg :
  Forall (fun x => is_nonneg x = true)
         (List.map Cost (sort_values_cost_desc df)).
Proof.
  apply Forall_forall. intros x Hx.
  apply list_elem_of_In, in_map_iff in Hx as (r & <- & Hr).
  rewrite Forall_forall in costs_nonneg. apply costs_nonneg.
  rewrite <- (sort_values_cost_desc_perm df). by apply list_elem_of_In.
Qed.

Lemma total_cost_nonneg :
  exists T, nansum (List.map Cost (sort_values_cost_desc df)) = Fin T
            /\ (0 <= T)%Q.
Proof. rewrite nansum_fold. apply fold_sum_ge, sorted_costs_nonneg. Qed.

Lemma cumulative_percents :
  cumulative_cost_percent (sort_values_cost_desc df)
  = List.map
      (percent_of (nansum (List.map Cost (sort_values_cost_desc df))))
      (cumsum_from (Fin 0) (List.map Cost (sort_values_cost_desc df))).
Proof. reflexivity. Qed.

Lemma percents_sorted_or_undefined (t : Q) :
  (exists T, nansum (List.map Cost (sort_values_cost_desc df)) = Fin T
     /\ (0 < T)%Q
     /\ StronglySorted (fun x y => fle x y = true)
                       (cumulative_cost_percent (sort_values_cost_desc df))
     /\ Forall (fun p => fle p (Fin 100) = true)
               (cumulative_cost_percent (sort_values_cost_desc df)))
  \/ (is_zero (nansum (List.map Cost (sort_values_cost_desc df))) = true
      /\ Forall (fun p => fle p (Fin t) = false)
                (cumulative_cost_percent (sort_values_cost_desc df))).
Proof.
  destruct total_cost_nonneg as (T & HT & HT0).
  destruct (cumsum_from_nonneg (List.map Cost (sort_values_cost_desc df)) 0
              sorted_costs_nonneg) as [Hs Hb].
  rewrite <- nansum_fold, HT in Hb.
  rewrite cumulative_percents, HT.
  destruct (Qlt_le_dec 0 T) as [Hpos|Hle].
  - left. exists T. split; [done|]. split; [done|]. split.
    + apply StronglySorted_map.
      refine (StronglySorted_impl_Forall _ _ _ _ _ Hb Hs).
      intros x y (qx & -> & _ & _) (qy & -> & _ & _) Hxy. simpl in Hxy.
      apply percent_of_mono; [done|]. by apply Qle_bool_iff.
    + apply Forall_forall. intros p Hp.
      apply list_elem_of_In, in_map_iff in Hp as (x & <- & Hx).
      rewrite Forall_forall in Hb.
      destruct (Hb x (proj2 (list_elem_of_In _ _) Hx)) as (q & -> & _ & Hq).
      simpl in Hq. eapply fle_trans; [|by apply percent_of_total].
      apply percent_of_mono; [done|]. by apply Qle_bool_iff.
  - right. assert (T == 0)%Q by (by apply Qle_antisym).
    split.
    + simpl. apply Qsign_zero in H. by rewrite H.
    + apply Forall_forall. intros p Hp.
      apply list_elem_of_In, in_map_iff in Hp as (x & <- & Hx).
      rewrite Forall_forall in Hb.
      destruct (Hb x (proj2 (list_elem_of_In _ _) Hx)) as (q & -> & Hq & _).
      by apply percent_of_zero_total.
Qed.

End NonNegativeCosts.

(** ** The selection as a prefix of the sorted frame *)

Lemma filter_all_false {A} (f : A -> bool) (l : list A) :
  Forall (fun x => f x = false) l -> List.filter f l = [].
Proof. induction 1 as [|x l Hx Hl IH]; simpl; [done|]. by rewrite Hx. Qed.

Lemma Forall_combine_snd {A B} (P : B -> Prop) (l : list A) (k : list B) :
  Forall P k -> Forall (fun rp => P (snd rp)) (combine l k).
Proof.
  intros H. revert l. induction H as [|y k Hy Hk IH]; intros [|x l]; simpl;
    constructor; auto.
Qed.

Lemma filter_closed_prefix {A} (p : A -> bool) (l : list A) :
  StronglySorted (fun x y => p y = true -> p x = true) l ->
  exists n, List.filter p l = take n l.
Proof.
  induction 1 as [|x l Hl IH Hx]; simpl.
  - by exists O.
  - destruct (p x) eqn:E.
    + destruct IH as [n ->]. by exists (S n).
    + exists O. simpl. apply filter_all_false.
      eapply Forall_impl; [exact Hx|]. intros y Hy. simpl in Hy.
      apply not_true_is_false. intros Hp. specialize (Hy Hp). congruence.
Qed.

Lemma StronglySorted_combine_snd {A B} (R : B -> B -> Prop) (l : list A)
    (k : list B) :
  StronglySorted R k ->
  StronglySorted (fun x y => R (snd x) (snd y)) (combine l k).
Proof.
  intros H. revert l. induction H as [|y k Hk IH Hy]; intros [|x l]; simpl;
    try constructor; [apply IH|].
  by apply (Forall_combine_snd (R y)).
Qed.

(** The exact arithmetic is one instance of the selection over an
    arithmetic. *)
Lemma high_cost_df_exact (df : list krow) (t : Q) :
  high_cost_df df t
  = high_cost_df_with sort_values_cost_desc nansum cumsum percent_of df t.
Proof. reflexivity. Qed.

(** X10. Whatever arithmetic computes the total, the running sums and the
    percentages, and whatever order the sort gives to equal costs: if the
    running sums of the sorted costs never decrease (as when non-negative
    binary64 numbers are added, and unlike an int64 sum that wraps around)
    and the test against the threshold passes for a smaller running sum
    whenever it passes for a larger one (as when dividing by a total that is
    not negative), then the selection is an initial segment of the sorted
    frame: no row is selected after a row that is left out. *)
Theorem high_cost_df_is_prefix (sort_values : list krow -> list krow)
    (series_sum : list float -> float)
    (series_cumsum : list float -> list float)
    (percent : float -> float -> float)
    (df : list krow) (cost_threshold : Q) :
  let costs := List.map Cost (sort_values df) in
  let total_cost := series_sum costs in
  length (series_cumsum costs) = length costs ->
  StronglySorted (fun x y => fle x y = true) (series_cumsum costs) ->
  (forall a b,
     In a (series_cumsum costs) -> In b (series_cumsum costs) ->
     fle a b = true ->
     fle (percent total_cost b) (Fin cost_threshold) = true ->
     fle (percent total_cost a) (Fin cost_threshold) = true) ->
  exists n,
    high_cost_df_with sort_values series_sum series_cumsum percent
                      df cost_threshold
    = take n (sort_values df).
Proof.
  intros costs total_cost Hlen Hrise Htest. unfold high_cost_df_with.
  fold costs. fold total_cost.
  set (percents := List.map (percent total_cost) (series_cumsum costs)).
  assert (Hlen' : length percents = length (sort_values df)).
  { unfold percents. rewrite length_map, Hlen. unfold costs.
    by rewrite length_map. }
  destruct (filter_closed_prefix
              (fun rp : krow * float => fle (snd rp) (Fin cost_threshold))
              (combine (sort_values df) percents)) as [n Hn].
  { apply (StronglySorted_combine_snd
             (fun x y => fle y (Fin cost_threshold) = true
                         -> fle x (Fin cost_threshold) = true)).
    unfold percents. apply StronglySorted_map.
    refine (StronglySorted_impl_Forall _ _
              (fun x => In x (series_cumsum costs)) _ _ _ Hrise).
    - intros a b Ha Hb Hab. by apply Htest.
    - apply Forall_forall. intros x Hx. by apply list_elem_of_In. }
  exists n. rewrite Hn, <- firstn_map.
  rewrite map_fst_combine_take, Hlen'. f_equal. by apply take_ge.
Qed.

(** X12. When every cost is zero, nothing is selected at any threshold
    (the total is zero and every percentage is 0/0); with a credential the
    handler then stops for want of keywords once its connection test is
    answered, and at the connection test when that raises. *)
Theorem zero_cost_selects_nothing (df : list krow) (cost_threshold : Q)
    (oracle : request -> reply) (api_key service_description : ustr)
    (max_keywords_per_batch : Z) :
  Forall (fun r => is_zero (Cost r) = true) df ->
  high_cost_df df cost_threshold = []
  /\ (api_key <> [] ->
      categorize_button oracle api_key service_description df cost_threshold
                        max_keywords_per_batch
      = match oracle TestReq with
        | ApiError e => ConnectionFailed e
        | _ => NoValidKeywords
        end).
Proof.
  intros Hz.
  assert (Hnn : Forall (fun r => is_nonneg (Cost r) = true) df).
  { eapply Forall_impl; [exact Hz|]. intros r. simpl.
    destruct (Cost r) as [q| | |]; try done. simpl. by destruct (Qsign q). }
  assert (Hsel : high_cost_df df cost_threshold = []).
  { rewrite high_cost_df_unfold.
    destruct (percents_sorted_or_undefined df Hnn cost_threshold)
      as [(T & HT & Hpos & _)|[_ Hnone]].
    - exfalso. rewrite nansum_fold in HT.
      destruct (fold_sum_zero (List.map Cost (sort_values_cost_desc df)) 0)
        as (b & Hb & Hb0); [|reflexivity|].
      + apply Forall_forall. intros x Hx.
        apply list_elem_of_In, in_map_iff in Hx as (r & <- & Hr).
        rewrite Forall_forall in Hz. apply Hz.
        rewrite <- (sort_values_cost_desc_perm df). by apply list_elem_of_In.
      + rewrite Hb in HT. injection HT as ->. rewrite Hb0 in Hpos.
        by apply Qlt_irrefl in Hpos.
    - rewrite filter_all_false; [done|].
      by apply (Forall_combine_snd
                  (fun p => fle p (Fin cost_threshold) = false)). }
  split; [exact Hsel|].
  intros Hkey. unfold categorize_button.
  rewrite (ustr_eqb_nil_false _ Hkey), Hsel. by destruct (oracle TestReq).
Qed.

(** ** Which keywords are classified *)

Lemma lstrip_nil (s : ustr) :
  lstrip s = [] <-> Forall (fun c => is_space c = true) s.
Proof.
  induction s as [|c s IH]; simpl.
  - split; [constructor|done].
  - destruct (is_space c) eqn:E.
    + rewrite IH. split; [by constructor|]. intros H.
      by apply Forall_cons in H as [_ H].
    + split; [done|]. intros H. apply Forall_cons in H as [H _]. congruence.
Qed.

Lemma lstrip_head (s : ustr) (c : N) (t : ustr) :
  lstrip s = c :: t -> is_space c = false.
Proof.
  induction s as [|d s IH]; simpl; [done|].
  destruct (is_space d) eqn:E; [exact IH|]. by intros [= <- _].
Qed.

Lemma strip_nil (s : ustr) :
  strip s = [] <-> Forall (fun c => is_space c = true) s.
Proof.
  unfold strip. split.
  - intros H. apply lstrip_nil.
    assert (H' : lstrip (rev (lstrip s)) = []).
    { destruct (lstrip (rev (lstrip s))) as [|c t]; [done|].
      apply (f_equal (@length N)) in H. rewrite length_rev in H. done. }
    destruct (lstrip s) as [|c t] eqn:E; [done|]. exfalso.
    apply lstrip_nil in H'. apply Forall_rev in H'.
    rewrite rev_involutive in H'.
    apply Forall_cons in H' as [H' _]. apply lstrip_head in E. congruence.
  - intros H. apply lstrip_nil in H. by rewrite H.
Qed.

Lemma uint_digits_not_space (d : Decimal.uint) :
  Forall (fun c => is_space c = false) (uint_digits d).
Proof. induction d; simpl; constructor; done. Qed.

Lemma uint_digits_nil (d : Decimal.uint) :
  uint_digits d = [] -> d = Decimal.Nil.
Proof. by destruct d. Qed.

Lemma str_of_Z_not_blank (z : Z) : strip (str_of_Z z) <> [].
Proof.
  intros H. apply strip_nil in H.
  assert (Hp : forall p, ~ Forall (fun c => is_space c = true)
                           (uint_digits (Pos.to_uint p))).
  { intros p Hall. pose proof (uint_digits_not_space (Pos.to_uint p)) as Hd.
    destruct (uint_digits (Pos.to_uint p)) as [|c t] eqn:E.
    - apply uint_digits_nil in E.
      by apply DecimalPos.Unsigned.to_uint_nonnil in E.
    - apply Forall_cons in Hall as [Hc _]. apply Forall_cons in Hd as [Hc' _].
      congruence. }
  destruct z as [|p|p]; simpl in H.
  - apply Forall_cons in H as [H _]. done.
  - by apply Hp in H.
  - apply Forall_cons in H as [H _]. done.
Qed.

(** X13. The test that guards every loop over keywords, at the three kinds
    of value the model has: [None] is dropped, every integer is kept, and a
    string is kept exactly when it has a character that [str.strip()] does
    not remove. *)
Theorem valid_keyword_spec :
  valid_keyword PNone = false
  /\ (forall z, valid_keyword (PInt z) = true)
  /\ (forall s, valid_keyword (PStr s) = true
                <-> Exists (fun c => is_space c = false) s).
Proof.
  split; [done|]. split.
  - intros z. simpl. rewrite negb_true_iff. unfold ustr_eqb.
    apply bool_decide_eq_false. apply str_of_Z_not_blank.
  - intros s. simpl.
    rewrite negb_true_iff. unfold ustr_eqb. rewrite bool_decide_eq_false.
    rewrite strip_nil. split.
    + intros H. apply not_Forall_Exists in H; [|intros c; apply _].
      eapply Exists_impl; [exact H|]. intros c Hc. simpl in Hc.
      by destruct (is_space c).
    + intros H Hall. apply Exists_exists in H as (c & Hc & Hs).
      rewrite Forall_forall in Hall. specialize (Hall c Hc). congruence.
Qed.

Lemma unique_complete (seen l : list pyval) (x : pyval) :
  x ∈ l -> x ∉ seen -> x ∈ unique seen l.
Proof.
  revert seen. induction l as [|y l IH]; intros seen Hx Hs.
  - by apply elem_of_nil in Hx.
  - simpl. case_bool_decide as Hy.
    + apply IH; [|done]. apply elem_of_cons in Hx as [->|Hx]; done.
    + destruct (decide (x = y)) as [->|Hne]; [by left|].
      right. apply IH.
      * apply elem_of_cons in Hx as [->|Hx]; done.
      * intros Hin. apply elem_of_cons in Hin as [->|Hin]; done.
Qed.

(** X14. The keywords sent to classification are exactly the valid keyword
    values of the selected rows, each once. *)
Theorem unique_keywords_spec (selected : list krow) :
  NoDup (unique_keywords selected)
  /\ (forall kw, kw ∈ unique_keywords selected
                 <-> valid_keyword kw = true
                     /\ exists r, r ∈ selected /\ Keyword r = kw).
Proof.
  split; [apply unique_keywords_NoDup|].
  intros kw. unfold unique_keywords. rewrite list_elem_of_In, filter_In.
  rewrite <- list_elem_of_In. split.
  - intros [Hin Hv]. split; [done|].
    apply (proj2 (unique_spec [] _)) in Hin as [_ Hin].
    apply list_elem_of_In, in_map_iff in Hin as (r & <- & Hr).
    exists r. split; [by apply list_elem_of_In|done].
  - intros [Hv (r & Hr & <-)]. split; [|done].
    apply unique_complete; [|apply not_elem_of_nil].
    apply list_elem_of_In, in_map_iff. exists r. split; [done|].
    by apply list_elem_of_In.
Qed.

(** ** What the batch loop sends and what it does with the answers *)

Lemma batches_nonempty (kws : list pyval) (m : Z) (bs : list (list pyval)) :
  1 <= m -> batches kws m = Some bs ->
  Forall (fun b => b <> [] /\ (length b <= 100)%nat /\ b ⊆ kws) bs.
Proof.
  intros Hm Hbs. rewrite (batches_chunks kws m Hm) in Hbs.
  injection Hbs as <-. cbv zeta.
  set (sz := Z.to_nat (batch_size m)).
  assert (Hsz : (1 <= sz <= 100)%nat) by (unfold sz, batch_size; lia).
  apply Forall_forall. intros b Hb.
  apply list_elem_of_In, in_map_iff in Hb as (k & <- & Hk).
  apply in_seq in Hk as [_ Hk]. simpl in Hk.
  assert (Hlt : (k * sz < length kws)%nat).
  { assert (Z.of_nat k < (Z.of_nat (length kws) + batch_size m - 1)
                         / batch_size m) by lia.
    assert (Hbs : batch_size m = Z.of_nat sz) by (unfold sz, batch_size; lia).
    rewrite Hbs in H.
    assert (Z.of_nat k * Z.of_nat sz < Z.of_nat (length kws)); [|lia].
    pose proof (Z.mul_div_le (Z.of_nat (length kws) + Z.of_nat sz - 1)
                  (Z.of_nat sz) ltac:(lia)).
    nia. }
  split; [|split].
  - intros E. apply (f_equal (@length pyval)) in E.
    rewrite length_take, length_drop in E. simpl in E. lia.
  - rewrite length_take. lia.
  - intros x Hx. eapply subseteq_drop, subseteq_take, Hx.
Qed.

Lemma valid_keywords_of_all_valid (batch : list pyval) :
  Forall (fun kw => valid_keyword kw = true) batch ->
  valid_keywords_of batch = List.map py_str batch.
Proof.
  intros H. unfold valid_keywords_of. f_equal.
  induction H as [|x l Hx Hl IH]; simpl; [done|]. by rewrite Hx, IH.
Qed.

(** X15. In the pipeline every batch is non-empty and both requests of a
    batch carry the text of each of its keywords: nothing is filtered out
    and the limit of 100 inside the classification call cuts nothing off;
    the clustering request asks for between 2 and 5 clusters. *)
Theorem pipeline_requests_carry_whole_batch (selected : list krow)
    (max_keywords_per_batch : Z) (service_description : ustr)
    (bs : list (list pyval)) :
  1 <= max_keywords_per_batch ->
  batches (unique_keywords selected) max_keywords_per_batch = Some bs ->
  Forall
    (fun b =>
       b <> []
       /\ classify_request service_description b
          = ClassifyReq (List.map py_str b) service_description
       /\ exists cluster_count,
            cluster_request service_description b
            = ClusterReq (List.map py_str b) service_description cluster_count
            /\ 2 <= cluster_count <= 5)
    bs.
Proof.
  intros Hm Hbs. eapply Forall_impl; [by eapply batches_nonempty|].
  intros b (Hne & Hlen & Hsub). cbv beta.
  assert (Hv : valid_keywords_of b = List.map py_str b).
  { apply valid_keywords_of_all_valid. apply Forall_forall. intros kw Hkw.
    apply Hsub in Hkw. unfold unique_keywords in Hkw.
    by apply list_elem_of_In, filter_In in Hkw as [_ Hkw]. }
  split; [done|]. unfold classify_request, cluster_request. rewrite Hv.
  split.
  - f_equal. apply firstn_all2. by rewrite length_map.
  - eexists. split; [reflexivity|]. lia.
Qed.

Lemma categorize_well_formed (oracle : request -> reply)
    (keywords : list pyval) (service_description api_key : ustr) (n : nat) :
  well_formed_pair
    (categorize_keywords_with_llm oracle keywords service_description
                                  api_key n).
Proof.
  unfold categorize_keywords_with_llm, well_formed_pair.
  destruct (ustr_eqb api_key []).
  { eexists _, _. split; [reflexivity|]. by vm_compute. }
  destruct (valid_keywords_of keywords).
  { eexists _, _. split; [reflexivity|]. by vm_compute. }
  destruct (oracle _) as [e|e c|items]; eexists _, _;
    (split; [reflexivity|]).
  - by rewrite truthy_prefixed.
  - by rewrite truthy_json_error.
  - eauto.
Qed.

Lemma cluster_well_formed (oracle : request -> reply)
    (keywords : list pyval) (service_description api_key : ustr) (n : Z) :
  api_key <> [] ->
  well_formed_pair
    (cluster_keywords_with_llm oracle keywords service_description
                               api_key n).
Proof.
  intros Hkey. unfold cluster_keywords_with_llm, well_formed_pair.
  rewrite (ustr_eqb_nil_false _ Hkey).
  destruct (valid_keywords_of keywords).
  { eexists _, _. split; [reflexivity|]. by vm_compute. }
  destruct (oracle _) as [e|e c|items]; eexists _, _;
    (split; [reflexivity|]).
  - by rewrite truthy_prefixed.
  - by rewrite truthy_json_error.
  - eauto.
Qed.

Lemma process_batch_ok (oracle : request -> reply)
    (service_description api_key : ustr) (i : nat) (batch : list pyval)
    (all_categorized : list assignment) (errors : list diagnostic) :
  api_key <> [] ->
  exists added ds,
    process_batch oracle service_description api_key i batch
                  (all_categorized, errors)
    = Ok (all_categorized ++ added, errors ++ ds)
    /\ (length ds <= 1)%nat.
Proof.
  intros Hkey. unfold process_batch, fallback_call.
  destruct (categorize_well_formed oracle batch service_description api_key 100)
    as (r1 & e1 & -> & H1).
  cbn [unpack2 res_bind].
  destruct (truthy e1) eqn:E1.
  - destruct (cluster_well_formed oracle batch service_description api_key 5
                Hkey) as (r2 & e2 & -> & H2).
    cbn [unpack2 res_bind].
    destruct (truthy e2) eqn:E2.
    + eexists _, [_]. split; [reflexivity|]. simpl. lia.
    + destruct (H2 eq_refl) as [l ->]. eexists l, [_].
      split; [reflexivity|]. simpl. lia.
  - destruct (H1 eq_refl) as [l ->]. exists l, [].
    split; [by rewrite app_nil_r|]. simpl. lia.
Qed.

Lemma process_batches_ok (oracle : request -> reply)
    (service_description api_key : ustr) (bs : list (list pyval)) (i : nat)
    (all_categorized : list assignment) (errors : list diagnostic) :
  api_key <> [] ->
  exists added ds,
    process_batches oracle service_description api_key i bs
                    (all_categorized, errors)
    = Ok (all_categorized ++ added, errors ++ ds)
    /\ (length ds <= length bs)%nat.
Proof.
  intros Hkey. revert i all_categorized errors.
  induction bs as [|b bs IH]; intros i all_categorized errors.
  - exists [], []. simpl. by rewrite !app_nil_r.
  - cbn [process_batches].
    destruct (process_batch_ok oracle service_description api_key i b
                all_categorized errors Hkey) as (a1 & d1 & -> & Hd1).
    cbn [res_bind].
    destruct (IH (S i) (all_categorized ++ a1) (errors ++ d1))
      as (a2 & d2 & -> & Hd2).
    exists (a1 ++ a2), (d1 ++ d2). rewrite !app_assoc. split; [done|].
    rewrite length_app. simpl. lia.
Qed.

(** X19. With a credential and a batch size of at least 1 the handler
    raises nothing, whichever of the replies the model distinguishes
    (exception, undecodable text, list of complete items) the oracle gives to
    each request: it stops at the connection test when that raises, and
    otherwise either stops for want of keywords or finishes with one
    categorized row per input row, in the same order and with the row
    unchanged, and with at most one diagnostic per batch. *)
Theorem categorize_button_never_crashes (oracle : request -> reply)
    (api_key service_description : ustr) (df : list krow)
    (cost_threshold : Q) (max_keywords_per_batch : Z) :
  api_key <> [] ->
  1 <= max_keywords_per_batch ->
  match oracle TestReq with
  | ApiError e =>
    categorize_button oracle api_key service_description df cost_threshold
                      max_keywords_per_batch = ConnectionFailed e
  | _ =>
    categorize_button oracle api_key service_description df cost_threshold
                      max_keywords_per_batch = NoValidKeywords
    \/ exists categorized_data categories_master errors bs,
         categorize_button oracle api_key service_description df
                           cost_threshold max_keywords_per_batch
         = Categorized categorized_data categories_master errors
         /\ List.map base categorized_data = df
         /\ batches (unique_keywords (high_cost_df df cost_threshold))
                    max_keywords_per_batch = Some bs
         /\ (length errors <= length bs)%nat
  end.
Proof.
  intros Hkey Hm. unfold categorize_button.
  rewrite (ustr_eqb_nil_false _ Hkey).
  assert (Hgo :
    match unique_keywords (high_cost_df df cost_threshold) with
    | [] => NoValidKeywords
    | _ :: _ =>
      match batches (unique_keywords (high_cost_df df cost_threshold))
                    max_keywords_per_batch with
      | None => Crashed RangeStepZero
      | Some bs =>
        match process_batches oracle service_description api_key 0 bs
                              ([], []) with
        | Raise e => Crashed e
        | Ok (all_categorized, errors) =>
          Categorized (categorize_rows df all_categorized)
                      all_categorized errors
        end
      end
    end = NoValidKeywords
    \/ exists categorized_data categories_master errors bs,
         match unique_keywords (high_cost_df df cost_threshold) with
         | [] => NoValidKeywords
         | _ :: _ =>
           match batches (unique_keywords (high_cost_df df cost_threshold))
                         max_keywords_per_batch with
           | None => Crashed RangeStepZero
           | Some bs =>
             match process_batches oracle service_description api_key 0 bs
                                   ([], []) with
             | Raise e => Crashed e
             | Ok (all_categorized, errors) =>
               Categorized (categorize_rows df all_categorized)
                           all_categorized errors
             end
           end
         end = Categorized categorized_data categories_master errors
         /\ List.map base categorized_data = df
         /\ batches (unique_keywords (high_cost_df df cost_threshold))
                    max_keywords_per_batch = Some bs
         /\ (length errors <= length bs)%nat).
  { destruct (unique_keywords (high_cost_df df cost_threshold))
      as [|k ks] eqn:Ek; [by left|].
    right.
    destruct (batches_ok (k :: ks) max_keywords_per_batch Hm)
      as (bs & Hbs & _).
    rewrite Hbs.
    destruct (process_batches_ok oracle service_description api_key bs 0 [] []
                Hkey) as (added & ds & -> & Hds).
    simpl. eexists _, _, _, bs. split; [reflexivity|]. split; [|done].
    unfold categorize_rows. rewrite List.map_map. simpl. apply List.map_id. }
  destruct (oracle TestReq); [reflexivity|exact Hgo|exact Hgo].
Qed.

(** ** Calls that send nothing, and the tiers of a batch *)

Lemma valid_keywords_of_nil (kws : list pyval) :
  Forall (fun kw => valid_keyword kw = false) kws ->
  valid_keywords_of kws = [].
Proof.
  intros H. unfold valid_keywords_of.
  induction H as [|x l Hx Hl IH]; simpl; [done|]. by rewrite Hx.
Qed.

Lemma valid_keywords_of_cons (kws : list pyval) :
  Exists (fun kw => valid_keyword kw = true) kws ->
  exists s ss, valid_keywords_of kws = s :: ss.
Proof.
  intros H. unfold valid_keywords_of.
  induction H as [x l Hx|x l Hl IH]; simpl.
  - rewrite Hx. simpl. eauto.
  - destruct (valid_keyword x); simpl; eauto.
Qed.

(** X16. Without a credential, or for keywords none of which is valid, the
    two calls send no request: their result does not depend on the oracle,
    and its last component is an error message. *)
Theorem no_request_without_key_or_keywords (oracle1 oracle2 : request -> reply)
    (keywords : list pyval) (service_description api_key : ustr)
    (batch_size : nat) (suggested_clusters : Z) :
  api_key = [] \/ Forall (fun kw => valid_keyword kw = false) keywords ->
  categorize_keywords_with_llm oracle1 keywords service_description api_key
                               batch_size
  = categorize_keywords_with_llm oracle2 keywords service_description api_key
                                 batch_size
  /\ cluster_keywords_with_llm oracle1 keywords service_description api_key
                               suggested_clusters
     = cluster_keywords_with_llm oracle2 keywords service_description api_key
                                 suggested_clusters
  /\ (exists msg, msg <> []
        /\ last (categorize_keywords_with_llm oracle1 keywords
                   service_description api_key batch_size)
           = Some (RStr msg))
  /\ (exists msg, msg <> []
        /\ last (cluster_keywords_with_llm oracle1 keywords
                   service_description api_key suggested_clusters)
           = Some (RStr msg)).
Proof.
  unfold categorize_keywords_with_llm, cluster_keywords_with_llm.
  intros [->|Hnone].
  - repeat split; try reflexivity; eexists; (split; [|reflexivity]);
      by vm_compute.
  - rewrite (valid_keywords_of_nil _ Hnone).
    destruct (ustr_eqb api_key []);
      repeat split; try reflexivity; eexists; (split; [|reflexivity]);
      by vm_compute.
Qed.

Lemma keyword_map_of_snoc (l : list pyval) (kw : pyval) :
  keyword_map_of (l ++ [kw])
  = if valid_keyword kw then <[py_str kw := kw]> (keyword_map_of l)
    else keyword_map_of l.
Proof. unfold keyword_map_of. by rewrite fold_left_app. Qed.

Lemma keyword_map_of_hit (kws : list pyval) (kw : pyval) :
  kw ∈ kws -> valid_keyword kw = true ->
  (forall kw', kw' ∈ kws -> valid_keyword kw' = true ->
               py_str kw' = py_str kw -> kw' = kw) ->
  keyword_map_of kws !! py_str kw = Some kw.
Proof.
  induction kws as [|x l IH] using rev_ind; intros Hin Hv Huniq.
  - by apply elem_of_nil in Hin.
  - rewrite keyword_map_of_snoc.
    destruct (valid_keyword x) eqn:Ex.
    + destruct (decide (py_str x = py_str kw)) as [E|Hne].
      * assert (x = kw) as ->.
        { apply Huniq; [|done..]. apply elem_of_app. right. by left. }
        by rewrite lookup_insert_eq.
      * rewrite lookup_insert_ne by done. apply IH; [|done|].
        -- apply elem_of_app in Hin as [Hin|Hin]; [done|].
           apply list_elem_of_singleton in Hin. by subst.
        -- intros kw' Hkw'. apply Huniq, elem_of_app. by left.
    + apply IH; [|done|].
      * apply elem_of_app in Hin as [Hin|Hin]; [done|].
        apply list_elem_of_singleton in Hin. subst. congruence.
      * intros kw' Hkw'. apply Huniq, elem_of_app. by left.
Qed.

Lemma keyword_map_of_miss (kws : list pyval) (s : ustr) :
  (forall kw, kw ∈ kws -> valid_keyword kw = true -> py_str kw <> s) ->
  keyword_map_of kws !! s = None.
Proof.
  induction kws as [|x l IH] using rev_ind; intros H; [done|].
  rewrite keyword_map_of_snoc.
  assert (Hl : keyword_map_of l !! s = None).
  { apply IH. intros kw Hkw. apply H, elem_of_app. by left. }
  destruct (valid_keyword x) eqn:Ex; [|done].
  rewrite lookup_insert_ne; [done|].
  apply H; [|done]. apply elem_of_app. right. by left.
Qed.

(** X17. A successful classification returns the oracle's items with the
    keyword of each put back to the value it has in the batch: an item whose
    keyword text is that of a valid batch keyword (the only one with that
    text) gets that keyword, integer or string, and its categories are
    kept; an item whose keyword matches no batch keyword is returned as it
    came. *)
Theorem classification_restores_keyword_values (oracle : request -> reply)
    (batch : list pyval) (service_description api_key : ustr)
    (items : list assignment) :
  api_key <> [] ->
  Exists (fun kw => valid_keyword kw = true) batch ->
  oracle (classify_request service_description batch) = Parsed items ->
  categorize_keywords_with_llm oracle batch service_description api_key 100
  = [RList (List.map (restore_keyword (keyword_map_of batch)) items); RNone]
  /\ (forall kw axis comb,
        kw ∈ batch -> valid_keyword kw = true ->
        (forall kw', kw' ∈ batch -> valid_keyword kw' = true ->
                     py_str kw' = py_str kw -> kw' = kw) ->
        restore_keyword (keyword_map_of batch)
          {| a_keyword := PStr (py_str kw); a_axis := axis; a_comb := comb |}
        = {| a_keyword := kw; a_axis := axis; a_comb := comb |})
  /\ (forall item,
        (forall kw, kw ∈ batch -> valid_keyword kw = true ->
                    PStr (py_str kw) <> a_keyword item) ->
        restore_keyword (keyword_map_of batch) item = item).
Proof.
  intros Hkey Hex Hreply. split; [|split].
  - unfold categorize_keywords_with_llm.
    rewrite (ustr_eqb_nil_false _ Hkey).
    unfold classify_request in Hreply.
    destruct (valid_keywords_of_cons batch Hex) as (s & ss & Hv).
    rewrite Hv in *. by rewrite Hreply.
  - intros kw axis comb Hin Hv Huniq. unfold restore_keyword. simpl.
    by rewrite keyword_map_of_hit.
  - intros item Hmiss. unfold restore_keyword.
    destruct (a_keyword item) as [|s|z] eqn:E; try done.
    rewrite keyword_map_of_miss; [done|].
    intros kw Hkw Hv Hs. apply (Hmiss kw Hkw Hv). by rewrite Hs.
Qed.

(** X18. The first two tiers of a batch.  A parsed classification reply is
    taken as it is, with no fallback and no diagnostic, even when it is
    empty or leaves keywords out; when classification fails and clustering
    returns a parsed reply, the batch gets the clustering items and one
    "recovered" diagnostic with the batch number. *)
Theorem batch_fallback_tiers (oracle : request -> reply)
    (service_description api_key : ustr) (i : nat) (batch : list pyval)
    (all_categorized : list assignment) (errors : list diagnostic) :
  api_key <> [] ->
  Exists (fun kw => valid_keyword kw = true) batch ->
  (forall items,
     oracle (classify_request service_description batch) = Parsed items ->
     process_batch oracle service_description api_key i batch
                   (all_categorized, errors)
     = Ok (all_categorized
             ++ List.map (restore_keyword (keyword_map_of batch)) items,
           errors))
  /\ (oracle (classify_request service_description batch) = Parsed [] ->
      process_batch oracle service_description api_key i batch
                    (all_categorized, errors)
      = Ok (all_categorized, errors))
  /\ (forall items,
        fails (oracle (classify_request service_description batch)) = true ->
        oracle (cluster_request service_description batch) = Parsed items ->
        exists error,
          truthy error = true
          /\ process_batch oracle service_description api_key i batch
                           (all_categorized, errors)
             = Ok (all_categorized
                     ++ List.map (restore_keyword (keyword_map_of batch)) items,
                   errors ++ [Recovered (S i) error])).
Proof.
  intros Hkey Hex.
  destruct (valid_keywords_of_cons batch Hex) as (s & ss & Hv).
  assert (H1 : forall items,
     oracle (classify_request service_description batch) = Parsed items ->
     process_batch oracle service_description api_key i batch
                   (all_categorized, errors)
     = Ok (all_categorized
             ++ List.map (restore_keyword (keyword_map_of batch)) items,
           errors)).
  { intros items Hreply.
    unfold process_batch, categorize_keywords_with_llm.
    rewrite (ustr_eqb_nil_false _ Hkey).
    unfold classify_request in Hreply. rewrite Hv in *. by rewrite Hreply. }
  split; [exact H1|]. split.
  - intros Hreply. rewrite (H1 [] Hreply). simpl. by rewrite app_nil_r.
  - intros items Hfail Hreply.
    destruct (categorize_fails oracle service_description api_key Hkey
                batch Hfail) as (r1 & e1 & Hc & He1).
    exists e1. split; [done|].
    unfold process_batch, fallback_call. rewrite Hc.
    cbn [unpack2 res_bind]. rewrite He1.
    unfold cluster_keywords_with_llm.
    rewrite (ustr_eqb_nil_false _ Hkey).
    unfold cluster_request in Hreply. rewrite Hv in *. by rewrite Hreply.
Qed.

(** ** Ratios of the roll-ups *)

Lemma Qred_inject_Z (z : Z) : Qred (inject_Z z) = inject_Z z.
Proof. apply Qcanon.Qred_identity. simpl. apply Z.gcd_1_r. Qed.

(** X22. The ratios of a roll-up are not cleaned of infinities: a group with
    summed Clicks 0 and positive summed Cost has CPC = +inf (NaN when the
    cost is 0 too), whereas a group with positive summed Conversions and a
    finite summed Cost has a finite CPA. *)
Theorem rollup_ratios_keep_infinities (by_ : list (ustr * (crow -> ustr)))
    (df : list crow) :
  exists T cpc cpa,
    rollup by_ df = Some T
    /\ get_col (u "CPC") T = Some cpc
    /\ get_col (u "CPA") T = Some cpa
    /\ forall i g,
         group_keys (List.map snd by_) df !! i = Some g ->
         let tot := group_total by_ df in
         (is_zero (tot Clicks g) = true -> is_pos (tot Cost g) = true ->
          cpc !! i = Some PInf)
         /\ (is_zero (tot Clicks g) = true -> is_zero (tot Cost g) = true ->
             cpc !! i = Some NaN)
         /\ (is_pos (tot Conversions g) = true -> is_fin (tot Cost g) = true ->
             exists q, cpa !! i = Some (Fin q)).
Proof.
  eexists _,
    (List.map (fun g => fround 0 (fdiv (group_total by_ df Cost g)
                                       (group_total by_ df Clicks g)))
              (group_keys (List.map snd by_) df)),
    (List.map (fun g => fround 0 (fdiv (group_total by_ df Cost g)
                                       (group_total by_ df Conversions g)))
              (group_keys (List.map snd by_) df)).
  split; [apply rollup_eq|]. do 2 (split; [reflexivity|]).
  intros i g Hg tot.
  change (@List.map) with (@fmap list _). rewrite !list_lookup_fmap.
  change (@fmap list _) with (@List.map). rewrite Hg.
  simpl. fold tot. repeat split.
  - intros Hz Hp. f_equal. destruct (tot Clicks g) as [c| | |]; try done.
    destruct (tot Cost g) as [x| | |]; try done. simpl in *.
    destruct (Qsign c); try done. by destruct (Qsign x).
  - intros Hz Hz'. f_equal. destruct (tot Clicks g) as [c| | |]; try done.
    destruct (tot Cost g) as [x| | |]; try done. simpl in *.
    destruct (Qsign c); try done. by destruct (Qsign x).
  - intros Hp Hf. destruct (tot Conversions g) as [c| | |]; try done.
    destruct (tot Cost g) as [x| | |]; try done. simpl in *.
    destruct (Qsign c); try done. eauto.
Qed.

(** ** The values of the rule-based mapping *)

Lemma rule_match_field (lower : ustr -> ustr) (cl : ustr)
    (fields : list (ustr * list ustr)) (f : ustr) :
  rule_match lower cl fields = Some f -> In f (List.map fst fields).
Proof.
  induction fields as [|[name alts] rest IH]; simpl; [done|].
  destruct (ustr_eqb cl (lower name)); [intros [= <-]; by left|].
  destruct (existsb _ alts); [intros [= <-]; by left|].
  intros H. right. by apply IH.
Qed.

Lemma rule_match_reason (lower : ustr -> ustr) (cl : ustr)
    (fields : list (ustr * list ustr)) (f : ustr) :
  rule_match lower cl fields = Some f ->
  exists alts,
    In (f, alts) fields
    /\ (cl = lower f
        \/ exists alt, In alt alts /\ contains (lower alt) cl = true).
Proof.
  induction fields as [|[name alts] rest IH]; simpl; [done|].
  destruct (ustr_eqb cl (lower name)) eqn:E1.
  { intros [= <-]. exists alts. split; [by left|]. left.
    by apply ustr_eqb_eq in E1. }
  destruct (existsb _ alts) eqn:E2.
  { intros [= <-]. exists alts. split; [by left|]. right.
    apply existsb_exists in E2 as (alt & Ha & Hc). by exists alt. }
  intros Hr. destruct (IH Hr) as (alts' & Hin & H). exists alts'.
  split; [by right|done].
Qed.

Lemma fuzzy_match_field (lower : ustr -> ustr)
    (table : list (ustr * list ustr)) (cl f : ustr) :
  fst (fuzzy_match lower table cl) = Some f ->
  In f (List.map fst table)
  /\ exists cand,
       In cand (table_strings table)
       /\ (7 # 10 < SequenceMatcher.ratio cl (lower cand))%Q.
Proof.
  unfold fuzzy_match. rewrite fuzzy_match_flat, fold_fuzzy_step_best.
  cbn [snd]. destruct (spec_best _) as [[g s]|] eqn:Hb; [|done].
  destruct (score_gt s (7 # 10)) eqn:Hs; [|done]. cbn [fst]. intros [= <-].
  apply spec_best_In in Hb. split.
  - by apply candidates_fields in Hb.
  - apply score_gt_spec in Hs. unfold spec_candidates in Hb.
    apply in_flat_map in Hb as ([name alts] & Hf & Hc).
    apply in_map_iff in Hc as (cand & [= <- <-] & Hcand).
    exists cand. split; [|done]. unfold table_strings.
    apply in_flat_map. by exists (name, alts).
Qed.

(** X1. The rule-based mapping has exactly the given labels as keys, and
    each value is a field name of the table or "unknown"; a value that is a
    field name was reached by an exact name, by an alias contained in the
    lower-cased label, or by a name or alias whose similarity to it is above
    0.7. *)
Theorem rule_mapping_keys_and_values (lower : ustr -> ustr)
    (table : list (ustr * list ustr)) (df_columns : list ustr) (col : ustr) :
  (col ∈ df_columns
   <-> is_Some (suggest_column_mapping_with_rules lower table df_columns
                  !! col))
  /\ (forall v,
        suggest_column_mapping_with_rules lower table df_columns !! col
        = Some v ->
        v = unknown
        \/ In v (List.map fst table)
           /\ exists alts, In (v, alts) table
                /\ (lower col = lower v
                    \/ (exists alt, In alt alts
                          /\ contains (lower alt) (lower col) = true)
                    \/ exists cand,
                         In cand (table_strings table)
                         /\ (7 # 10 < SequenceMatcher.ratio (lower col)
                                        (lower cand))%Q)).
Proof.
  rewrite mapping_lookup. split.
  - case_bool_decide as Hc; split; intros H.
    + by eexists.
    + done.
    + done.
    + by destruct H.
  - case_bool_decide; [|done]. intros v [= <-]. unfold suggest_one.
    destruct (rule_match lower (lower col) table) as [f|] eqn:Hr.
    + right. split; [by eapply rule_match_field|].
      destruct (rule_match_reason lower _ _ _ Hr) as (alts & Hin & Hwhy).
      exists alts. split; [done|]. destruct Hwhy as [Hw|Hw]; [by left|].
      right. by left.
    + destruct (fst (fuzzy_match lower table (lower col))) as [f|] eqn:Hf;
        [|by left].
      destruct (ustr_eqb f []); [by left|]. right.
      apply fuzzy_match_field in Hf as [Hin Hc]. split; [done|].
      apply in_map_iff in Hin as ([name alts] & <- & Hin).
      exists alts. split; [done|]. right. by right.
Qed.

(** ** The mapping that is applied *)

Section DictLookups.
Context {V : Type}.

Lemma dict_get_set (k k' : ustr) (v : V) (d : dict V) :
  dict_get k (dict_set k' v d)
  = if ustr_eqb k' k then Some v else dict_get k d.
Proof.
  unfold dict_get. induction d as [|[k0 v0] d IH]; simpl.
  - by destruct (ustr_eqb k' k).
  - destruct (ustr_eqb k0 k') eqn:E; simpl.
    + apply ustr_eqb_eq in E as ->. by destruct (ustr_eqb k' k).
    + destruct (ustr_eqb k0 k) eqn:E0; simpl.
      * apply ustr_eqb_eq in E0 as ->.
        destruct (ustr_eqb k' k) eqn:E1; [|done].
        apply ustr_eqb_eq in E1 as ->. by rewrite ustr_eqb_refl in E.
      * exact IH.
Qed.

Lemma dict_get_fold_cond (cond : V -> bool) (l : list (ustr * V))
    (d0 : dict V) (k : ustr) :
  dict_get k (fold_left (fun d '(f, s) => if cond s then dict_set f s d else d)
                        l d0)
  = match List.find (fun fs => cond (snd fs) && ustr_eqb (fst fs) k) (rev l) with
    | Some fs => Some (snd fs)
    | None => dict_get k d0
    end.
Proof.
  revert d0. induction l as [|[f s] l IH] using rev_ind; intros d0; [done|].
  rewrite fold_left_app, rev_app_distr. cbn [fold_left rev app List.find fst snd].
  destruct (cond s); cbn [andb].
  - rewrite dict_get_set. destruct (ustr_eqb f k); [done|apply IH].
  - apply IH.
Qed.

Lemma find_key_absent (cond : V -> bool) (d : dict V) (k : ustr) :
  dict_mem k d = false ->
  List.find (fun fs => cond (snd fs) && ustr_eqb (fst fs) k) (rev d) = None.
Proof.
  intros H.
  destruct (List.find _ _) as [[f s]|] eqn:E; [|done].
  apply find_some in E as [Hin E]. apply in_rev in Hin. simpl in E.
  apply andb_true_iff in E as [_ E]. exfalso. unfold dict_mem in H.
  assert (existsb (fun kv : ustr * V => ustr_eqb (fst kv) k) d = true);
    [|congruence].
  apply existsb_exists. by exists (f, s).
Qed.

End DictLookups.

Lemma inverse_lookup (sel : dict ustr) (d0 : dict ustr) (c : ustr) :
  dict_get c (fold_left (fun d '(k, v) => dict_set v k d) sel d0)
  = match List.find (fun kv => ustr_eqb (snd kv) c) (rev sel) with
    | Some kv => Some (fst kv)
    | None => dict_get c d0
    end.
Proof.
  revert d0. induction sel as [|[k v] sel IH] using rev_ind; intros d0; [done|].
  rewrite fold_left_app, rev_app_distr. cbn [fold_left rev app List.find fst snd].
  rewrite dict_get_set. destruct (ustr_eqb v c); [done|apply IH].
Qed.

Lemma rename_columns_data (m : dict ustr) (df : data_frame) :
  List.map snd (rename_columns m df) = List.map snd df.
Proof. unfold rename_columns. rewrite List.map_map. by apply List.map_ext. Qed.

Lemma select_columns_Some (labels : list ustr) (df : data_frame) :
  is_Some (select_columns labels df)
  <-> forall l, In l labels -> In l (List.map fst df).
Proof.
  induction labels as [|l labels IH]; simpl.
  - split; [by intros _ l []|by eexists].
  - destruct (List.filter (fun c => ustr_eqb (fst c) l) df) as [|c cs] eqn:E.
    + split; [by intros [? ?]|]. intros H. exfalso.
      specialize (H l (or_introl eq_refl)).
      apply in_map_iff in H as (c & <- & Hc).
      assert (In c (List.filter (fun c0 => ustr_eqb (fst c0) (fst c)) df)).
      { apply filter_In. split; [done|apply ustr_eqb_refl]. }
      rewrite E in H. destruct H.
    + rewrite fmap_is_Some, IH. split.
      * intros H l' [<-|Hl']; [|by apply H].
        assert (Hc : In c (List.filter (fun c0 => ustr_eqb (fst c0) l) df))
          by (rewrite E; by left).
        apply filter_In in Hc as [Hc Hl]. apply ustr_eqb_eq in Hl as <-.
        by apply in_map.
      * intros H l' Hl'. apply H. by right.
Qed.

Lemma select_columns_labels (labels : list ustr) (df out : data_frame) :
  select_columns labels df = Some out ->
  (forall c, In c out <-> In c df /\ In (fst c) labels).
Proof.
  revert out. induction labels as [|l labels IH]; simpl; intros out H c.
  - injection H as <-. simpl. tauto.
  - destruct (List.filter (fun c => ustr_eqb (fst c) l) df) as [|c0 cs] eqn:E;
      [done|].
    destruct (select_columns labels df) as [rest|]; [|done].
    injection H as <-.
    change (In c ((c0 :: cs) ++ rest)
            <-> In c df /\ (l = fst c \/ In (fst c) labels)).
    rewrite <- E, in_app_iff, filter_In, ustr_eqb_eq.
    rewrite (IH rest eq_refl c). intuition congruence.
Qed.

Section AppliedMapping.

Variable table : list (ustr * list ustr).
Variables choose_required choose_recommended : ustr -> ustr.

Lemma required_lookup (k : ustr) :
  k ∈ REQUIRED_FIELDS ->
  dict_get k (selected_mapping table choose_required choose_recommended)
  = if unselected choose_required k then None else Some (choose_required k).
Proof.
  intros Hk. unfold selected_mapping.
  rewrite (dict_get_fold_cond
             (fun s => negb (ustr_eqb s placeholder_recommended))).
  rewrite (find_key_absent
             (fun s => negb (ustr_eqb s placeholder_recommended)) _ _
             (recommended_not_required table choose_recommended k Hk)).
  rewrite (dict_get_fold_cond
             (fun s => negb (ustr_eqb s placeholder_required))).
  change (mapping_inputs_required choose_required)
    with (List.map (fun f => (f, choose_required f)) REQUIRED_FIELDS).
  unfold unselected.
  repeat (apply elem_of_cons in Hk as [->|Hk];
          [simpl; rewrite ?andb_false_r, ?andb_true_r;
           match goal with
           | |- context [ustr_eqb ?a placeholder_required] =>
             by destruct (ustr_eqb a placeholder_required)
           end|]).
  by apply elem_of_nil in Hk.
Qed.

Lemma renamed_label (df : data_frame) :
  rename_columns (inverse_mapping table choose_required choose_recommended) df
  = List.map
      (fun c =>
         (match List.find (fun kv => ustr_eqb (snd kv) (fst c))
                  (rev (selected_mapping table choose_required
                                         choose_recommended)) with
          | Some kv => fst kv
          | None => fst c
          end, snd c)) df.
Proof.
  unfold rename_columns, inverse_mapping. apply List.map_ext. intros c.
  rewrite inverse_lookup. by destruct (List.find _ _).
Qed.

(** X4. When every required field has a selected column, pressing the apply
    button succeeds: one success message is shown, the returned mapping
    gives each required field the column chosen for it, the returned frame
    has the columns of the uploaded one with their data untouched and in
    the same order, and a column's new label is the field that chose it (the
    last such field in the mapping's order when several did), or its old
    label when no field chose it. *)
Theorem complete_selection_is_applied (df : data_frame) :
  (forall f, In f REQUIRED_FIELDS ->
             choose_required f <> placeholder_required) ->
  let sel := selected_mapping table choose_required choose_recommended in
  exists mapped_df,
    apply_column_mapping table choose_required choose_recommended df true
    = ([StSuccess msg_mapping_done], Some (mapped_df, sel))
    /\ (forall f, In f REQUIRED_FIELDS ->
                  dict_get f sel = Some (choose_required f))
    /\ List.map snd mapped_df = List.map snd df
    /\ List.map fst mapped_df
       = List.map (fun label =>
                     match List.find (fun kv => ustr_eqb (snd kv) label)
                                     (rev sel) with
                     | Some kv => fst kv
                     | None => label
                     end) (List.map fst df).
Proof.
  intros Hall sel.
  assert (Hun : forall f, In f REQUIRED_FIELDS ->
                          unselected choose_required f = false).
  { intros f Hf. unfold unselected. apply not_true_is_false.
    rewrite ustr_eqb_eq. by apply Hall. }
  exists (rename_columns (inverse_mapping table choose_required
                                          choose_recommended) df).
  split; [|split; [|split]].
  - unfold apply_column_mapping. rewrite missing_unselected.
    destruct (List.filter _ _) as [|m ms] eqn:E; [done|].
    assert (Hm : In m (List.filter (unselected choose_required)
                                   REQUIRED_FIELDS)) by (rewrite E; by left).
    apply filter_In in Hm as [Hm1 Hm2]. rewrite (Hun m Hm1) in Hm2. done.
  - intros f Hf. unfold sel.
    rewrite required_lookup by (by apply list_elem_of_In).
    by rewrite (Hun f Hf).
  - apply rename_columns_data.
  - rewrite renamed_label, !List.map_map. done.
Qed.

(** X5. In column_mapper.py, with every required field selected, the apply
    block returns a frame exactly when every selected field is a label of
    the renamed frame, and that frame then holds the renamed columns whose
    label is a selected field and no others; when some selected field is
    not a label after renaming, the column selection raises and nothing is
    shown or returned. *)
Theorem column_mapper_outcomes (df : data_frame) :
  (forall f, In f REQUIRED_FIELDS ->
             choose_required f <> placeholder_required) ->
  let sel := selected_mapping table choose_required choose_recommended in
  let renamed :=
    rename_columns (inverse_mapping table choose_required choose_recommended)
                   df in
  ((forall f, In f (List.map fst sel) -> In f (List.map fst renamed)) ->
   exists mapped_df,
     apply_column_mapping_cm table choose_required choose_recommended df true
     = ([StSuccess msg_mapping_done], Some (Some mapped_df))
     /\ forall c, In c mapped_df <->
                  In c renamed /\ In (fst c) (List.map fst sel))
  /\ ((exists f, In f (List.map fst sel) /\ ~ In f (List.map fst renamed)) ->
      apply_column_mapping_cm table choose_required choose_recommended df true
      = ([], None)).
Proof.
  intros Hall sel renamed.
  assert (Hmiss : missing table choose_required choose_recommended = []).
  { rewrite missing_unselected.
    destruct (List.filter _ _) as [|m ms] eqn:E; [done|].
    assert (Hm : In m (List.filter (unselected choose_required)
                                   REQUIRED_FIELDS)) by (rewrite E; by left).
    apply filter_In in Hm as [Hm1 Hm2]. unfold unselected in Hm2.
    apply ustr_eqb_eq in Hm2. by destruct (Hall m Hm1). }
  unfold apply_column_mapping_cm. rewrite Hmiss.
  fold sel. fold renamed.
  pose proof (select_columns_Some (List.map fst sel) renamed) as HS.
  pose proof (select_columns_labels (List.map fst sel) renamed) as HL.
  destruct (select_columns (List.map fst sel) renamed) as [out|].
  - split.
    + intros _. exists out. split; [done|]. by apply HL.
    + intros (f & Hf & Hn). exfalso. apply Hn.
      apply HS; [by eexists|done].
  - split; [|done]. intros H. apply HS in H. by destruct H.
Qed.

End AppliedMapping.

(** ** One column chosen for two fields *)

Section DictOrder.
Context {V : Type}.

Lemma dict_set_app_absent (k : ustr) (v : V) (d e : dict V) :
  dict_mem k d = false -> dict_set k v (d ++ e) = d ++ dict_set k v e.
Proof.
  induction d as [|[k0 v0] d IH]; simpl; [done|].
  intros H. apply orb_false_iff in H as [H1 H2].
  rewrite H1. by rewrite IH.
Qed.

Lemma dict_set_In (k : ustr) (v : V) (e : dict V) (kv : ustr * V) :
  In kv (dict_set k v e) -> kv = (k, v) \/ In kv e.
Proof.
  induction e as [|[k0 v0] e IH]; simpl.
  - intros [<-|[]]. by left.
  - destruct (ustr_eqb k0 k); simpl; intros [<-|H]; auto.
    destruct (IH H); auto.
Qed.

Lemma fold_cond_prefix (cond : V -> bool) (l : list (ustr * V))
    (d e0 : dict V) :
  (forall fs, In fs l -> dict_mem (fst fs) d = false) ->
  exists e,
    fold_left (fun d '(f, s) => if cond s then dict_set f s d else d)
              l (d ++ e0) = d ++ e
    /\ forall kv, In kv e -> In kv e0 \/ In (fst kv) (List.map fst l).
Proof.
  revert e0. induction l as [|[f s] l IH]; intros e0 H; simpl.
  - exists e0. split; [done|]. by left.
  - destruct (cond s).
    + rewrite dict_set_app_absent by (apply (H (f, s)); by left).
      destruct (IH (dict_set f s e0)) as (e & -> & He).
      { intros fs Hfs. apply H. by right. }
      exists e. split; [done|]. intros kv Hkv.
      destruct (He kv Hkv) as [Hin|Hin]; [|by right; right].
      apply dict_set_In in Hin as [->|Hin]; [right; by left|by left].
    + destruct (IH e0) as (e & -> & He).
      { intros fs Hfs. apply H. by right. }
      exists e. split; [done|]. intros kv Hkv.
      destruct (He kv Hkv) as [Hin|Hin]; [by left|by right; right].
Qed.

Lemma dict_key_mem (d : dict V) (kv : ustr * V) :
  In kv d -> dict_mem (fst kv) d = true.
Proof.
  intros H. unfold dict_mem. apply existsb_exists. exists kv.
  split; [done|apply ustr_eqb_refl].
Qed.

End DictOrder.

Lemma find_app' {A} (p : A -> bool) (l1 l2 : list A) :
  List.find p (l1 ++ l2)
  = match List.find p l1 with Some y => Some y | None => List.find p l2 end.
Proof. induction l1 as [|a l1 IH]; simpl; [done|]. by destruct (p a). Qed.

Lemma find_rev_last {A} (p : A -> bool) (l1 l2 : list A) (x : A) :
  p x = true ->
  exists y, List.find p (rev (l1 ++ x :: l2)) = Some y /\ In y (x :: l2).
Proof.
  intros Hx. rewrite rev_app_distr. simpl. rewrite <- app_assoc. simpl.
  rewrite find_app'.
  destruct (List.find p (rev l2)) as [y|] eqn:E.
  - exists y. split; [done|]. right. apply find_some in E as [E _].
    by apply in_rev in E.
  - simpl. rewrite Hx. exists x. split; [done|by left].
Qed.

Lemma two_positions {A} (l : list A) (a b : A) :
  a <> b -> In a l -> In b l ->
  exists r1 r2 r3,
    l = r1 ++ a :: r2 ++ b :: r3 \/ l = r1 ++ b :: r2 ++ a :: r3.
Proof.
  intros Hab Ha Hb. apply in_split in Ha as (l1 & l2 & ->).
  apply in_app_iff in Hb as [Hb|[Hb|Hb]]; [|congruence|].
  - apply in_split in Hb as (m1 & m2 & ->).
    exists m1, m2, l2. right. by rewrite <- app_assoc.
  - apply in_split in Hb as (m1 & m2 & ->).
    exists l1, m1, m2. by left.
Qed.

Lemma REQUIRED_FIELDS_NoDup : NoDup REQUIRED_FIELDS.
Proof. apply (bool_decide_unpack (NoDup REQUIRED_FIELDS)). by vm_compute. Qed.

Section DuplicateSelection.

Variable table : list (ustr * list ustr).
Variables choose_required choose_recommended : ustr -> ustr.

Hypothesis all_selected :
  forall f, In f REQUIRED_FIELDS -> choose_required f <> placeholder_required.

Lemma selected_mapping_layout :
  exists extra,
    selected_mapping table choose_required choose_recommended
    = List.map (fun f => (f, choose_required f)) REQUIRED_FIELDS ++ extra
    /\ forall kv, In kv extra -> ~ In (fst kv) REQUIRED_FIELDS.
Proof.
  unfold selected_mapping.
  assert (Hreq :
    fold_left (fun d '(field, selected) =>
                 if negb (ustr_eqb selected placeholder_required)
                 then dict_set field selected d else d)
              (mapping_inputs_required choose_required) []
    = List.map (fun f => (f, choose_required f)) REQUIRED_FIELDS).
  { change (mapping_inputs_required choose_required)
      with (List.map (fun f => (f, choose_required f)) REQUIRED_FIELDS).
    assert (Hc : forall f, In f REQUIRED_FIELDS ->
              negb (ustr_eqb (choose_required f) placeholder_required) = true).
    { intros f Hf. apply negb_true_iff, not_true_is_false.
      rewrite ustr_eqb_eq. by apply all_selected. }
    cbn [REQUIRED_FIELDS List.map fold_left].
    rewrite !Hc by (vm_compute; tauto). reflexivity. }
  rewrite Hreq.
  destruct (fold_cond_prefix
              (fun s => negb (ustr_eqb s placeholder_recommended))
              (mapping_inputs_recommended table choose_recommended)
              (List.map (fun f => (f, choose_required f)) REQUIRED_FIELDS) [])
    as (e & He & Hkeys).
  - intros [f0 s0] Hfs. apply dict_key_mem in Hfs. cbn [fst] in *.
    apply not_true_is_false. intros Hm.
    apply existsb_exists in Hm as ([k v] & Hin & E). simpl in E.
    apply ustr_eqb_eq in E. subst k.
    apply in_map_iff in Hin as (f & Heq & Hf).
    injection Heq as -> _.
    rewrite recommended_not_required in Hfs by (by apply list_elem_of_In).
    done.
  - rewrite app_nil_r in He.
    exists e. split; [exact He|]. intros kv Hkv Hreqd.
    destruct (Hkeys kv Hkv) as [[]|Hin].
    apply in_map_iff in Hin as (fs & Hfst & Hfs).
    apply dict_key_mem in Hfs. rewrite Hfst in Hfs.
    rewrite recommended_not_required in Hfs by (by apply list_elem_of_In).
    done.
Qed.

Lemma earlier_field_loses (df : data_frame) (r1 r2 r3 : list ustr)
    (f1 f2 : ustr) :
  REQUIRED_FIELDS = r1 ++ f1 :: r2 ++ f2 :: r3 ->
  choose_required f1 = choose_required f2 ->
  ~ In f1 (List.map fst df) ->
  ~ In f1 (List.map fst
             (rename_columns
                (inverse_mapping table choose_required choose_recommended)
                df)).
Proof.
  intros Hpos Hsame Hnew Hin.
  rewrite renamed_label, List.map_map in Hin.
  apply in_map_iff in Hin as (c & Hc & Hcin). simpl in Hc.
  destruct selected_mapping_layout as (extra & Hsel & Hextra).
  assert (Hnd := REQUIRED_FIELDS_NoDup).
  assert (Hf1 : In f1 REQUIRED_FIELDS).
  { rewrite Hpos. apply in_app_iff. right. by left. }
  destruct (List.find _ _) as [[k v]|] eqn:E; simpl in Hc.
  2:{ subst f1. apply Hnew. by apply in_map. }
  subst k.
  pose proof (find_some _ _ E) as [Hk Hv]. simpl in Hv.
  apply ustr_eqb_eq in Hv. subst v.
  apply in_rev in Hk.
  assert (Hval : choose_required f1 = fst c).
  { pose proof (required_lookup table choose_required choose_recommended f1
                  (proj2 (list_elem_of_In _ _) Hf1)) as Hget.
    rewrite Hsel in Hk. apply in_app_iff in Hk as [Hk|Hk].
    - apply in_map_iff in Hk as (f & [= -> ->] & _). done.
    - by destruct (Hextra _ Hk). }
  rewrite Hsel, rev_app_distr, find_app' in E.
  destruct (List.find _ (rev extra)) as [y|] eqn:Ey.
  - injection E as ->. apply find_some in Ey as [Hy _].
    apply in_rev in Hy. by destruct (Hextra _ Hy).
  - rewrite Hpos in E.
    assert (Hsplit :
      List.map (fun f => (f, choose_required f)) (r1 ++ f1 :: r2 ++ f2 :: r3)
      = (List.map (fun f => (f, choose_required f)) (r1 ++ f1 :: r2))
          ++ (f2, choose_required f2)
          :: List.map (fun f => (f, choose_required f)) r3).
    { rewrite (app_comm_cons r2), app_assoc.
      rewrite (List.map_app _ ((r1 ++ f1 :: r2))). done. }
    rewrite Hsplit in E.
    destruct (find_rev_last (fun kv : ustr * ustr => ustr_eqb (snd kv) (fst c))
                (List.map (fun f => (f, choose_required f)) (r1 ++ f1 :: r2))
                (List.map (fun f => (f, choose_required f)) r3)
                (f2, choose_required f2)) as (y & Hy & Hyin).
    { simpl. rewrite <- Hsame, Hval. apply ustr_eqb_refl. }
    rewrite Hy in E. injection E as ->.
    rewrite Hpos in Hnd. apply NoDup_app in Hnd as (_ & _ & Hnd).
    assert (In f1 (f2 :: r3)) as Hbad.
    { destruct Hyin as [[= -> _]|Hyin]; [by left|].
      apply in_map_iff in Hyin as (f & [= -> _] & Hf). by right. }
    apply NoDup_cons in Hnd as [Hnd _]. apply Hnd.
    apply list_elem_of_In, in_app_iff. by right.
Qed.

(** X6. Choosing one column for two different required fields is not
    refused.  In app.py the apply block reports success and returns the
    mapping, yet the returned frame has no column labelled with one of the
    two fields (neither being a label of the uploaded frame); in
    column_mapper.py the column selection raises. *)
Theorem one_column_for_two_fields (df : data_frame) (f1 f2 : ustr) :
  In f1 REQUIRED_FIELDS -> In f2 REQUIRED_FIELDS -> f1 <> f2 ->
  choose_required f1 = choose_required f2 ->
  ~ In f1 (List.map fst df) -> ~ In f2 (List.map fst df) ->
  let sel := selected_mapping table choose_required choose_recommended in
  (exists mapped_df f,
     apply_column_mapping table choose_required choose_recommended df true
     = ([StSuccess msg_mapping_done], Some (mapped_df, sel))
     /\ (f = f1 \/ f = f2)
     /\ dict_mem f sel = true
     /\ ~ In f (List.map fst mapped_df))
  /\ apply_column_mapping_cm table choose_required choose_recommended df true
     = ([], None).
Proof.
  intros H1 H2 Hne Hsame Hn1 Hn2 sel.
  assert (Hmiss : missing table choose_required choose_recommended = []).
  { rewrite missing_unselected.
    destruct (List.filter _ _) as [|m ms] eqn:E; [done|].
    assert (Hm : In m (List.filter (unselected choose_required)
                                   REQUIRED_FIELDS)) by (rewrite E; by left).
    apply filter_In in Hm as [Hm1 Hm2]. unfold unselected in Hm2.
    apply ustr_eqb_eq in Hm2. by destruct (all_selected m Hm1). }
  assert (Hkey : forall f, In f REQUIRED_FIELDS -> dict_mem f sel = true).
  { intros f Hf. unfold sel.
    rewrite selected_required by (by apply list_elem_of_In).
    unfold unselected. apply negb_true_iff, not_true_is_false.
    rewrite ustr_eqb_eq. by apply all_selected. }
  assert (Hlost : exists f, (f = f1 \/ f = f2)
            /\ ~ In f (List.map fst
                 (rename_columns
                    (inverse_mapping table choose_required choose_recommended)
                    df))).
  { destruct (two_positions REQUIRED_FIELDS f1 f2 Hne H1 H2)
      as (r1 & r2 & r3 & [Hpos|Hpos]).
    - exists f1. split; [by left|]. by eapply earlier_field_loses.
    - exists f2. split; [by right|]. by eapply earlier_field_loses. }
  destruct Hlost as (f & Hf & Hgone).
  assert (Hfreq : In f REQUIRED_FIELDS) by (by destruct Hf as [->| ->]).
  split.
  - eexists _, f. unfold apply_column_mapping. rewrite Hmiss.
    split; [reflexivity|]. split; [done|]. split; [by apply Hkey|done].
  - unfold apply_column_mapping_cm. rewrite Hmiss.
    pose proof (select_columns_Some
      (List.map fst (selected_mapping table choose_required choose_recommended))
      (rename_columns
         (inverse_mapping table choose_required choose_recommended) df)) as HS.
    destruct (select_columns _ _) as [out|]; [|done].
    exfalso. apply Hgone. apply HS; [by eexists|].
    specialize (Hkey f Hfreq). unfold sel, dict_mem in Hkey.
    apply existsb_exists in Hkey as (kv & Hkv & E).
    apply ustr_eqb_eq in E as <-. by apply in_map.
Qed.

End DuplicateSelection.

(** ** The defaults of the select boxes *)

Lemma list_index_lookup (x : ustr) (l : list ustr) :
  x ∈ l -> exists i, list_index x l = Some i /\ l !! i = Some x.
Proof.
  induction l as [|y l IH]; [by intros ?%elem_of_nil|].
  intros Hx. simpl. destruct (ustr_eqb y x) eqn:E.
  - apply ustr_eqb_eq in E as ->. by exists 0%nat.
  - apply elem_of_cons in Hx as [->|Hx]; [by rewrite ustr_eqb_refl in E|].
    destruct (IH Hx) as (i & -> & Hi). by exists (S i).
Qed.

Lemma mapped_columns_app (d e : dict ustr) (f : ustr) :
  mapped_columns (d ++ e) f = mapped_columns d f ++ mapped_columns e f.
Proof. unfold mapped_columns. by rewrite List.filter_app, List.map_app. Qed.

Lemma dict_set_present {V} (k : ustr) (v : V) (d : dict V) :
  In (k, v) d ->
  (forall kv kv', In kv d -> In kv' d -> fst kv = fst kv' -> kv = kv') ->
  dict_set k v d = d.
Proof.
  induction d as [|[k0 v0] d IH]; [done|]. intros Hin Hfun. simpl.
  destruct (ustr_eqb k0 k) eqn:E.
  - apply ustr_eqb_eq in E. subst k0.
    assert ((k, v) = (k, v0)) as [= ->]; [|done].
    apply Hfun; [done|by left|done].
  - destruct Hin as [[= -> ->]|Hin]; [by rewrite ustr_eqb_refl in E|].
    f_equal. apply IH; [done|]. intros kv kv' H1 H2. apply Hfun; by right.
Qed.

Section SuggestionFacts.

Variable lower : ustr -> ustr.
Variable table : list (ustr * list ustr).

(** The rule mapping in insertion order: every entry pairs a column with its
    own suggestion, and the first column listed under a field is the first
    column of the frame that resolves to it. *)
Lemma rule_items_head (cols : list ustr) (d0 : dict ustr) (f : ustr) :
  (forall kv, In kv d0 -> snd kv = suggest_one lower table (fst kv)) ->
  head (mapped_columns
          (fold_left (fun mapping col =>
                        dict_set col (suggest_one lower table col) mapping)
                     cols d0) f)
  = match head (mapped_columns d0 f) with
    | Some c => Some c
    | None => List.find (fun c => ustr_eqb (suggest_one lower table c) f) cols
    end.
Proof.
  revert d0. induction cols as [|c cols IH]; intros d0 Hd0.
  - simpl. by destruct (head _).
  - cbn [fold_left List.find].
    destruct (dict_mem c d0) eqn:Hmem.
    + assert (Hin : In (c, suggest_one lower table c) d0).
      { apply existsb_exists in Hmem as ([k v] & Hin & E).
        apply ustr_eqb_eq in E. simpl in E. subst k.
        pose proof (Hd0 _ Hin) as Hv. simpl in Hv. by subst v. }
      rewrite dict_set_present; [| exact Hin |].
      2:{ intros [k v] [k' v'] H1 H2 Hk. simpl in Hk. subst k'.
          apply Hd0 in H1, H2. simpl in *. congruence. }
      rewrite IH by done.
      destruct (head (mapped_columns d0 f)) eqn:Hh; [done|].
      destruct (ustr_eqb (suggest_one lower table c) f) eqn:E; [|done].
      exfalso. unfold mapped_columns in Hh.
      assert (Hc : In c (List.map fst
                (List.filter (fun cm : ustr * ustr => ustr_eqb (snd cm) f) d0))).
      { apply in_map_iff. eexists.
        split; [|apply filter_In; split; [exact Hin|exact E]].
        done. }
      destruct (List.map _ _); [done|discriminate].
    + assert (Hset : dict_set c (suggest_one lower table c) d0
                     = d0 ++ [(c, suggest_one lower table c)]).
      { rewrite <- (app_nil_r d0) at 1.
        by rewrite dict_set_app_absent. }
      rewrite Hset, IH.
      2:{ intros kv [Hkv|[<-|[]]]%in_app_iff; [by apply Hd0|done]. }
      rewrite mapped_columns_app.
      destruct (mapped_columns d0 f) as [|c0 cs]; [|done].
      unfold mapped_columns. simpl.
      by destruct (ustr_eqb (suggest_one lower table c) f).
Qed.

(** The ordered view and the map view of the rule mapping agree. *)
Lemma rule_mapping_items_lookup (cols : list ustr) (col : ustr) :
  dict_get col (rule_mapping_items lower table cols)
  = suggest_column_mapping_with_rules lower table cols !! col.
Proof.
  unfold rule_mapping_items, suggest_column_mapping_with_rules.
  induction cols as [|c cols IH] using rev_ind; [done|].
  rewrite !fold_left_app. cbn [fold_left]. rewrite dict_get_set.
  destruct (ustr_eqb c col) eqn:E.
  - apply ustr_eqb_eq in E as ->. by rewrite lookup_insert_eq.
  - rewrite lookup_insert_ne; [exact IH|].
    intros ->. by rewrite ustr_eqb_refl in E.
Qed.

Lemma rule_mapping_first (cols : list ustr) (f : ustr) :
  head (mapped_columns (rule_mapping_items lower table cols) f)
  = List.find (fun c => ustr_eqb (suggest_one lower table c) f) cols.
Proof.
  unfold rule_mapping_items. rewrite rule_items_head; [done|].
  by intros kv [].
Qed.

End SuggestionFacts.

(** X2. The select box of a field starts on the first column the final
    mapping lists for that field when that column is a label of the frame;
    on the first column of the frame when it is not (an exception when the
    frame has no column); and on the placeholder when the mapping lists no
    column for the field, which for a required field is exactly when the
    field is reported as not detected. *)
Theorem select_box_default (placeholder : ustr) (final_mapping : dict ustr)
    (df_columns : list ustr) (field : ustr) :
  match mapped_columns final_mapping field with
  | [] =>
    default_choice placeholder final_mapping df_columns field
    = Some placeholder
    /\ (In field REQUIRED_FIELDS -> In field (missing_fields final_mapping))
  | first :: _ =>
    ~ In field (missing_fields final_mapping)
    /\ (In first df_columns ->
        default_choice placeholder final_mapping df_columns field = Some first)
    /\ (~ In first df_columns ->
        default_choice placeholder final_mapping df_columns field
        = head df_columns)
  end.
Proof.
  unfold default_choice, missing_fields.
  destruct (mapped_columns final_mapping field) as [|first rest] eqn:E.
  - split; [done|]. intros H. apply filter_In. by rewrite E.
  - split; [|split].
    + intros H. apply filter_In in H as [_ H]. by rewrite E in H.
    + intros Hin. apply list_elem_of_In in Hin. unfold default_idx.
      rewrite bool_decide_eq_true_2 by done.
      destruct (list_index_lookup _ _ Hin) as (i & -> & Hi).
      unfold selectbox. by rewrite Nat.add_1_r.
    + intros Hnot. unfold default_idx.
      rewrite bool_decide_eq_false_2 by (by rewrite list_elem_of_In).
      unfold selectbox. simpl. by destruct df_columns.
Qed.

(** X3. Detection, defaults and application fit together: when the rule
    mapping is used, no required field is reported as missing, no column is
    labelled like the placeholder, and the operator leaves every required
    select box as it first shows, then each required field is mapped to the
    first column of the frame that the rules resolve to it, and the apply
    button succeeds with exactly that mapping for the required fields. *)
Theorem accepted_defaults_are_applied (lower : ustr -> ustr)
    (table : list (ustr * list ustr))
    (choose_required choose_recommended : ustr -> ustr)
    (df : data_frame) :
  let df_columns := List.map fst df in
  let detected := final_mapping lower table None df_columns in
  ~ In placeholder_required df_columns ->
  missing_fields detected = [] ->
  (forall f, In f REQUIRED_FIELDS ->
             default_choice placeholder_required detected df_columns f
             = Some (choose_required f)) ->
  (forall f, In f REQUIRED_FIELDS ->
             List.find (fun c => ustr_eqb (suggest_one lower table c) f)
                       df_columns
             = Some (choose_required f))
  /\ exists mapped_df,
       apply_column_mapping table choose_required choose_recommended df true
       = ([StSuccess msg_mapping_done],
          Some (mapped_df,
                selected_mapping table choose_required choose_recommended))
       /\ forall f, In f REQUIRED_FIELDS ->
            dict_get f (selected_mapping table choose_required
                                         choose_recommended)
            = Some (choose_required f).
Proof.
  intros df_columns detected Hph Hmiss Hdef.
  assert (Hfirst : forall f, In f REQUIRED_FIELDS ->
            List.find (fun c => ustr_eqb (suggest_one lower table c) f)
                      df_columns = Some (choose_required f)).
  { intros f Hf. specialize (Hdef f Hf).
    rewrite <- rule_mapping_first.
    change (rule_mapping_items lower table df_columns) with detected.
    unfold default_choice in Hdef.
    destruct (mapped_columns detected f) as [|first rest] eqn:E.
    - exfalso.
      assert (In f (missing_fields detected)); [|by rewrite Hmiss in *].
      apply filter_In. by rewrite E.
    - simpl. f_equal.
      assert (Hin : first ∈ df_columns).
      { assert (Hh : head (mapped_columns detected f) = Some first)
          by (by rewrite E).
        unfold detected, final_mapping in Hh.
        rewrite rule_mapping_first in Hh. apply find_some in Hh as [Hh _].
        by apply list_elem_of_In. }
      unfold default_idx in Hdef. rewrite bool_decide_eq_true_2 in Hdef by done.
      destruct (list_index_lookup _ _ Hin) as (i & Hi & Hl).
      rewrite Hi in Hdef. unfold selectbox in Hdef.
      rewrite Nat.add_1_r in Hdef. simpl in Hdef. congruence. }
  split; [exact Hfirst|].
  assert (Hall : forall f, In f REQUIRED_FIELDS ->
                           choose_required f <> placeholder_required).
  { intros f Hf Heq. apply Hph. specialize (Hfirst f Hf).
    apply find_some in Hfirst as [Hin _]. by rewrite Heq in Hin. }
  assert (Hun : forall f, In f REQUIRED_FIELDS ->
                          unselected choose_required f = false).
  { intros f Hf. unfold unselected. apply not_true_is_false.
    rewrite ustr_eqb_eq. by apply Hall. }
  eexists. split.
  - unfold apply_column_mapping. rewrite missing_unselected.
    destruct (List.filter _ _) as [|m ms] eqn:E; [reflexivity|].
    assert (Hm : In m (List.filter (unselected choose_required)
                                   REQUIRED_FIELDS)) by (rewrite E; by left).
    apply filter_In in Hm as [Hm1 Hm2]. rewrite (Hun m Hm1) in Hm2. done.
  - intros f Hf.
    rewrite required_lookup by (by apply list_elem_of_In).
    by rewrite (Hun f Hf).
Qed.

(** ** Derived metrics of counts *)

Lemma round_half_even_nonneg (q : Q) : (0 <= q)%Q -> 0 <= round_half_even q.
Proof.
  intros H. unfold round_half_even.
  assert (Hn : 0 <= Qnum q).
  { unfold Qle in H. simpl in H. lia. }
  assert (Hd : 0 <= Qnum q / Z.pos (Qden q)) by (apply Z.div_pos; lia).
  destruct (_ ?= _); [destruct (Z.even _)| |]; lia.
Qed.

Lemma round_half_even_le (q : Q) (n : Z) :
  (q <= inject_Z n)%Q -> round_half_even q <= n.
Proof.
  intros H. unfold round_half_even.
  unfold Qle in H. simpl in H.
  set (a := Qnum q) in *. set (d := Z.pos (Qden q)) in *.
  assert (Hd : 0 < d) by (unfold d; lia).
  pose proof (Z.div_mod a d ltac:(lia)) as Hdm.
  pose proof (Z.mod_pos_bound a d Hd) as Hm.
  assert (Hfl : a / d <= n) by (apply Z.div_le_upper_bound; lia).
  destruct (Z.eq_dec (a / d) n) as [E|E].
  - assert (a mod d = 0) by nia.
    replace (2 * (a mod d) ?= d) with Lt; [lia|].
    symmetry. apply Z.compare_lt_iff. lia.
  - destruct (_ ?= _); [destruct (Z.even _)| |]; lia.
Qed.

Lemma scale_pos (d : nat) : (0 < inject_Z (10 ^ Z.of_nat d))%Q.
Proof.
  change 0%Q with (inject_Z 0). rewrite <- Zlt_Qlt.
  apply Z.pow_pos_nonneg; lia.
Qed.

Lemma fround_Fin_nonneg (d : nat) (q : Q) :
  (0 <= q)%Q -> exists v, fround d (Fin q) = Fin v /\ (0 <= v)%Q.
Proof.
  intros Hq. eexists. split; [reflexivity|]. rewrite Qred_correct.
  unfold Qdiv. apply Qmult_le_0_compat.
  - change 0%Q with (inject_Z 0). rewrite <- Zle_Qle.
    apply round_half_even_nonneg.
    apply Qmult_le_0_compat; [done|]. apply Qlt_le_weak, scale_pos.
  - apply Qinv_le_0_compat, Qlt_le_weak, scale_pos.
Qed.

Lemma fround_Fin_le (d : nat) (q : Q) (n : Z) :
  (q <= inject_Z n)%Q ->
  exists v, fround d (Fin q) = Fin v /\ (v <= inject_Z n)%Q.
Proof.
  intros Hq. eexists. split; [reflexivity|]. rewrite Qred_correct.
  apply Qle_shift_div_r; [apply scale_pos|].
  rewrite <- inject_Z_mult, <- Zle_Qle.
  apply round_half_even_le. rewrite inject_Z_mult.
  apply Qmult_le_compat_r; [done|]. apply Qlt_le_weak, scale_pos.
Qed.

Lemma fround_whole (q : Q) :
  exists z : Z, fround 0 (Fin q) = Fin (inject_Z z).
Proof.
  exists (round_half_even (q * inject_Z (10 ^ Z.of_nat 0))).
  unfold fround. f_equal.
  etransitivity; [|apply Qred_inject_Z].
  apply Qred_complete. change (inject_Z (10 ^ Z.of_nat 0)) with 1%Q.
  unfold Qdiv. change (/ 1)%Q with 1%Q. apply Qmult_1_r.
Qed.

Lemma fdiv_counts (a b : float) :
  is_nonneg a = true -> is_nonneg b = true ->
  nan_or_nonneg (replace_inf (fdiv a b)) = true.
Proof.
  intros Ha Hb.
  apply is_nonneg_Fin in Ha as (x & -> & Hx).
  apply is_nonneg_Fin in Hb as (y & -> & Hy).
  unfold fdiv. destruct (Qsign y) eqn:Ey.
  - by destruct (Qsign x).
  - exfalso. revert Ey. by apply Qsign_nonneg.
  - unfold nan_or_nonneg. cbn [replace_inf is_nan is_nonneg orb].
    assert (Hv : (0 <= Qred (x / y))%Q).
    { rewrite Qred_correct.
      apply Qle_shift_div_l; [by apply Qsign_pos|]. by rewrite Qmult_0_l. }
    apply Qsign_nonneg in Hv. by destruct (Qsign (Qred (x / y))).
Qed.

Lemma fmul_scale_nonneg (s : Q) (x : float) :
  (0 < s)%Q ->
  nan_or_nonneg (replace_inf x) = true ->
  nan_or_nonneg (replace_inf (fmul x (Fin s))) = true.
Proof.
  intros Hs. pose proof Hs as Hs'. apply Qsign_pos in Hs'.
  destruct x as [q| | |]; cbn [fmul]; rewrite ?Hs'; try done.
  unfold nan_or_nonneg. cbn [replace_inf is_nan is_nonneg orb]. intros Hq.
  assert (Hq' : (0 <= q)%Q).
  { apply Qsign_nonneg. by destruct (Qsign q). }
  assert (Hv : (0 <= Qred (q * s))%Q).
  { rewrite Qred_correct. apply Qmult_le_0_compat; [done|].
    by apply Qlt_le_weak. }
  apply Qsign_nonneg in Hv. by destruct (Qsign (Qred (q * s))).
Qed.

Lemma fround_nonneg (d : nat) (x : float) :
  nan_or_nonneg (replace_inf x) = true ->
  nan_or_nonneg (replace_inf (fround d x)) = true.
Proof.
  destruct x as [q| | |]; try done.
  unfold nan_or_nonneg. cbn [replace_inf is_nan is_nonneg orb]. intros Hq.
  assert (Hq' : (0 <= q)%Q).
  { apply Qsign_nonneg. by destruct (Qsign q). }
  destruct (fround_Fin_nonneg d q Hq') as (v & -> & Hv).
  cbn [replace_inf is_nan is_nonneg orb].
  apply Qsign_nonneg in Hv. by destruct (Qsign v).
Qed.

Lemma metric_whole (a : float) :
  nan_or_whole (replace_inf (fround 0 a)).
Proof.
  destruct a as [q| | |]; [|by left..].
  right. destruct (fround_whole q) as (z & ->). by exists z.
Qed.

Lemma percent_at_most_100 (a b : float) :
  is_nonneg a = true -> fle a b = true ->
  nan_or_at_most 100
    (replace_inf (fround 2 (fmul (fdiv a b) (Fin 100)))) = true.
Proof.
  intros Ha Hab.
  apply is_nonneg_Fin in Ha as (x & -> & Hx).
  destruct b as [y| | |]; try done.
  - simpl in Hab. apply Qle_bool_iff in Hab.
    unfold fdiv. destruct (Qsign y) eqn:Ey.
    + destruct (Qsign x) eqn:Ex; [done| |].
      * exfalso. revert Ex. by apply Qsign_nonneg.
      * apply Qsign_zero in Ey. apply Qsign_pos in Ex.
        rewrite Ey in Hab. exfalso. by apply (Qlt_not_le _ _ Ex).
    + exfalso.
      assert (Hy : (0 <= y)%Q) by (by apply (Qle_trans _ x)).
      apply Qsign_nonneg in Hy. done.
    + cbn [fmul]. apply Qsign_pos in Ey.
      destruct (fround_Fin_le 2 (Qred (Qred (x / y) * 100)) 100)
        as (v & -> & Hv).
      { rewrite !Qred_correct.
        change (inject_Z 100) with (1 * 100)%Q.
        apply Qmult_le_compat_r; [|done].
        apply Qle_shift_div_r; [done|]. by rewrite Qmult_1_l. }
      unfold nan_or_at_most. simpl. by apply Qle_bool_iff.
Qed.

(** X7. For a row whose four counts are finite and not negative, every
    derived metric is NaN or a finite number that is not negative; CPC, CPA
    and CPM are NaN or whole numbers; and CTR is NaN or at most 100 when
    Clicks do not exceed Impressions, as is CVR when Conversions do not
    exceed Clicks. *)
Theorem derived_metrics_of_counts (r : coerced_row) :
  is_nonneg (cImpressions r) = true -> is_nonneg (cClicks r) = true ->
  is_nonneg (cCost r) = true -> is_nonneg (cConversions r) = true ->
  let k := derive_row r in
  Forall (fun m => nan_or_nonneg m = true) [CTR k; CVR k; CPC k; CPA k; CPM k]
  /\ Forall nan_or_whole [CPC k; CPA k; CPM k]
  /\ (fle (cClicks r) (cImpressions r) = true ->
      nan_or_at_most 100 (CTR k) = true)
  /\ (fle (cConversions r) (cClicks r) = true ->
      nan_or_at_most 100 (CVR k) = true).
Proof.
  intros Hi Hc Hcost Hconv k. unfold k, derive_row.
  cbn [CTR CVR CPC CPA CPM].
  split; [|split; [|split]].
  - repeat (apply List.Forall_cons;
              [repeat first [ apply fround_nonneg
                            | apply fmul_scale_nonneg; [reflexivity|]
                            | by apply fdiv_counts ]|]).
    apply List.Forall_nil.
  - repeat (apply List.Forall_cons; [apply metric_whole|]).
    apply List.Forall_nil.
  - intros H. by apply percent_at_most_100.
  - intros H. by apply percent_at_most_100.
Qed.
(** ** The further properties at the running examples *)

(** X3 at the example sheet: the defaults are accepted and applied. *)
Lemma accepted_defaults_are_applied_witness :
  List.map (fun f => dict_get f (selected_mapping STANDARD_FIELDS
                                   choose_detected choose_none))
           REQUIRED_FIELDS
  = [Some (u "検索語句"); Some (u "マッチタイプ"); Some (u "表示回数");
     Some (u "クリック数"); Some (u "費用"); Some (u "成約")]
  /\ exists mapped_df,
       apply_column_mapping STANDARD_FIELDS choose_detected choose_none
                            example_upload true
       = ([StSuccess msg_mapping_done],
          Some (mapped_df,
                selected_mapping STANDARD_FIELDS choose_detected choose_none)).
Proof.
  destruct (accepted_defaults_are_applied ascii_lower STANDARD_FIELDS
              choose_detected choose_none example_upload)
    as [_ (mapped_df & Happly & _)].
  - vm_compute. intuition discriminate.
  - vm_compute. reflexivity.
  - intros f Hf. repeat (destruct Hf as [<-|Hf]; [vm_compute; reflexivity|]).
    destruct Hf.
  - split; [vm_compute; reflexivity|]. by exists mapped_df.
Defined.

(** X4 at the example sheet. *)
Lemma complete_selection_is_applied_witness :
  exists mapped_df,
    apply_column_mapping STANDARD_FIELDS choose_detected choose_none
                         example_upload true
    = ([StSuccess msg_mapping_done],
       Some (mapped_df,
             selected_mapping STANDARD_FIELDS choose_detected choose_none))
    /\ List.map snd mapped_df = List.map snd example_upload
    /\ List.map fst mapped_df
       = [u "Keyword"; u "MatchType"; u "Impressions"; u "Clicks"; u "Cost";
          u "Conversions"; u "日付"].
Proof.
  destruct (complete_selection_is_applied STANDARD_FIELDS choose_detected
              choose_none example_upload)
    as (mapped_df & Happly & _ & Hdata & Hlabels).
  - intros f Hf.
    repeat (destruct Hf as [<-|Hf]; [vm_compute; discriminate|]).
    destruct Hf.
  - exists mapped_df. split; [exact Happly|]. split; [exact Hdata|].
    rewrite Hlabels. vm_compute. reflexivity.
Defined.

(** X5 at the example sheet: column_mapper.py returns the six selected
    columns. *)
Lemma column_mapper_outcomes_witness :
  exists mapped_df,
    apply_column_mapping_cm ColumnMapper.STANDARD_FIELDS choose_detected
                            choose_none example_upload true
    = ([StSuccess msg_mapping_done], Some (Some mapped_df)).
Proof.
  destruct (column_mapper_outcomes ColumnMapper.STANDARD_FIELDS
              choose_detected choose_none example_upload)
    as [Hok _].
  - intros f Hf.
    repeat (destruct Hf as [<-|Hf]; [vm_compute; discriminate|]).
    destruct Hf.
  - destruct Hok as (mapped_df & Happly & _).
    + intros f Hf. vm_compute in Hf. vm_compute. tauto.
    + by exists mapped_df.
Defined.

(** X6 at the example sheet, with the cost column chosen for Cost and for
    Conversions. *)
Lemma one_column_for_two_fields_witness :
  apply_column_mapping_cm ColumnMapper.STANDARD_FIELDS choose_cost_twice
                          choose_none example_upload true
  = ([], None).
Proof.
  refine (proj2 (one_column_for_two_fields ColumnMapper.STANDARD_FIELDS
                   choose_cost_twice choose_none _ example_upload
                   (u "Cost") (u "Conversions") _ _ _ _ _ _)).
  - intros f Hf.
    repeat (destruct Hf as [<-|Hf]; [vm_compute; discriminate|]).
    destruct Hf.
  - vm_compute. tauto.
  - vm_compute. tauto.
  - vm_compute. discriminate.
  - vm_compute. reflexivity.
  - vm_compute. intuition discriminate.
  - vm_compute. intuition discriminate.
Defined.

(** X7 at a row of counts. *)
Lemma derived_metrics_of_counts_witness :
  nan_or_at_most 100 (CTR (derive_row example_counts)) = true
  /\ Forall nan_or_whole
            [CPC (derive_row example_counts); CPA (derive_row example_counts);
             CPM (derive_row example_counts)].
Proof.
  destruct (derived_metrics_of_counts example_counts eq_refl eq_refl eq_refl
              eq_refl) as (_ & Hwhole & Hctr & _).
  split; [exact (Hctr eq_refl)|exact Hwhole].
Defined.

(** X9 at the three example rows. *)
Lemma high_cost_df_monotone_witness :
  sublist (high_cost_df [row3; row1; row2] 50)
          (high_cost_df [row3; row1; row2] 80).
Proof.
  apply (high_cost_df_monotone [row3; row1; row2] 50 80).
  unfold Qle. simpl. lia.
Defined.

(** X10 at the three example rows, with the exact arithmetic and the
    stable sort. *)
Lemma high_cost_df_is_prefix_witness :
  exists n, high_cost_df [row3; row1; row2] 80
            = take n (sort_values_cost_desc [row3; row1; row2]).
Proof.
  apply (high_cost_df_is_prefix sort_values_cost_desc nansum cumsum percent_of
           [row3; row1; row2] 80).
  - reflexivity.
  - vm_compute. repeat constructor.
  - intros a b Ha Hb.
    vm_compute in Ha. vm_compute in Hb.
    destruct Ha as [<-|[<-|[<-|[]]]], Hb as [<-|[<-|[<-|[]]]];
      vm_compute; congruence.
Defined.

(** X12 at a frame whose only row cost nothing. *)
Lemma zero_cost_selects_nothing_witness :
  high_cost_df [free_row] 80 = []
  /\ categorize_button oracle_one_item (u "sk-test") (u "shoe shop")
                       [free_row] 80 100 = NoValidKeywords.
Proof.
  destruct (zero_cost_selects_nothing [free_row] 80 oracle_one_item
              (u "sk-test") (u "shoe shop") 100) as [Hsel Hstop].
  - repeat constructor.
  - split; [exact Hsel|]. apply Hstop. discriminate.
Defined.

(** X15 at the three example rows, two keywords per batch. *)
Lemma pipeline_requests_carry_whole_batch_witness :
  Forall (fun b => classify_request (u "shoe shop") b
                   = ClassifyReq (List.map py_str b) (u "shoe shop"))
         [[PStr (u "row 1"); PStr (u "row 2")]; [PStr (u "row 3")]].
Proof.
  eapply Forall_impl.
  - apply (pipeline_requests_carry_whole_batch [row1; row2; row3] 2
             (u "shoe shop")
             [[PStr (u "row 1"); PStr (u "row 2")]; [PStr (u "row 3")]]).
    + lia.
    + vm_compute. reflexivity.
  - intros b (_ & H & _). exact H.
Defined.

(** X16 without a credential: two different oracles, one result. *)
Lemma no_request_without_key_or_keywords_witness :
  categorize_keywords_with_llm oracle_down [PStr (u "row 1")]
                               (u "shoe shop") [] 100
  = categorize_keywords_with_llm oracle_one_item [PStr (u "row 1")]
                                 (u "shoe shop") [] 100.
Proof.
  exact (proj1 (no_request_without_key_or_keywords oracle_down oracle_one_item
                  [PStr (u "row 1")] (u "shoe shop") [] 100 5
                  (or_introl eq_refl))).
Defined.

(** X17 at a batch with the integer keyword 42: the item comes back with
    the integer. *)
Lemma classification_restores_keyword_values_witness :
  categorize_keywords_with_llm oracle_one_item [PStr (u "row 1"); PInt 42]
                               (u "shoe shop") (u "sk-test") 100
  = [RList [ {| a_keyword := PInt 42; a_axis := u "shoes";
                a_comb := u "size" |} ]; RNone].
Proof.
  destruct (classification_restores_keyword_values oracle_one_item
              [PStr (u "row 1"); PInt 42] (u "shoe shop") (u "sk-test")
              [example_item]) as (H & _).
  - discriminate.
  - by constructor.
  - reflexivity.
  - rewrite H. vm_compute. reflexivity.
Defined.

(** X18 at an oracle whose classification is not JSON and whose clustering
    answers. *)
Lemma batch_fallback_tiers_witness :
  exists error,
    process_batch oracle_cluster_only (u "shoe shop") (u "sk-test") 0
                  [PStr (u "row 1"); PInt 42] ([], [])
    = Ok ([ {| a_keyword := PInt 42; a_axis := u "shoes";
               a_comb := u "size" |} ],
          [Recovered 1 error]).
Proof.
  destruct (batch_fallback_tiers oracle_cluster_only (u "shoe shop")
              (u "sk-test") 0 [PStr (u "row 1"); PInt 42] [] [])
    as (_ & _ & H).
  - discriminate.
  - by constructor.
  - destruct (H [example_item] eq_refl eq_refl) as (error & _ & Hrun).
    exists error. rewrite Hrun. vm_compute. reflexivity.
Defined.

(** X19 at the three example rows and an oracle that answers. *)
Lemma categorize_button_never_crashes_witness :
  categorize_button oracle_one_item (u "sk-test") (u "shoe shop")
                    [row1; row2; row3] 80 2 = NoValidKeywords
  \/ exists categorized_data categories_master errors,
       categorize_button oracle_one_item (u "sk-test") (u "shoe shop")
                         [row1; row2; row3] 80 2
       = Categorized categorized_data categories_master errors
       /\ List.map base categorized_data = [row1; row2; row3].
Proof.
  destruct (categorize_button_never_crashes oracle_one_item (u "sk-test")
              (u "shoe shop") [row1; row2; row3] 80 2
              ltac:(discriminate) ltac:(lia))
    as [H|(cd & cm & errs & bs & H & Hbase & _)].
  - by left.
  - right. by exists cd, cm, errs.
Defined.

